(** * mini_cassandra: consistent-hash ring, local store, router and bootstrap

    A shallow embedding of the Go packages [hashring], [kv], [cluster],
    [api] and of the bootstrap of the node's [main] package, followed by
    the properties of the design document that were checked against them
    and by further properties of the packages. *)

From Stdlib Require Import ZArith NArith String Ascii List Lia Bool.
From Stdlib Require Import DecimalString.
From stdpp Require Import base option list gmap sets strings sorting.

Local Open Scope string_scope.
Local Open Scope list_scope.

(** ** Outcome of a call

    A Go call either returns, panics (index out of range), or keeps running.
    The ring walk is a [for] loop without a static bound, so its model takes
    a number of iterations it may spend ([fuel]); [OutOfFuel] is the answer
    of a run that is still inside the loop when the fuel is gone. *)

Inductive result (A : Type) : Type :=
| Done (a : A)
| Panic
| OutOfFuel.

Arguments Done {A} a.
Arguments Panic {A}.
Arguments OutOfFuel {A}.

(** Sequencing, written [x ← m; k] below. *)
#[global] Instance result_bind : MBind result := fun A B k m =>
  match m with
  | Done a => k a
  | Panic => Panic
  | OutOfFuel => OutOfFuel
  end.

#[global] Instance result_ret : MRet result := fun A a => Done a.

(** ** [sort.Search] *)

Module sort.

(** The loop of [sort.Search]: [i, j := 0, n; for i < j { h := (i+j)/2;
    if !f(h) { i = h + 1 } else { j = h } }; return i].  The distance
    [j - i] shrinks at every turn, so [n] turns are enough. *)
Fixpoint Search_loop (turns : nat) (f : nat -> bool) (i j : nat) : nat :=
  match turns with
  | O => i
  | S turns' =>
      if (i <? j)%nat then
        let h := ((i + j) / 2)%nat in
        if negb (f h) then Search_loop turns' f (h + 1)%nat j
        else Search_loop turns' f i h
      else i
  end.

Definition Search (n : nat) (f : nat -> bool) : nat := Search_loop n f 0%nat n.

End sort.

(** ** Package [hash/fnv] as used by [hashring.hashFn] *)

Module fnv.

Definition offset32 : Z := 2166136261%Z.
Definition prime32 : Z := 16777619%Z.

(** [uint32] arithmetic wraps: the product is truncated to 32 bits. *)
Definition wrap32 (x : Z) : Z := Z.land x 4294967295%Z.

(** The digest state of [sum32a]. *)
Definition New32a : Z := offset32.

(** [for _, c := range data { hash ^= sum32a(c); hash *= prime32 }] *)
Fixpoint Write (hash : Z) (data : list Byte.byte) : Z :=
  match data with
  | [] => hash
  | c :: rest =>
      let hash1 := Z.lxor hash (Z.of_N (Byte.to_N c)) in
      let hash2 := wrap32 (hash1 * prime32)%Z in
      Write hash2 rest
  end.

Definition Sum32 (hash : Z) : Z := hash.

End fnv.

(** ** Package [hashring] *)

Module hashring.

Definition NodeID := string.

Record NodeInfo := mkNodeInfo { ID : NodeID; Host : string }.

#[global] Instance NodeInfo_eq_dec : EqDecision NodeInfo.
Proof. solve_decision. Defined.

(** The zero value Go yields when a map has no entry for the key. *)
Definition zeroNodeInfo : NodeInfo := mkNodeInfo "" "".

Record Ring := mkRing {
  vNodes : Z;
  hashes : list Z;
  hashMap : gmap Z NodeInfo
}.

(** [sort.Slice(r.hashes, less)] with [less i j := hashes[i] < hashes[j]]. *)
Definition sortHashes (r : Ring) : Ring :=
  mkRing (vNodes r) (merge_sort Z.le (hashes r)) (hashMap r).

(** [h := fnv.New32a(); h.Write([]byte(key)); return h.Sum32()] *)
Definition hashFn (key : string) : Z :=
  fnv.Sum32 (fnv.Write fnv.New32a (list_byte_of_string key)).

(** [fmt.Sprintf("%s#%d", string(n.ID), i)] for [0 <= i]. *)
Definition vKey (n : NodeInfo) (i : nat) : string :=
  ID n +:+ "#" +:+ NilZero.string_of_uint (Nat.to_uint i).

(** One iteration of the loop of [addNodeNoLock]. *)
Definition addSlot (n : NodeInfo) (r : Ring) (i : nat) : Ring :=
  let h := hashFn (vKey n i) in
  mkRing (vNodes r) (hashes r ++ [h]) (<[h := n]> (hashMap r)).

(** [for i := 0; i < r.vNodes; i++ { ... }] *)
Definition addNodeNoLock (r : Ring) (n : NodeInfo) : Ring :=
  fold_left (addSlot n) (seq 0 (Z.to_nat (vNodes r))) r.

Definition NewRing (nodes : list NodeInfo) (vNodes : Z) : Ring :=
  sortHashes (fold_left addNodeNoLock nodes (mkRing vNodes [] ∅)).

Definition AddNode (r : Ring) (n : NodeInfo) : Ring :=
  sortHashes (addNodeNoLock r n).

(** [RemoveNode]: the loop reads and deletes from [r.hashMap] while it
    filters [r.hashes]. *)
Definition removeSlot (id : NodeID) (acc : list Z * gmap Z NodeInfo) (h : Z)
  : list Z * gmap Z NodeInfo :=
  let '(newHashes, hm) := acc in
  if decide (ID (default zeroNodeInfo (hm !! h)) = id)
  then (newHashes, delete h hm)
  else (newHashes ++ [h], hm).

Definition RemoveNode (r : Ring) (id : NodeID) : Ring :=
  let '(newHashes, hm) := fold_left (removeSlot id) (hashes r) ([], hashMap r) in
  sortHashes (mkRing (vNodes r) newHashes hm).

(** [sort.Search(len(r.hashes), func(i) { return r.hashes[i] >= h })],
    followed by the wrap to index 0.  [sort.Search] calls the closure only
    below [len(r.hashes)]. *)
Definition startIndex (r : Ring) (h : Z) : nat :=
  let idx := sort.Search (length (hashes r)) (fun i => (h <=? nth i (hashes r) 0)%Z) in
  if (idx =? length (hashes r))%nat then 0%nat else idx.

Definition getNode (r : Ring) (hash : Z) : result (NodeInfo * bool) :=
  if (length (hashes r) =? 0)%nat then Done (zeroNodeInfo, false)
  else
    match hashes r !! startIndex r hash with
    | None => Panic
    | Some h =>
        match hashMap r !! h with
        | Some n => Done (n, true)
        | None => Done (zeroNodeInfo, false)
        end
    end.

Definition GetNodeForKey (r : Ring) (key : string) : result (NodeInfo * bool) :=
  getNode r (hashFn key).

(** The loop [for len(replicas) < rFactor { ... }] of [GetReplicasForKey]. *)
Fixpoint walk (fuel : nat) (r : Ring) (rFactor : Z) (idx : nat)
    (replicas : list NodeInfo) (seen : gset NodeID) : result (list NodeInfo) :=
  if (Z.of_nat (length replicas) <? rFactor)%Z then
    match fuel with
    | O => OutOfFuel
    | S fuel' =>
        match hashes r !! idx with
        | None => Panic
        | Some hash =>
            let node := default zeroNodeInfo (hashMap r !! hash) in
            let '(seen1, replicas1) :=
              if decide (ID node ∈ seen) then (seen, replicas)
              else ({[ID node]} ∪ seen, replicas ++ [node]) in
            let idx1 := ((idx + 1) mod length (hashes r))%nat in
            if (size seen1 =? size (hashMap r))%nat then Done replicas1
            else walk fuel' r rFactor idx1 replicas1 seen1
        end
    end
  else Done replicas.

Definition GetReplicasForKey (fuel : nat) (r : Ring) (key : string) (rFactor : Z)
  : result (list NodeInfo) :=
  if (length (hashes r) =? 0)%nat || (rFactor <=? 0)%Z then Done []
  else
    let rFactor1 :=
      if (rFactor >? Z.of_nat (length (hashes r)))%Z
      then Z.of_nat (length (hashes r)) else rFactor in
    let h := hashFn key in
    walk fuel r rFactor1 (startIndex r h) [] ∅.

End hashring.

(** ** Package [kv] *)

Module kv.

Definition Store := gmap string string.

Definition NewStore : gmap string string := ∅.

Definition Put (s : gmap string string) (key value : string) : gmap string string :=
  <[key := value]> s.

(** [val, ok := s.data[key]]: a missing key reads as the empty string. *)
Definition Get (s : gmap string string) (key : string) : string * bool :=
  match s !! key with
  | Some val => (val, true)
  | None => ("", false)
  end.

Definition Delete (s : gmap string string) (key : string) : gmap string string :=
  delete key s.

(** One enumeration of the keys; Go ranges over the map in an order of
    its own choosing. *)
Definition Keys (s : gmap string string) : list string := (map_to_list s).*1.

End kv.

(** ** Package [cluster] *)

Module cluster.

Import hashring.

(** A Go [error]: [None] is [nil], [Some msg] carries [err.Error()]. *)
Definition error := option string.

(** What [httpClient.Post] and [httpClient.Get] hand back: an error, or a
    response with its status code and body. *)
Inductive HttpResult : Type :=
| NetErr (msg : string)
| Resp (status : Z) (body : string).

(** Everything outside the process.  [World] is the state of the network
    and of the peers; each request may change it.  The remaining fields
    are the library functions the router calls. *)
Record Env (World : Type) := mkEnv {
  httpPost : World -> string -> string -> World * HttpResult;
  httpGet : World -> string -> World * HttpResult;
  (** [url.Parse(baseURL)], [q.Set("key", key)], [reqURL.String()];
      [None] when [url.Parse] fails. *)
  urlWithKey : string -> string -> option string;
  (** [json.Marshal] of [replicaPutRequest] and [replicaDeleteRequest]. *)
  marshalPut : string -> string -> string;
  marshalDelete : string -> string
}.

Arguments httpPost {World} _ _ _ _.
Arguments httpGet {World} _ _ _.
Arguments urlWithKey {World} _ _ _.
Arguments marshalPut {World} _ _ _.
Arguments marshalDelete {World} _ _.

(** [context.Context] as the rebalancer uses it. *)
Record Context (World : Type) := mkContext {
  ctxDone : World -> bool;
  ctxErr : World -> string
}.

Arguments ctxDone {World} _ _.
Arguments ctxErr {World} _ _.

(** The fields of [Router] that are plain values.  [localStore] is a
    pointer to the shared store: its contents are passed in and out of
    every operation. *)
Record Router := mkRouter {
  nodeID : NodeID;
  selfHost : string;
  ring : Ring;
  replicationFactor : Z
}.

Definition NewRouter (nodeID : NodeID) (selfHost : string) (ring : Ring)
    (replicationFactor : Z) : Router :=
  mkRouter nodeID selfHost ring
    (if (replicationFactor <? 1)%Z then 1%Z else replicationFactor).

Definition isLocal (r : Router) (node : NodeInfo) : bool :=
  bool_decide (ID node = nodeID r).

(** [%d] of an [int]. *)
Definition fmtInt (z : Z) : string := NilZero.string_of_int (Z.to_int z).

(** [%v] of a [[]error]. *)
Definition fmtErrs (errs : list string) : string :=
  "[" +:+ String.concat " " errs +:+ "]".

(** The lines written with [log.Printf] by [RebalanceLocalKeys], as the
    format that was used and its arguments. *)
Inductive LogEntry : Type :=
| LogStart (node : NodeID)
| LogCancelled
| LogFailedMove (key : string) (err : string)
| LogFinished (node : NodeID) (moved kept : Z).

Section WithEnv.

Context {World : Type} (env : Env World).

(** The [for _, node := range replicas] loop of [Put]. *)
Fixpoint Put_loop (r : Router) (key value : string) (replicas : list NodeInfo)
    (st : gmap string string) (w : World) (errs : list string)
  : gmap string string * World * list string :=
  match replicas with
  | [] => (st, w, errs)
  | node :: rest =>
      if isLocal r node then
        Put_loop r key value rest (kv.Put st key value) w errs
      else
        let body := marshalPut env key value in
        let url := "http://" +:+ Host node +:+ "/internal/replica/put" in
        match httpPost env w url body with
        | (w1, NetErr err) =>
            Put_loop r key value rest st w1
              (errs ++ ["remote PUT to " +:+ Host node +:+ " failed: " +:+ err])
        | (w1, Resp status _) =>
            if (300 <=? status)%Z then
              Put_loop r key value rest st w1
                (errs ++ ["remote PUT to " +:+ Host node +:+ " status=" +:+ fmtInt status])
            else Put_loop r key value rest st w1 errs
        end
  end.

Definition Put (fuel : nat) (r : Router) (st : gmap string string) (w : World)
    (key value : string) : result (gmap string string * World * error) :=
  replicas ← GetReplicasForKey fuel (ring r) key (replicationFactor r);
  if (length replicas =? 0)%nat then
    Done (st, w, Some "no replicas for key")
  else
    let '(st1, w1, errs) := Put_loop r key value replicas st w [] in
    if (0 <? length errs)%nat then
      Done (st1, w1, Some ("replication errors: " +:+ fmtErrs errs))
    else Done (st1, w1, None).

(** The loop of [Get]; every [continue] is a recursive call on the
    remaining replicas, every [return] ends the loop. *)
Fixpoint Get_loop (r : Router) (key : string) (replicas : list NodeInfo)
    (st : gmap string string) (w : World) : World * (string * bool * error) :=
  match replicas with
  | [] => (w, ("", false, None))
  | node :: rest =>
      if isLocal r node then
        let '(val, ok) := kv.Get st key in
        if ok then (w, (val, true, None))
        else Get_loop r key rest st w
      else
        let baseURL := "http://" +:+ Host node +:+ "/internal/replica/get" in
        match urlWithKey env baseURL key with
        | None => Get_loop r key rest st w
        | Some reqURL =>
            match httpGet env w reqURL with
            | (w1, NetErr _) => Get_loop r key rest st w1
            | (w1, Resp status body) =>
                if (status =? 404)%Z then Get_loop r key rest st w1
                else if (300 <=? status)%Z then Get_loop r key rest st w1
                else (w1, (body, true, None))
            end
        end
  end.

Definition Get (fuel : nat) (r : Router) (st : gmap string string) (w : World)
    (key : string) : result (World * (string * bool * error)) :=
  replicas ← GetReplicasForKey fuel (ring r) key (replicationFactor r);
  if (length replicas =? 0)%nat then
    Done (w, ("", false, Some "no replicas for key"))
  else Done (Get_loop r key replicas st w).

Fixpoint Delete_loop (r : Router) (key : string) (replicas : list NodeInfo)
    (st : gmap string string) (w : World) (errs : list string)
  : gmap string string * World * list string :=
  match replicas with
  | [] => (st, w, errs)
  | node :: rest =>
      if isLocal r node then
        Delete_loop r key rest (kv.Delete st key) w errs
      else
        let body := marshalDelete env key in
        let url := "http://" +:+ Host node +:+ "/internal/replica/delete" in
        match httpPost env w url body with
        | (w1, NetErr err) =>
            Delete_loop r key rest st w1
              (errs ++ ["remote DELETE to " +:+ Host node +:+ " failed: " +:+ err])
        | (w1, Resp status _) =>
            if (300 <=? status)%Z then
              Delete_loop r key rest st w1
                (errs ++ ["remote DELETE to " +:+ Host node +:+ " status=" +:+ fmtInt status])
            else Delete_loop r key rest st w1 errs
        end
  end.

Definition Delete (fuel : nat) (r : Router) (st : gmap string string) (w : World)
    (key : string) : result (gmap string string * World * error) :=
  replicas ← GetReplicasForKey fuel (ring r) key (replicationFactor r);
  if (length replicas =? 0)%nat then
    Done (st, w, Some "no replicas for key")
  else
    let '(st1, w1, errs) := Delete_loop r key replicas st w [] in
    if (0 <? length errs)%nat then
      Done (st1, w1, Some ("delete replication errors: " +:+ fmtErrs errs))
    else Done (st1, w1, None).

(** What [RebalanceLocalKeys] leaves behind: the store, the world, the
    log lines and the returned error. *)
Record Rebalanced := mkRebalanced {
  rbStore : gmap string string;
  rbWorld : World;
  rbLog : list LogEntry;
  rbErr : error
}.

(** The [for _, key := range keys] loop of [RebalanceLocalKeys]. *)
Fixpoint Rebalance_loop (fuel : nat) (r : Router) (ctx : Context World)
    (keys : list string) (st : gmap string string) (w : World)
    (moved kept : Z) (log : list LogEntry) : result Rebalanced :=
  match keys with
  | [] =>
      Done (mkRebalanced st w (log ++ [LogFinished (nodeID r) moved kept]) None)
  | key :: rest =>
      if ctxDone ctx w then
        Done (mkRebalanced st w (log ++ [LogCancelled]) (Some (ctxErr ctx w)))
      else
        let '(val, ok) := kv.Get st key in
        if negb ok then Rebalance_loop fuel r ctx rest st w moved kept log
        else
          match GetReplicasForKey fuel (ring r) key (replicationFactor r) with
          | Panic => Panic
          | OutOfFuel => OutOfFuel
          | Done replicas =>
              if (length replicas =? 0)%nat then
                Rebalance_loop fuel r ctx rest st w moved (kept + 1)%Z log
              else if existsb (isLocal r) replicas then
                Rebalance_loop fuel r ctx rest st w moved (kept + 1)%Z log
              else
                match Put fuel r st w key val with
                | Panic => Panic
                | OutOfFuel => OutOfFuel
                | Done (st1, w1, Some err) =>
                    Rebalance_loop fuel r ctx rest st1 w1 moved kept
                      (log ++ [LogFailedMove key err])
                | Done (st1, w1, None) =>
                    Rebalance_loop fuel r ctx rest (kv.Delete st1 key) w1
                      (moved + 1)%Z kept log
                end
          end
  end.

(** [keys] is the slice [r.localStore.Keys()] returned, in the order the
    map iteration happened to produce. *)
Definition RebalanceLocalKeys (fuel : nat) (r : Router) (ctx : Context World)
    (keys : list string) (st : gmap string string) (w : World) : result Rebalanced :=
  Rebalance_loop fuel r ctx keys st w 0%Z 0%Z [LogStart (nodeID r)].

End WithEnv.

End cluster.

(** ** Package [api]: the client-facing handlers *)

Module api.

Import cluster.

Definition StatusOK : Z := 200%Z.
Definition StatusNotFound : Z := 404%Z.
Definition StatusBadGateway : Z := 502%Z.

(** [http.Error(w, msg, code)] writes [msg] and a newline. *)
Definition httpError (msg : string) (code : Z) : Z * string :=
  (code, msg +:+ String (ascii_of_nat 10) "").

Section WithEnv.

Context {World : Type} (env : Env World).

(** The status code and body the handler writes; its log lines are left
    out. *)
Definition HandleGetDistributed (fuel : nat) (r : Router) (st : gmap string string)
    (w : World) (key : string) : result (World * (Z * string)) :=
  '(w1, (value, ok, err)) ← Get env fuel r st w key;
  match err with
  | Some e => Done (w1, httpError e StatusBadGateway)
  | None =>
      if negb ok then Done (w1, httpError "not found" StatusNotFound)
      else Done (w1, (StatusOK, value))
  end.

Definition HandlePutDistributed (fuel : nat) (r : Router) (st : gmap string string)
    (w : World) (key value : string)
  : result (gmap string string * World * (Z * string)) :=
  '(st1, w1, err) ← Put env fuel r st w key value;
  match err with
  | Some e => Done (st1, w1, httpError e StatusBadGateway)
  | None => Done (st1, w1, (StatusOK, "OK"))
  end.


End WithEnv.

Definition StatusBadRequest : Z := 400%Z.
Definition StatusNotImplemented : Z := 501%Z.

(** The replica endpoints.  Each works on the store of the node that
    serves it and writes a status code and a body. *)
Section WithJSON.

(** [json.Unmarshal] of the request body into [replicaPutReq] and into
    [replicaDeleteReq]; [None] when it reports an error.  A field the body
    does not give is the empty string. *)
Variable unmarshalPut : string -> option (string * string).
Variable unmarshalDelete : string -> option string.

Definition HandleReplicaPut (store : gmap string string) (body : string)
  : gmap string string * (Z * string) :=
  match unmarshalPut body with
  | None => (store, httpError "invalid json" StatusBadRequest)
  | Some (key, value) => (kv.Put store key value, (StatusOK, "OK"))
  end.

(** [key] is [r.URL.Query().Get("key")]: empty when the parameter is
    missing. *)
Definition HandleReplicaGet (store : gmap string string) (key : string) : Z * string :=
  if decide (key = "") then httpError "missing key" StatusBadRequest
  else
    let '(val, ok) := kv.Get store key in
    if negb ok then httpError "not found" StatusNotFound
    else (StatusOK, val).

Definition HandleReplicaDelete (store : gmap string string) (body : string)
  : gmap string string * (Z * string) :=
  match unmarshalDelete body with
  | None => (store, httpError "invalid json" StatusBadRequest)
  | Some key => (kv.Delete store key, (StatusOK, "OK"))
  end.

End WithJSON.

Definition NotImplemented : Z * string :=
  httpError "not implemented" StatusNotImplemented.

End api.

(** ** The nodes wired together

    [main] hands one store to the router of the node and to its replica
    endpoints, and registers the endpoints under [/internal/replica/].
    The state of the cluster is the store of every node that is up, by
    host; a request to a node changes the store the cluster holds for it. *)

Module server.

Import hashring cluster.

Abbreviation Cluster := (gmap string (gmap string string)) (only parsing).

Section Routes.

Variable unmarshalPut : string -> option (string * string).
Variable unmarshalDelete : string -> option string.

(** [POST /internal/replica/put] on [host]. *)
Definition postPut (G : Cluster) (host body : string) : Cluster * HttpResult :=
  match G !! host with
  | None => (G, NetErr "connection refused")
  | Some store =>
      let '(store1, (code, text)) := api.HandleReplicaPut unmarshalPut store body in
      (<[host := store1]> G, Resp code text)
  end.

(** [POST /internal/replica/delete] on [host]. *)
Definition postDelete (G : Cluster) (host body : string) : Cluster * HttpResult :=
  match G !! host with
  | None => (G, NetErr "connection refused")
  | Some store =>
      let '(store1, (code, text)) := api.HandleReplicaDelete unmarshalDelete store body in
      (<[host := store1]> G, Resp code text)
  end.

(** [GET /internal/replica/get?key=...] on [host]. *)
Definition getGet (G : Cluster) (host key : string) : Cluster * HttpResult :=
  match G !! host with
  | None => (G, NetErr "connection refused")
  | Some store =>
      let '(code, text) := api.HandleReplicaGet store key in
      (G, Resp code text)
  end.

(** The network takes what the router sends to [host] about [key] to the
    endpoints of that node. *)
Definition delivers (env : Env Cluster) (host key : string) : Prop :=
  (forall G body,
     httpPost env G ("http://" +:+ host +:+ "/internal/replica/put") body
     = postPut G host body)
  /\ (forall G body,
        httpPost env G ("http://" +:+ host +:+ "/internal/replica/delete") body
        = postDelete G host body)
  /\ (forall G,
        exists u,
          urlWithKey env ("http://" +:+ host +:+ "/internal/replica/get") key = Some u
          /\ httpGet env G u = getGet G host key).

End Routes.

(** The node [n] is up and its store holds [value] under [key]. *)
Definition holds (G : Cluster) (n : NodeInfo) (key value : string) : Prop :=
  exists store, G !! Host n = Some store /\ store !! key = Some value.

(** The node [n] is up and its store has nothing under [key]. *)
Definition lacks (G : Cluster) (n : NodeInfo) (key : string) : Prop :=
  exists store, G !! Host n = Some store /\ store !! key = None.

(** Among the nodes of the list, the ones with the id of the router are
    the ones at its host. *)
Definition knowsItself (r : Router) (nodes : list NodeInfo) : Prop :=
  forall n, n ∈ nodes -> (ID n = nodeID r <-> Host n = selfHost r).

(** The cluster after the node of [r] served a request that left its
    store as [store] and the stores of its peers as in [G]. *)
Definition after (r : Router) (store : gmap string string) (G : Cluster) : Cluster :=
  <[selfHost r := store]> G.

End server.

(** ** Package [strings], for one-byte separators *)

Module strings.

(** [m := Index(s, sep)] together with the slices [s[:m]] and
    [s[m+len(sep):]]; [None] when [Index] answers [-1]. *)
Fixpoint cutAt (sep : ascii) (s : string) : option (string * string) :=
  match s with
  | EmptyString => None
  | String c rest =>
      if decide (c = sep) then Some (EmptyString, rest)
      else
        match cutAt sep rest with
        | Some (a, b) => Some (String c a, b)
        | None => None
        end
  end.

Fixpoint Count (s : string) (sep : ascii) : nat :=
  match s with
  | EmptyString => 0
  | String c rest => if decide (c = sep) then S (Count rest sep) else Count rest sep
  end.

(** [for i < n { m := Index(s, sep); if m < 0 { break }; a[i] = s[:m];
    s = s[m+len(sep):]; i++ }; a[i] = s] *)
Fixpoint genSplit_loop (turns : nat) (s : string) (sep : ascii) : list string :=
  match turns with
  | O => [s]
  | S turns' =>
      match cutAt sep s with
      | None => [s]
      | Some (a, b) => a :: genSplit_loop turns' b sep
      end
  end.

Definition genSplit (s : string) (sep : ascii) (n : Z) : list string :=
  if (n =? 0)%Z then []
  else
    let n1 := if (n <? 0)%Z then (Z.of_nat (Count s sep) + 1)%Z else n in
    let n2 :=
      if (n1 >? Z.of_nat (String.length s) + 1)%Z
      then (Z.of_nat (String.length s) + 1)%Z else n1 in
    genSplit_loop (Z.to_nat (n2 - 1)) s sep.

Definition SplitN (s : string) (sep : ascii) (n : Z) : list string := genSplit s sep n.

Definition Split (s : string) (sep : ascii) : list string := genSplit s sep (-1).

(** The white space of [TrimSpace] that is a single byte. *)
Definition asciiSpace (c : ascii) : bool :=
  let n := nat_of_ascii c in
  ((9 <=? n) && (n <=? 13) || (n =? 32))%nat.

Fixpoint trimLeft (s : string) : string :=
  match s with
  | EmptyString => EmptyString
  | String c rest => if asciiSpace c then trimLeft rest else s
  end.

Fixpoint trimRight (s : string) : string :=
  match s with
  | EmptyString => EmptyString
  | String c rest =>
      match trimRight rest with
      | EmptyString => if asciiSpace c then EmptyString else String c EmptyString
      | t => String c t
      end
  end.

(** [TrimSpace] on strings whose white space is ASCII. *)
Definition asciiTrimSpace (s : string) : string := trimRight (trimLeft s).

(** [if HasPrefix(s, prefix) { return s[len(prefix):] }; return s] *)
Definition TrimPrefix (s prefix : string) : string :=
  if String.prefix prefix s
  then substring (String.length prefix) (String.length s - String.length prefix) s
  else s.

End strings.

(** ** Package [main]: reading [CLUSTER_NODES] *)

Module main.

Import hashring.

Section WithTrimSpace.

(** [strings.TrimSpace]; nothing is assumed of it. *)
Variable TrimSpace : string -> string.

(** The body of the loop over [parts]; the warning it logs is left out. *)
Definition parseEntry (nodes : list NodeInfo) (p : string) : list NodeInfo :=
  let p := TrimSpace p in
  if decide (p = "") then nodes
  else
    let pair := strings.SplitN p "="%char 2 in
    if negb (length pair =? 2)%nat then nodes
    else
      let id := nth 0 pair "" in
      let host := nth 1 pair "" in
      nodes ++ [mkNodeInfo id host].

Definition parseClusterNodes (env : string) : list NodeInfo :=
  if decide (env = "") then []
  else
    let parts := strings.Split env ","%char in
    fold_left parseEntry parts [].

End WithTrimSpace.

(** [os.Getenv] is a function from names to values; a variable that is
    not set reads as the empty string. *)
Definition getEnv (getenv : string -> string) (key def : string) : string :=
  let v := getenv key in
  if decide (v <> "") then v else def.

(** [strconv.Atoi] is [atoi]; [None] when it reports an error. *)
Definition getEnvInt (getenv : string -> string) (atoi : string -> option Z)
    (key : string) (def : Z) : Z :=
  let v := getenv key in
  if decide (v <> "") then
    match atoi v with
    | Some n => n
    | None => def
    end
  else def.

(** [for _, n := range nodes { if string(n.ID) == nodeID { return n.Host } }] *)
Fixpoint findSelfHost_loop (nodes : list NodeInfo) (nodeID : string) : option string :=
  match nodes with
  | [] => None
  | n :: rest =>
      if decide (ID n = nodeID) then Some (Host n)
      else findSelfHost_loop rest nodeID
  end.

Definition findSelfHost (nodes : list NodeInfo) (nodeID listenAddr : string) : string :=
  match findSelfHost_loop nodes nodeID with
  | Some host => host
  | None =>
      let addr := strings.TrimPrefix listenAddr ":" in
      let addr := if decide (addr = "") then "8080" else addr in
      "localhost:" +:+ addr
  end.

(** The part of [main] that turns the environment into the router: the
    ring of the nodes of [CLUSTER_NODES], or of this node alone when there
    are none, with 100 slots per node. *)
Definition bootNodes (TrimSpace : string -> string) (getenv : string -> string)
  : list NodeInfo :=
  let nodeID := getEnv getenv "NODE_ID" "node1" in
  let listenAddr := getEnv getenv "LISTEN_ADDR" ":8081" in
  let clusterEnv := getEnv getenv "CLUSTER_NODES" "" in
  let nodes := parseClusterNodes TrimSpace clusterEnv in
  if (length nodes =? 0)%nat then
    let selfHost := findSelfHost [] nodeID listenAddr in
    [mkNodeInfo nodeID selfHost]
  else nodes.

Definition bootRouter (TrimSpace : string -> string) (getenv : string -> string)
    (atoi : string -> option Z) : cluster.Router :=
  let nodeID := getEnv getenv "NODE_ID" "node1" in
  let listenAddr := getEnv getenv "LISTEN_ADDR" ":8081" in
  let vNodes := 100%Z in
  let repFactor := getEnvInt getenv atoi "REPLICATION_FACTOR" 3 in
  let nodes := bootNodes TrimSpace getenv in
  let ring := NewRing nodes vNodes in
  let selfHost := findSelfHost nodes nodeID listenAddr in
  cluster.NewRouter nodeID selfHost ring repFactor.

End main.

(** ** Vocabulary of the properties *)

Module spec.

Import hashring.

(** FNV-1a with 32 bits, as it is published: start from the offset basis;
    for every byte, xor it in, then multiply by the prime modulo 2^32. *)
Definition fnv1a_round (h : Z) (b : Byte.byte) : Z :=
  ((Z.lxor h (Z.of_N (Byte.to_N b)) * 16777619) mod 2 ^ 32)%Z.

Definition FNV1a_32 (data : list Byte.byte) : Z :=
  fold_left fnv1a_round data 2166136261%Z.

(** The decimal numeral of [i]. *)
Definition decimal (i : nat) : string := NilZero.string_of_uint (Nat.to_uint i).

(** The hash of slot [i] of the node with id [n]: [H("n#i")]. *)
Definition slotHash (n : NodeID) (i : nat) : Z :=
  FNV1a_32 (list_byte_of_string (n +:+ "#" +:+ decimal i)).

(** The node a slot hash belongs to, as [r.hashMap[hash]] reads it. *)
Definition owner (r : Ring) (hash : Z) : NodeInfo :=
  default zeroNodeInfo (hashMap r !! hash).

(** The ids of the physical nodes of the ring: the ids that occur among
    the values of [hashMap]. *)
Definition physicalNodes (r : Ring) : gset NodeID :=
  list_to_set (ID <$> (map_to_list (hashMap r)).*2).

(** The ids a walk over the slots can meet. *)
Definition slotIds (r : Ring) : gset NodeID :=
  list_to_set ((fun h => ID (owner r h)) <$> hashes r).

(** The id met at slot [i], and the ids met in the next [k] turns of a walk
    that stands at slot [idx]. *)
Definition slotId (r : Ring) (i : nat) : NodeID :=
  ID (owner r (nth i (hashes r) 0%Z)).

Definition ahead (r : Ring) (idx k : nat) : list NodeID :=
  (fun j => slotId r ((idx + j) mod length (hashes r))) <$> seq 0 k.

(** The slot table and the hash-to-node map speak of the same hashes. *)
Definition consistent (r : Ring) : Prop :=
  dom (hashMap r) = (list_to_set (hashes r) : gset Z).

(** A node that owns a slot of the ring. *)
Definition ownsSlot (r : Ring) (n : NodeInfo) : Prop :=
  exists h, h ∈ hashes r /\ n = owner r h.

(** *** The text of [CLUSTER_NODES] *)

(** The byte [c] occurs in [s]. *)
Fixpoint hasByte (c : ascii) (s : string) : Prop :=
  match s with
  | EmptyString => False
  | String x rest => x = c \/ hasByte c rest
  end.

(** The entries, written one after the other with [sep] between them. *)
Fixpoint joinWith (sep : ascii) (entries : list string) : string :=
  match entries with
  | [] => EmptyString
  | [e] => e
  | e :: rest => e +:+ String sep (joinWith sep rest)
  end.

(** [Parsed trim entries nodes]: [nodes] holds, in the order of the
    entries, one node for each entry that reads [id=host] once it is
    trimmed, [id] being the text before the first [=]; an entry that is
    empty once trimmed, or that has no [=], gives nothing. *)
Inductive Parsed (trim : string -> string) : list string -> list NodeInfo -> Prop :=
| parsed_nil :
    Parsed trim [] []
| parsed_blank e entries nodes :
    trim e = EmptyString ->
    Parsed trim entries nodes ->
    Parsed trim (e :: entries) nodes
| parsed_no_separator e entries nodes :
    ~ hasByte "="%char (trim e) ->
    Parsed trim entries nodes ->
    Parsed trim (e :: entries) nodes
| parsed_entry e entries nodes id host :
    trim e = id +:+ String "="%char host ->
    ~ hasByte "="%char id ->
    Parsed trim entries nodes ->
    Parsed trim (e :: entries) (mkNodeInfo id host :: nodes).

(** *** Reads and writes of the router, in the words of the design *)

Import cluster.

(** What one replica says to a read: the value, a definitive "not
    present", or no definitive answer at all. *)
Inductive Answer : Type :=
| Value (v : string)
| Absent
| Failed.

(** The result of a read by the coordinator. *)
Inductive ReadResult : Type :=
| Found (v : string)
| NotFound.

(** What the coordinator did for one replica of a write. *)
Inductive Attempt : Type :=
| WroteLocal
| RemoteOk (host : string)
| RemoteFailed (host : string).

Definition isFailure (a : Attempt) : bool :=
  match a with
  | RemoteFailed _ => true
  | _ => false
  end.

Section WithEnv.

Context {World : Type} (env : Env World).

(** [RemoteGet(host, key)]: status 404 is the definitive "not present";
    a request that cannot be built or sent, or any other status from
    300 on, is a failure; everything else carries the value. *)
Definition RemoteGet (w : World) (host key : string) : World * Answer :=
  match urlWithKey env ("http://" +:+ host +:+ "/internal/replica/get") key with
  | None => (w, Failed)
  | Some u =>
      match httpGet env w u with
      | (w1, NetErr _) => (w1, Failed)
      | (w1, Resp status body) =>
          if decide (status = 404%Z) then (w1, Absent)
          else if decide (300 <= status)%Z then (w1, Failed)
          else (w1, Value body)
      end
  end.

(** [RemotePut(host, key, value)]: [true] for a response below 300. *)
Definition RemotePut (w : World) (host key value : string) : World * bool :=
  match httpPost env w ("http://" +:+ host +:+ "/internal/replica/put")
          (marshalPut env key value) with
  | (w1, NetErr _) => (w1, false)
  | (w1, Resp status _) => (w1, bool_decide (status < 300)%Z)
  end.

(** [Reads self st key replicas w w' res]: asking the replicas in the
    order of the list, starting in world [w], the first replica that
    holds a value decides the result [res]; a replica that has no value
    or gives no answer passes the question on to the next one; when
    nobody is left the result is [NotFound].  [w'] is the world after
    the last request that was sent. *)
Inductive Reads (self : NodeID) (st : gmap string string) (key : string)
  : list NodeInfo -> World -> World -> ReadResult -> Prop :=
| reads_exhausted w :
    Reads self st key [] w w NotFound
| reads_local_value n rest w v :
    ID n = self -> st !! key = Some v ->
    Reads self st key (n :: rest) w w (Found v)
| reads_local_absent n rest w w' res :
    ID n = self -> st !! key = None ->
    Reads self st key rest w w' res ->
    Reads self st key (n :: rest) w w' res
| reads_remote_value n rest w w1 v :
    ID n <> self -> RemoteGet w (Host n) key = (w1, Value v) ->
    Reads self st key (n :: rest) w w1 (Found v)
| reads_remote_absent n rest w w1 w' res :
    ID n <> self -> RemoteGet w (Host n) key = (w1, Absent) ->
    Reads self st key rest w1 w' res ->
    Reads self st key (n :: rest) w w' res
| reads_remote_failed n rest w w1 w' res :
    ID n <> self -> RemoteGet w (Host n) key = (w1, Failed) ->
    Reads self st key rest w1 w' res ->
    Reads self st key (n :: rest) w w' res.

(** What [Get] returns for a read result. *)
Definition returned (res : ReadResult) : string * bool * error :=
  match res with
  | Found v => (v, true, None)
  | NotFound => ("", false, None)
  end.

(** [Writes self key value replicas st w st' w' attempts]: one attempt
    per replica, in the order of the list, whatever the earlier
    attempts gave: the local store is written for a replica with the
    id [self], a remote put is sent to the host of any other. *)
Inductive Writes (self : NodeID) (key value : string)
  : list NodeInfo -> gmap string string -> World ->
    gmap string string -> World -> list Attempt -> Prop :=
| writes_done st w :
    Writes self key value [] st w st w []
| writes_local n rest st w st' w' attempts :
    ID n = self ->
    Writes self key value rest (<[key := value]> st) w st' w' attempts ->
    Writes self key value (n :: rest) st w st' w' (WroteLocal :: attempts)
| writes_remote_ok n rest st w w1 st' w' attempts :
    ID n <> self -> RemotePut w (Host n) key value = (w1, true) ->
    Writes self key value rest st w1 st' w' attempts ->
    Writes self key value (n :: rest) st w st' w' (RemoteOk (Host n) :: attempts)
| writes_remote_failed n rest st w w1 st' w' attempts :
    ID n <> self -> RemotePut w (Host n) key value = (w1, false) ->
    Writes self key value rest st w1 st' w' attempts ->
    Writes self key value (n :: rest) st w st' w' (RemoteFailed (Host n) :: attempts).

(** Every replica of the list is remote and gives no answer. *)
Inductive OnlyFailures (self : NodeID) (key : string)
  : list NodeInfo -> World -> World -> Prop :=
| only_failures_nil w : OnlyFailures self key [] w w
| only_failures_cons n rest w w1 w' :
    ID n <> self -> RemoteGet w (Host n) key = (w1, Failed) ->
    OnlyFailures self key rest w1 w' ->
    OnlyFailures self key (n :: rest) w w'.

End WithEnv.

(** *** The slots of a node *)

(** The hashes of the [v] slots of node [n]: H("n#0"), ..., H("n#(v-1)"). *)
Definition slotsOf (n : NodeInfo) (v : Z) : list Z :=
  (fun i => hashFn (vKey n i)) <$> seq 0 (Z.to_nat v).

(** [h] is the least slot hash that is at least [x], or, when every slot
    hash is below [x], the least slot hash of all. *)
Definition successor (r : Ring) (x h : Z) : Prop :=
  h ∈ hashes r
  /\ (((x <= h)%Z /\ forall y, y ∈ hashes r -> (x <= y)%Z -> (h <= y)%Z)
      \/ ((forall y, y ∈ hashes r -> (y < x)%Z) /\ forall y, y ∈ hashes r -> (h <= y)%Z)).

(** *** Deletes of the router, and the log of the rebalancer *)

Section Deleting.

Context {World : Type} (env : Env World).



End Deleting.

(** The keys whose move is logged as failed. *)
Definition failedMoves (log : list LogEntry) : list string :=
  omap (fun e => match e with LogFailedMove k _ => Some k | _ => None end) log.

(** The keys of the list that the store holds. *)
Definition present (st : gmap string string) (keys : list string) : list string :=
  filter (fun k => is_Some (st !! k)) keys.

End spec.

(** ** Rings and nodes used in the examples *)

Module examples.

Import hashring.

Definition node1 : NodeInfo := mkNodeInfo "node1" "localhost:8081".
Definition node2 : NodeInfo := mkNodeInfo "node2" "localhost:8082".
Definition node3 : NodeInfo := mkNodeInfo "node3" "localhost:8083".

(** One node with two slots. *)
Definition ringOneNodeTwoSlots : Ring := NewRing [node1] 2.

(** What [main] builds when [CLUSTER_NODES] is not set: one node with the
    100 slots of [vNodes := 100]. *)
Definition ringDefault : Ring := NewRing [node1] 100.

(** Two nodes with 100 slots each. *)
Definition ringTwoNodes : Ring := NewRing [node1; node2] 100.

(** The three nodes of the compose file, 100 slots each. *)
Definition ringThreeNodes : Ring := NewRing [node1; node2; node3] 100.

(** A ring whose only node is [node2], with one slot. *)
Definition ringOneSlot : Ring := NewRing [node2] 1.

(** The default ring after its only node has been removed. *)
Definition ringEmpty : Ring := RemoveNode ringDefault "node1".

Import cluster.

(** Networks for the examples.  The world is the list of the URLs that
    were requested so far. *)
Definition urlKey (baseURL key : string) : option string :=
  Some (baseURL +:+ "?key=" +:+ key).

Definition bodyPut (key value : string) : string := key +:+ "=" +:+ value.

(** No peer can be reached. *)
Definition envDown : Env (list string) :=
  mkEnv (list string)
    (fun w url _ => (w ++ [url], NetErr "connection refused"))
    (fun w url => (w ++ [url], NetErr "connection refused"))
    urlKey bodyPut (fun key => key).

(** Every peer answers 200; reads answer with the body [bar]. *)
Definition envUp : Env (list string) :=
  mkEnv (list string)
    (fun w url _ => (w ++ [url], Resp 200 "OK"))
    (fun w url => (w ++ [url], Resp 200 "bar"))
    urlKey bodyPut (fun key => key).

(** [node1] does not have the key (404), [node2] cannot be reached,
    [node3] answers. *)
Definition envMixed : Env (list string) :=
  mkEnv (list string)
    (fun w url _ =>
       (w ++ [url],
        if String.prefix "http://localhost:8082/" url
        then NetErr "connection refused" else Resp 200 "OK"))
    (fun w url =>
       (w ++ [url],
        if String.prefix "http://localhost:8082/" url then NetErr "connection refused"
        else if String.prefix "http://localhost:8081/" url then Resp 404 "not found"
        else Resp 200 "bar"))
    urlKey bodyPut (fun key => key).

(** A context that is never cancelled. *)
Definition ctxBackground : Context (list string) :=
  mkContext (list string) (fun _ => false) (fun _ => "context canceled").

Definition storeA : gmap string string := kv.Put kv.NewStore "a" "1".

(** A network between the three nodes of the compose file that takes
    every request to the endpoint it names.  A put is written [key=value],
    a delete is the key. *)
Definition jsonPut (body : string) : option (string * string) :=
  strings.cutAt "="%char body.

Definition jsonDelete (body : string) : option string := Some body.

Definition hostsUp : list string := [Host node1; Host node2; Host node3].

Definition routed (url suffix : string) : option string :=
  List.find (fun h => String.eqb url ("http://" +:+ h +:+ suffix)) hostsUp.

Definition routedGet (url : string) : option (string * string) :=
  match List.find (fun h => String.prefix ("http://" +:+ h +:+ "/internal/replica/get?key=") url)
          hostsUp with
  | Some h =>
      Some (h, strings.TrimPrefix url ("http://" +:+ h +:+ "/internal/replica/get?key="))
  | None => None
  end.

Definition envCluster : Env server.Cluster :=
  mkEnv server.Cluster
    (fun G url body =>
       match routed url "/internal/replica/put" with
       | Some h => server.postPut jsonPut G h body
       | None =>
           match routed url "/internal/replica/delete" with
           | Some h => server.postDelete jsonDelete G h body
           | None => (G, NetErr "no route to host")
           end
       end)
    (fun G url =>
       match routedGet url with
       | Some (h, key) => server.getGet G h key
       | None => (G, NetErr "no route to host")
       end)
    urlKey bodyPut (fun key => key).

(** The three nodes up, with nothing stored. *)
Definition clusterEmpty : server.Cluster :=
  <[Host node3 := kv.NewStore]> (<[Host node2 := kv.NewStore]> (<[Host node1 := kv.NewStore]> ∅)).

End examples.

Import hashring.

(** * Properties *)

(** ** The hash *)

Lemma wrap32_mod (x : Z) : fnv.wrap32 x = (x mod 2 ^ 32)%Z.
Proof.
  unfold fnv.wrap32.
  change 4294967295%Z with (Z.ones 32).
  apply Z.land_ones. lia.
Qed.

Lemma Write_fold (data : list Byte.byte) (h : Z) :
  fnv.Write h data = fold_left spec.fnv1a_round data h.
Proof.
  revert h. induction data as [|c rest IH]; intros h; simpl.
  - reflexivity.
  - rewrite IH. unfold spec.fnv1a_round at 2, fnv.prime32.
    now rewrite wrap32_mod.
Qed.

Lemma fold_round_range (data : list Byte.byte) (h : Z) :
  (0 <= h < 2 ^ 32)%Z -> (0 <= fold_left spec.fnv1a_round data h < 2 ^ 32)%Z.
Proof.
  revert h. induction data as [|c rest IH]; intros h Hh; simpl.
  - exact Hh.
  - apply IH. unfold spec.fnv1a_round. apply Z.mod_pos_bound. lia.
Qed.

Lemma hashFn_spec (key : string) :
  hashFn key = spec.FNV1a_32 (list_byte_of_string key).
Proof. unfold hashFn, fnv.Sum32, fnv.New32a, fnv.offset32. apply Write_fold. Qed.

Lemma hashFn_range (key : string) : (0 <= hashFn key < 2 ^ 32)%Z.
Proof.
  rewrite hashFn_spec. unfold spec.FNV1a_32. apply fold_round_range. lia.
Qed.

(** The slots [addNodeNoLock] appends, whatever the ring held before. *)
Lemma addSlots_hashes (n : NodeInfo) (ixs : list nat) (r : Ring) :
  hashes (fold_left (addSlot n) ixs r)
  = hashes r ++ ((fun i => hashFn (vKey n i)) <$> ixs).
Proof.
  revert r. induction ixs as [|i ixs IH]; intros r; simpl.
  - now rewrite app_nil_r.
  - rewrite IH. simpl. now rewrite <- app_assoc.
Qed.

Lemma addSlots_vNodes (n : NodeInfo) (ixs : list nat) (r : Ring) :
  vNodes (fold_left (addSlot n) ixs r) = vNodes r.
Proof.
  revert r. induction ixs as [|i ixs IH]; intros r; simpl; [reflexivity|].
  now rewrite IH.
Qed.

Lemma addSlots_owner (n : NodeInfo) (ixs : list nat) (r : Ring) (h : Z) :
  hashMap (fold_left (addSlot n) ixs r) !! h
  = if decide (h ∈ (fun i => hashFn (vKey n i)) <$> ixs) then Some n
    else hashMap r !! h.
Proof.
  revert r. induction ixs as [|i ixs IH]; intros r.
  - reflexivity.
  - cbn [fold_left]. rewrite IH. cbn [hashMap addSlot].
    rewrite lookup_insert, fmap_cons.
    destruct (decide (hashFn (vKey n i) = h)) as [<-|Hne].
    + rewrite (decide_True (P := _ ∈ _ :: _)) by apply list_elem_of_here.
      destruct (decide _); reflexivity.
    + destruct (decide (h ∈ _ <$> ixs)) as [Hin|Hnin].
      * rewrite decide_True by (now apply list_elem_of_further). reflexivity.
      * rewrite decide_False; [reflexivity|].
        intros [?|?]%elem_of_cons; congruence.
Qed.

(** C8. The hash of [hashFn] is the 32-bit FNV-1a of the bytes of the
    string, a value below 2^32; [addNodeNoLock] appends for a node with id
    [n] the hashes H("n#0"), ..., H("n#(V-1)"), with the separator [#], and
    makes the node the owner of each of them; the key of a lookup is placed
    with the same hash; and H("foo") is 0xA9F37ED7. *)
Theorem hashFn_is_FNV1a_32 :
  (forall key : string,
      hashFn key = spec.FNV1a_32 (list_byte_of_string key)
      /\ (0 <= hashFn key < 2 ^ 32)%Z)
  /\ (forall (r : Ring) (n : NodeInfo),
        hashes (addNodeNoLock r n)
        = hashes r ++ (spec.slotHash (ID n) <$> seq 0 (Z.to_nat (vNodes r)))
        /\ Forall (fun i => hashMap (addNodeNoLock r n) !! spec.slotHash (ID n) i = Some n)
             (seq 0 (Z.to_nat (vNodes r))))
  /\ (forall (r : Ring) (key : string),
        GetNodeForKey r key = getNode r (spec.FNV1a_32 (list_byte_of_string key)))
  /\ (forall (fuel : nat) (r : Ring) (key : string) (rFactor : Z),
        GetReplicasForKey fuel r key rFactor
        = if (length (hashes r) =? 0)%nat || (rFactor <=? 0)%Z then Done []
          else walk fuel r (Z.min rFactor (Z.of_nat (length (hashes r))))
                 (startIndex r (spec.FNV1a_32 (list_byte_of_string key))) [] ∅)
  /\ hashFn "foo" = 0xA9F37ED7%Z.
Proof.
  split; [|split; [|split; [|split]]].
  - intros key. split; [apply hashFn_spec | apply hashFn_range].
  - intros r n. unfold addNodeNoLock. split.
    + rewrite addSlots_hashes. f_equal.
      apply list_fmap_ext. intros _ i _.
      unfold spec.slotHash, spec.decimal. now rewrite <- hashFn_spec.
    + apply Forall_forall. intros i Hi.
      rewrite addSlots_owner.
      case_decide as Hin; [reflexivity|].
      exfalso. apply Hin. apply list_elem_of_fmap.
      exists i. split; [|exact Hi].
      unfold spec.slotHash, spec.decimal. now rewrite <- hashFn_spec.
  - intros r key. unfold GetNodeForKey. now rewrite hashFn_spec.
  - intros fuel r key rFactor. unfold GetReplicasForKey.
    rewrite hashFn_spec.
    destruct ((length (hashes r) =? 0)%nat || (rFactor <=? 0)%Z); [reflexivity|].
    f_equal.
    destruct (Z.gtb_spec rFactor (Z.of_nat (length (hashes r)))); lia.
  - vm_compute. reflexivity.
Qed.

(** The slot key is the id, the separator and the decimal index. *)
Example vKey_example : vKey (mkNodeInfo "node1" "localhost:8081") 42 = "node1#42".
Proof. reflexivity. Qed.

(** ** The local store *)

(** C9. [Put] and [Delete] touch the key they are given and no other:
    after [Put k v], [Get k] answers [(v, true)]; after [Delete k], [Get k]
    answers not present; in both cases [Get k'] answers as before for every
    other key [k']. *)
Theorem Store_frame (s : gmap string string) (k k' v : string) :
  k' <> k ->
  kv.Get (kv.Put s k v) k' = kv.Get s k'
  /\ kv.Get (kv.Put s k v) k = (v, true)
  /\ kv.Get (kv.Delete s k) k' = kv.Get s k'
  /\ kv.Get (kv.Delete s k) k = ("", false).
Proof.
  intros Hne. unfold kv.Get, kv.Put, kv.Delete.
  rewrite lookup_insert_eq, lookup_delete_eq.
  rewrite lookup_insert_ne by congruence.
  rewrite lookup_delete_ne by congruence.
  auto.
Qed.

Lemma Store_frame_witness :
  let s := kv.Put (kv.Put kv.NewStore "a" "1") "b" "2" in
  "b" <> "a"
  /\ kv.Get (kv.Put s "a" "9") "b" = kv.Get s "b"
  /\ kv.Get (kv.Put s "a" "9") "a" = ("9", true)
  /\ kv.Get (kv.Delete s "a") "b" = kv.Get s "b"
  /\ kv.Get (kv.Delete s "a") "a" = ("", false).
Proof.
  intros s.
  assert (Hne : "b" <> "a") by discriminate.
  split; [exact Hne|].
  exact (Store_frame s "a" "b" "9" Hne).
Defined.

(** ** The ring walk *)

Lemma Search_loop_bounds (turns : nat) (f : nat -> bool) (i j : nat) :
  i <= j -> i <= sort.Search_loop turns f i j <= j.
Proof.
  revert i j. induction turns as [|turns IH]; intros i j Hij;
    cbn [sort.Search_loop].
  - lia.
  - destruct (Nat.ltb_spec i j) as [Hlt|Hge]; [|lia].
    assert (Hh : i <= (i + j) / 2 < j).
    { split.
      - apply Nat.div_le_lower_bound; lia.
      - apply Nat.Div0.div_lt_upper_bound; lia. }
    set (h := (i + j) / 2) in *.
    destruct (f h); cbn [negb].
    + pose proof (IH i h ltac:(lia)). lia.
    + pose proof (IH (h + 1) j ltac:(lia)). lia.
Qed.

Lemma startIndex_lt (r : Ring) (h : Z) :
  hashes r <> [] -> startIndex r h < length (hashes r).
Proof.
  intros Hne. unfold startIndex, sort.Search.
  pose proof (Search_loop_bounds (length (hashes r))
                (fun i => (h <=? nth i (hashes r) 0)%Z) 0 (length (hashes r))) as Hb.
  destruct (hashes r) as [|x l] eqn:E; [congruence|].
  cbn [length] in *.
  destruct (Nat.eqb_spec
              (sort.Search_loop (S (length l)) (fun i => (h <=? nth i (x :: l) 0)%Z) 0 (S (length l)))
              (S (length l))); lia.
Qed.

(** A walk that can only meet the ids of [ids] never leaves the loop when
    [ids] is smaller than the clamped factor and smaller than the number of
    slot hashes in [hashMap]: neither exit test can succeed. *)
Lemma walk_stuck (r : Ring) (rFactor : Z) (ids : gset NodeID) :
  Forall (fun h => ID (spec.owner r h) ∈ ids) (hashes r) ->
  (Z.of_nat (size ids) < rFactor)%Z ->
  size ids < size (hashMap r) ->
  forall (fuel idx : nat) (replicas : list NodeInfo) (seen : gset NodeID),
    idx < length (hashes r) ->
    seen ⊆ ids ->
    length replicas <= size seen ->
    walk fuel r rFactor idx replicas seen = OutOfFuel.
Proof.
  intros Hids Hfactor Hmap.
  induction fuel as [|fuel IH]; intros idx replicas seen Hidx Hseen Hlen;
    pose proof (subseteq_size _ _ Hseen) as Hsz; simpl.
  - destruct (Z.ltb_spec (Z.of_nat (length replicas)) rFactor); [reflexivity|lia].
  - destruct (Z.ltb_spec (Z.of_nat (length replicas)) rFactor); [|lia].
    destruct (lookup_lt_is_Some_2 (hashes r) idx Hidx) as [hash Hhash].
    rewrite Hhash.
    assert (Hown : ID (spec.owner r hash) ∈ ids).
    { rewrite Forall_forall in Hids. apply Hids.
      apply list_elem_of_lookup. eauto. }
    fold (spec.owner r hash).
    assert (Hidx1 : (idx + 1) mod length (hashes r) < length (hashes r)).
    { apply Nat.mod_upper_bound. lia. }
    destruct (decide (ID (spec.owner r hash) ∈ seen)) as [Hin|Hnin].
    + destruct (Nat.eqb_spec (size seen) (size (hashMap r))); [lia|].
      apply IH; assumption.
    + assert (Hseen1 : {[ID (spec.owner r hash)]} ∪ seen ⊆ ids).
      { apply union_least; [now apply singleton_subseteq_l | assumption]. }
      pose proof (subseteq_size _ _ Hseen1) as Hsz1.
      destruct (Nat.eqb_spec (size ({[ID (spec.owner r hash)]} ∪ seen))
                  (size (hashMap r))); [lia|].
      apply IH; [assumption|assumption|].
      rewrite length_app. simpl.
      rewrite size_union by (now apply disjoint_singleton_l).
      rewrite size_singleton. lia.
Qed.

Lemma GetReplicasForKey_stuck (r : Ring) (rFactor : Z) (ids : gset NodeID) :
  Forall (fun h => ID (spec.owner r h) ∈ ids) (hashes r) ->
  (Z.of_nat (size ids) < rFactor)%Z ->
  size ids < length (hashes r) ->
  size ids < size (hashMap r) ->
  forall (fuel : nat) (key : string),
    GetReplicasForKey fuel r key rFactor = OutOfFuel.
Proof.
  intros Hids Hfactor Hslots Hmap fuel key.
  unfold GetReplicasForKey.
  destruct (Nat.eqb_spec (length (hashes r)) 0) as [E|Hne]; [lia|].
  destruct (Z.leb_spec rFactor 0); [lia|]. simpl.
  apply walk_stuck with (ids := ids).
  - exact Hids.
  - destruct (Z.gtb_spec rFactor (Z.of_nat (length (hashes r)))); lia.
  - exact Hmap.
  - apply startIndex_lt. intros E. rewrite E in Hne. simpl in Hne. lia.
  - set_solver.
  - simpl. lia.
Qed.

(** The premise on the owners of the slots can be checked by evaluation. *)
Lemma owners_checked (r : Ring) (ids : gset NodeID) :
  bool_decide (Forall (fun h => ID (spec.owner r h) ∈ ids) (hashes r)) = true ->
  Forall (fun h => ID (spec.owner r h) ∈ ids) (hashes r).
Proof. apply bool_decide_eq_true_1. Qed.

(** C1. The walk does not stop when every physical node has been visited:
    the exit test compares the visited ids with the number of slot hashes.
    On the ring of one node with two slots, with [rFactor = 2], the one
    physical node is visited in the first turn and the loop goes on for
    ever. *)
Theorem GetReplicasForKey_one_node_two_slots :
  size (spec.physicalNodes examples.ringOneNodeTwoSlots) = 1
  /\ size (hashMap examples.ringOneNodeTwoSlots) = 2
  /\ walk 1 examples.ringOneNodeTwoSlots 2
       (startIndex examples.ringOneNodeTwoSlots (hashFn "foo")) [] ∅ = OutOfFuel
  /\ forall fuel : nat,
       GetReplicasForKey fuel examples.ringOneNodeTwoSlots "foo" 2 = OutOfFuel.
Proof.
  split; [vm_compute; reflexivity|].
  split; [vm_compute; reflexivity|].
  split; [vm_compute; reflexivity|].
  intros fuel.
  apply GetReplicasForKey_stuck with (ids := {["node1"]}).
  - apply owners_checked. vm_compute. reflexivity.
  - apply Z.ltb_lt. vm_compute. reflexivity.
  - apply Nat.ltb_lt. vm_compute. reflexivity.
  - apply Nat.ltb_lt. vm_compute. reflexivity.
Qed.

(** C2. On the ring of a single node that [main] builds by default (100
    slots) the lookup with the default replication factor 3 returns nothing
    at all, for any key: the loop never ends.  With [r = 1] the answer is
    the one node. *)
Theorem GetReplicasForKey_single_node_default :
  spec.physicalNodes examples.ringDefault = {["node1"]}
  /\ (forall (fuel : nat) (key : string),
        GetReplicasForKey fuel examples.ringDefault key 3 = OutOfFuel)
  /\ GetReplicasForKey 1 examples.ringDefault "foo" 1 = Done [examples.node1].
Proof.
  split; [vm_compute; reflexivity|].
  split; [|vm_compute; reflexivity].
  apply GetReplicasForKey_stuck with (ids := {["node1"]}).
  - apply owners_checked. vm_compute. reflexivity.
  - apply Z.ltb_lt. vm_compute. reflexivity.
  - apply Nat.ltb_lt. vm_compute. reflexivity.
  - apply Nat.ltb_lt. vm_compute. reflexivity.
Qed.

(** C3. On a ring of two nodes (100 slots each) the lookup with
    [rFactor = 3] should return min(3, 2) = 2 nodes; it returns nothing, for
    any key: after both nodes are in the list the loop goes on. *)
Theorem GetReplicasForKey_two_nodes_factor_3 :
  Z.min 3 (Z.of_nat (size (spec.physicalNodes examples.ringTwoNodes))) = 2%Z
  /\ forall (fuel : nat) (key : string),
       GetReplicasForKey fuel examples.ringTwoNodes key 3 = OutOfFuel.
Proof.
  split; [vm_compute; reflexivity|].
  apply GetReplicasForKey_stuck with (ids := {["node1"; "node2"]}).
  - apply owners_checked. vm_compute. reflexivity.
  - apply Z.ltb_lt. vm_compute. reflexivity.
  - apply Nat.ltb_lt. vm_compute. reflexivity.
  - apply Nat.ltb_lt. vm_compute. reflexivity.
Qed.

(** *** Where the walk starts *)

(** On a predicate that, below [n], stays true once it is true,
    [sort.Search] finds the first index where it holds, or [n]. *)
Lemma Search_loop_least (n : nat) (f : nat -> bool) :
  (forall a b, a <= b -> b < n -> f a = true -> f b = true) ->
  forall turns i j,
    i <= j -> j <= n -> j - i <= turns ->
    (forall a, a < i -> f a = false) ->
    (forall a, j <= a -> a < n -> f a = true) ->
    (forall a, a < sort.Search_loop turns f i j -> f a = false)
    /\ (forall a, sort.Search_loop turns f i j <= a -> a < n -> f a = true).
Proof.
  intros Hmono.
  induction turns as [|turns IH]; intros i j Hij Hjn Hturns Hlow Hhigh;
    cbn [sort.Search_loop].
  - assert (i = j) by lia. subst. auto.
  - destruct (Nat.ltb_spec i j) as [Hlt|Hge].
    2:{ assert (i = j) by lia. subst. auto. }
    assert (Hh : i <= (i + j) / 2 < j).
    { split.
      - apply Nat.div_le_lower_bound; lia.
      - apply Nat.Div0.div_lt_upper_bound; lia. }
    set (h := (i + j) / 2) in *.
    destruct (f h) eqn:Hfh; cbn [negb].
    + apply IH; try lia; auto.
      intros a Ha Han. apply (Hmono h a); auto.
    + apply IH; try lia; auto.
      intros a Ha. destruct (f a) eqn:Hfa; [|reflexivity].
      rewrite (Hmono a h) in Hfh; [discriminate | lia | lia | exact Hfa].
Qed.

Lemma sorted_lookup_le (l : list Z) :
  StronglySorted Z.le l ->
  forall i j x y, i <= j -> l !! i = Some x -> l !! j = Some y -> (x <= y)%Z.
Proof.
  induction 1 as [|a l Hs IH Hall]; intros i j x y Hij Hi Hj.
  - rewrite lookup_nil in Hi. discriminate.
  - destruct i as [|i], j as [|j]; cbn in Hi, Hj; try lia.
    + inversion Hi; inversion Hj; subst. lia.
    + inversion Hi; subst. rewrite Forall_forall in Hall.
      apply Hall. apply list_elem_of_lookup. eauto.
    + apply (IH i j); [lia | assumption | assumption].
Qed.

(** Every ring that [NewRing], [AddNode] or [RemoveNode] hands out has its
    slots in ascending order. *)
Lemma sortHashes_sorted (r : Ring) : StronglySorted Z.le (hashes (sortHashes r)).
Proof.
  unfold sortHashes. cbn [hashes].
  apply Sorted_StronglySorted; [intros x y z; apply Z.le_trans|].
  apply Sorted_merge_sort. intros x y. apply Z.le_ge_cases.
Qed.

Lemma NewRing_sorted (nodes : list NodeInfo) (v : Z) :
  StronglySorted Z.le (hashes (NewRing nodes v)).
Proof. apply sortHashes_sorted. Qed.

Lemma AddNode_sorted (r : Ring) (n : NodeInfo) :
  StronglySorted Z.le (hashes (AddNode r n)).
Proof. apply sortHashes_sorted. Qed.

Lemma RemoveNode_sorted (r : Ring) (id : NodeID) :
  StronglySorted Z.le (hashes (RemoveNode r id)).
Proof.
  unfold RemoveNode.
  destruct (fold_left (removeSlot id) (hashes r) ([], hashMap r)) as [newHashes hm].
  apply sortHashes_sorted.
Qed.

(** On sorted slots the walk starts at the first slot whose hash is at
    least the hash of the key, and at slot 0 when there is none. *)
Theorem startIndex_first_slot (r : Ring) (h : Z) :
  StronglySorted Z.le (hashes r) ->
  hashes r <> [] ->
  startIndex r h < length (hashes r)
  /\ ((forall i x, hashes r !! i = Some x -> (x < h)%Z) /\ startIndex r h = 0
      \/ (exists x, hashes r !! startIndex r h = Some x /\ (h <= x)%Z)
         /\ (forall i x, i < startIndex r h -> hashes r !! i = Some x -> (x < h)%Z)).
Proof.
  intros Hsorted Hne. split; [now apply startIndex_lt|].
  unfold startIndex, sort.Search.
  set (n := length (hashes r)).
  set (f := fun i => (h <=? nth i (hashes r) 0)%Z).
  assert (Hmono : forall a b, a <= b -> b < n -> f a = true -> f b = true).
  { intros a b Hab Hb Hfa. unfold f in *.
    destruct (lookup_lt_is_Some_2 (hashes r) a ltac:(unfold n in *; lia)) as [x Hx].
    destruct (lookup_lt_is_Some_2 (hashes r) b Hb) as [y Hy].
    rewrite (nth_lookup_Some _ _ _ _ Hx) in Hfa.
    rewrite (nth_lookup_Some _ _ _ _ Hy).
    pose proof (sorted_lookup_le _ Hsorted a b x y Hab Hx Hy).
    apply Z.leb_le. apply Z.leb_le in Hfa. lia. }
  destruct (Search_loop_least n f Hmono n 0 n) as [Hlow Hhigh]; try lia.
  pose proof (Search_loop_bounds n f 0 n ltac:(lia)) as Hb.
  set (s := sort.Search_loop n f 0 n) in *.
  assert (Hbelow : forall i x, i < s -> hashes r !! i = Some x -> (x < h)%Z).
  { intros i x Hi Hx. specialize (Hlow i Hi). unfold f in Hlow.
    rewrite (nth_lookup_Some _ _ _ _ Hx) in Hlow. apply Z.leb_gt in Hlow. exact Hlow. }
  destruct (Nat.eqb_spec s n) as [Heq|Hneq].
  - left. split; [|reflexivity]. intros i x Hx. apply (Hbelow i x); [|exact Hx].
    rewrite Heq. apply (lookup_lt_Some _ _ _ Hx).
  - right. split; [|exact Hbelow].
    destruct (lookup_lt_is_Some_2 (hashes r) s ltac:(unfold n in *; lia)) as [x Hx].
    exists x. split; [exact Hx|].
    specialize (Hhigh s ltac:(lia) ltac:(lia)). unfold f in Hhigh.
    rewrite (nth_lookup_Some _ _ _ _ Hx) in Hhigh. now apply Z.leb_le.
Qed.

(** With fewer distinct ids on the slots than the lookup waits for, the
    lookup never returns. *)
Theorem GetReplicasForKey_spins (r : Ring) (key : string) (rFactor : Z) (fuel : nat) :
  (Z.of_nat (size (spec.slotIds r))
   < Z.min rFactor (Z.min (Z.of_nat (length (hashes r))) (Z.of_nat (size (hashMap r)))))%Z ->
  GetReplicasForKey fuel r key rFactor = OutOfFuel.
Proof.
  intros Hfew.
  apply GetReplicasForKey_stuck with (ids := spec.slotIds r); try lia.
  apply Forall_forall. intros h Hh. unfold spec.slotIds.
  apply elem_of_list_to_set, list_elem_of_fmap. eauto.
Qed.

(** *** When the walk returns *)

Lemma ahead_S (r : Ring) (idx k : nat) :
  idx < length (hashes r) ->
  spec.ahead r idx (S k)
  = spec.slotId r idx :: spec.ahead r ((idx + 1) mod length (hashes r)) k.
Proof.
  intros Hidx. unfold spec.ahead. cbn [seq]. rewrite fmap_cons.
  rewrite Nat.add_0_r, Nat.mod_small by lia. f_equal.
  rewrite <- fmap_S_seq, <- list_fmap_compose.
  apply list_fmap_ext. intros _ j _. cbn.
  rewrite Nat.Div0.add_mod_idemp_l. do 2 f_equal. lia.
Qed.

(** A full turn of the ring meets every slot. *)
Lemma slotIds_ahead (r : Ring) (idx : nat) :
  idx < length (hashes r) ->
  spec.slotIds r ⊆ list_to_set (spec.ahead r idx (length (hashes r))).
Proof.
  intros Hidx x Hx. unfold spec.slotIds in Hx.
  apply elem_of_list_to_set, list_elem_of_fmap in Hx as (h & -> & Hh).
  apply list_elem_of_lookup in Hh as [p Hp].
  pose proof (lookup_lt_Some _ _ _ Hp) as Hlt.
  apply elem_of_list_to_set. unfold spec.ahead. apply list_elem_of_fmap.
  set (n := length (hashes r)) in *.
  exists ((p + n - idx) mod n). split.
  - unfold spec.slotId. fold n.
    rewrite Nat.Div0.add_mod_idemp_r.
    replace (idx + (p + n - idx)) with (p + 1 * n) by lia.
    rewrite Nat.Div0.mod_add, Nat.mod_small by lia.
    now rewrite (nth_lookup_Some _ _ _ _ Hp).
  - apply elem_of_seq. split; [lia|]. cbn. apply Nat.mod_upper_bound. lia.
Qed.

Lemma walk_fuel_mono (r : Ring) (rFactor : Z) (fuel : nat) :
  forall idx replicas seen l fuel',
    walk fuel r rFactor idx replicas seen = Done l ->
    fuel <= fuel' ->
    walk fuel' r rFactor idx replicas seen = Done l.
Proof.
  induction fuel as [|fuel IH]; intros idx replicas seen l fuel' Hrun Hle.
  - destruct fuel'; cbn [walk] in *; [exact Hrun|].
    destruct (Z.of_nat (length replicas) <? rFactor)%Z; [discriminate | exact Hrun].
  - destruct fuel' as [|fuel']; [lia|]. cbn [walk] in *.
    destruct (Z.of_nat (length replicas) <? rFactor)%Z; [|exact Hrun].
    destruct (hashes r !! idx) as [hash|]; [|discriminate].
    destruct (decide (ID (default zeroNodeInfo (hashMap r !! hash)) ∈ seen));
      (destruct (_ =? _)%nat; [exact Hrun | apply IH; [exact Hrun | lia]]).
Qed.

(** The walk returns once the ids it has collected reach the clamped
    factor or the number of slot hashes, whichever is smaller; [k] turns
    are enough when every id of the ring is collected or [k] turns ahead. *)
Lemma walk_returns (r : Ring) (rFactor : Z) :
  (Z.min rFactor (Z.of_nat (size (hashMap r))) <= Z.of_nat (size (spec.slotIds r)))%Z ->
  forall (k idx : nat) (replicas : list NodeInfo),
    idx < length (hashes r) ->
    NoDup (ID <$> replicas) ->
    (Z.of_nat (length replicas) <= rFactor)%Z ->
    length replicas < size (hashMap r) ->
    spec.slotIds r ⊆ list_to_set (ID <$> replicas) ∪ list_to_set (spec.ahead r idx k) ->
    Forall (spec.ownsSlot r) replicas ->
    exists l,
      walk k r rFactor idx replicas (list_to_set (ID <$> replicas)) = Done l
      /\ NoDup (ID <$> l)
      /\ Z.of_nat (length l) = Z.min rFactor (Z.of_nat (size (hashMap r)))
      /\ Forall (spec.ownsSlot r) l.
Proof.
  intros Htarget.
  induction k as [|k IH]; intros idx replicas Hidx Hnd Hfac Hmap Hahead Hown;
    assert (Hsize : size (list_to_set (ID <$> replicas) : gset NodeID) = length replicas)
      by (rewrite size_list_to_set by assumption; apply length_fmap);
    cbn [walk].
  - (* every id of the ring has been collected *)
    assert (Hall : size (spec.slotIds r) <= length replicas).
    { rewrite <- Hsize. apply subseteq_size.
      unfold spec.ahead in Hahead. cbn in Hahead.
      intros x Hx. apply Hahead in Hx. apply elem_of_union in Hx as [Hx|Hx]; [exact Hx|].
      now apply elem_of_empty in Hx. }
    destruct (Z.ltb_spec (Z.of_nat (length replicas)) rFactor); [lia|].
    exists replicas. repeat split; auto. lia.
  - destruct (Z.ltb_spec (Z.of_nat (length replicas)) rFactor) as [Hlt|Hge].
    2:{ exists replicas. repeat split; auto. lia. }
    destruct (lookup_lt_is_Some_2 (hashes r) idx Hidx) as [hash Hhash].
    rewrite Hhash. fold (spec.owner r hash).
    assert (Hslot : spec.slotId r idx = ID (spec.owner r hash)).
    { unfold spec.slotId. now rewrite (nth_lookup_Some _ _ _ _ Hhash). }
    assert (Hidx1 : (idx + 1) mod length (hashes r) < length (hashes r)).
    { apply Nat.mod_upper_bound. lia. }
    rewrite ahead_S, Hslot, list_to_set_cons in Hahead by assumption.
    destruct (decide (ID (spec.owner r hash) ∈ list_to_set (ID <$> replicas)))
      as [Hin|Hnin].
    + rewrite Hsize.
      destruct (Nat.eqb_spec (length replicas) (size (hashMap r))); [lia|].
      apply IH; auto.
      intros x Hx. apply Hahead in Hx.
      apply elem_of_union in Hx as [Hx|Hx]; [now apply elem_of_union_l|].
      apply elem_of_union in Hx as [Hx|Hx]; [|now apply elem_of_union_r].
      apply elem_of_singleton in Hx as ->. now apply elem_of_union_l.
    + assert (Hnd1 : NoDup (ID <$> replicas ++ [spec.owner r hash])).
      { rewrite fmap_app. apply NoDup_app. split; [exact Hnd|]. split.
        - intros x Hx [->|Hnil]%elem_of_cons.
          + apply Hnin. now apply elem_of_list_to_set.
          + now apply elem_of_nil in Hnil.
        - apply NoDup_singleton. }
      assert (Hown1 : Forall (spec.ownsSlot r) (replicas ++ [spec.owner r hash])).
      { apply Forall_app. split; [exact Hown|]. constructor; [|constructor].
        exists hash. split; [|reflexivity]. apply list_elem_of_lookup. eauto. }
      assert (Hset : ({[ID (spec.owner r hash)]} ∪ list_to_set (ID <$> replicas) : gset NodeID)
                     = list_to_set (ID <$> replicas ++ [spec.owner r hash])).
      { rewrite fmap_app.
        change (ID <$> [spec.owner r hash]) with [ID (spec.owner r hash)].
        rewrite list_to_set_snoc_L. apply union_comm_L. }
      rewrite Hset.
      assert (Hsize1 : size (list_to_set (ID <$> replicas ++ [spec.owner r hash]) : gset NodeID)
                       = S (length replicas)).
      { rewrite size_list_to_set by assumption.
        rewrite length_fmap, length_app. cbn. lia. }
      rewrite Hsize1.
      destruct (Nat.eqb_spec (S (length replicas)) (size (hashMap r))) as [Heq|Hne].
      * exists (replicas ++ [spec.owner r hash]).
        split; [reflexivity|]. split; [exact Hnd1|]. split; [|exact Hown1].
        rewrite length_app. cbn. lia.
      * apply IH; auto.
        -- rewrite length_app. cbn. lia.
        -- rewrite length_app. cbn. lia.
        -- rewrite <- Hset. intros x Hx. apply Hahead in Hx.
           apply elem_of_union in Hx as [Hx|Hx].
           ++ apply elem_of_union_l. now apply elem_of_union_r.
           ++ apply elem_of_union in Hx as [Hx|Hx].
              ** apply elem_of_union_l. now apply elem_of_union_l.
              ** now apply elem_of_union_r.
Qed.

(** Where the lookup does return.  With [n] slots, [m] slot hashes in
    [hashMap] and [d] distinct ids on the slots, a lookup with
    [rFactor >= 1] returns as soon as [min rFactor (min n m) <= d]: the list
    then has exactly that many nodes, all owners of slots, with no id twice.
    [n] turns are enough. *)
Theorem GetReplicasForKey_returns (r : Ring) (key : string) (rFactor : Z) :
  hashes r <> [] ->
  (1 <= rFactor)%Z ->
  0 < size (hashMap r) ->
  (Z.min rFactor (Z.min (Z.of_nat (length (hashes r))) (Z.of_nat (size (hashMap r))))
   <= Z.of_nat (size (spec.slotIds r)))%Z ->
  exists l,
    (forall fuel, length (hashes r) <= fuel ->
       GetReplicasForKey fuel r key rFactor = Done l)
    /\ Z.of_nat (length l)
       = Z.min rFactor (Z.min (Z.of_nat (length (hashes r))) (Z.of_nat (size (hashMap r))))
    /\ NoDup (ID <$> l)
    /\ Forall (spec.ownsSlot r) l.
Proof.
  intros Hne Hfac Hmap Htarget.
  assert (Hlen : 0 < length (hashes r)) by (destruct (hashes r); [congruence | cbn; lia]).
  pose proof (startIndex_lt r (hashFn key) Hne) as Hidx.
  set (rFactor1 := if (rFactor >? Z.of_nat (length (hashes r)))%Z
                   then Z.of_nat (length (hashes r)) else rFactor).
  assert (Hr1 : rFactor1 = Z.min rFactor (Z.of_nat (length (hashes r)))).
  { unfold rFactor1. destruct (Z.gtb_spec rFactor (Z.of_nat (length (hashes r)))); lia. }
  destruct (walk_returns r rFactor1 ltac:(lia) (length (hashes r))
              (startIndex r (hashFn key)) [] Hidx) as (l & Hrun & Hnd & Hl & Hown).
  - constructor.
  - cbn. lia.
  - cbn. lia.
  - cbn [fmap list_fmap]. intros x Hx. apply elem_of_union_r.
    now apply slotIds_ahead.
  - constructor.
  - exists l. split; [|split; [lia|split; assumption]].
    intros fuel Hfuel. unfold GetReplicasForKey.
    destruct (Nat.eqb_spec (length (hashes r)) 0); [lia|].
    destruct (Z.leb_spec rFactor 0); [lia|]. cbn [orb].
    fold rFactor1.
    eapply walk_fuel_mono; [exact Hrun | exact Hfuel].
Qed.

(** On the three-node ring of the compose file the lookup with the default
    factor returns three distinct nodes, for every key. *)
Example GetReplicasForKey_three_nodes (key : string) :
  exists l,
    GetReplicasForKey 300 examples.ringThreeNodes key 3 = Done l
    /\ length l = 3 /\ NoDup (ID <$> l).
Proof.
  destruct (GetReplicasForKey_returns examples.ringThreeNodes key 3) as (l & Hrun & Hl & Hnd & _).
  - vm_compute. discriminate.
  - lia.
  - apply Nat.ltb_lt. vm_compute. reflexivity.
  - apply Z.leb_le. vm_compute. reflexivity.
  - exists l. split; [|split; [|exact Hnd]].
    + apply Hrun. apply Nat.leb_le. vm_compute. reflexivity.
    + assert (Hmin : Z.min 3 (Z.min (Z.of_nat (length (hashes examples.ringThreeNodes)))
                                 (Z.of_nat (size (hashMap examples.ringThreeNodes)))) = 3%Z)
        by (vm_compute; reflexivity).
      lia.
Qed.

(** *** Rings whose two tables agree *)

Lemma addSlots_consistent (n : NodeInfo) (ixs : list nat) (r : Ring) :
  spec.consistent r -> spec.consistent (fold_left (addSlot n) ixs r).
Proof.
  revert r. induction ixs as [|i ixs IH]; intros r Hr; cbn [fold_left].
  - exact Hr.
  - apply IH. unfold spec.consistent, addSlot in *. cbn [hashMap hashes].
    rewrite dom_insert_L, list_to_set_snoc_L, Hr. apply union_comm_L.
Qed.

Lemma addNodes_consistent (nodes : list NodeInfo) (r : Ring) :
  spec.consistent r -> spec.consistent (fold_left addNodeNoLock nodes r).
Proof.
  revert r. induction nodes as [|n nodes IH]; intros r Hr; cbn [fold_left].
  - exact Hr.
  - apply IH. now apply addSlots_consistent.
Qed.

Lemma sortHashes_consistent (r : Ring) :
  spec.consistent r -> spec.consistent (sortHashes r).
Proof.
  unfold spec.consistent, sortHashes. cbn [hashMap hashes]. intros ->.
  apply list_to_set_perm_L. symmetry. apply merge_sort_Permutation.
Qed.

Lemma NewRing_consistent (nodes : list NodeInfo) (v : Z) :
  spec.consistent (NewRing nodes v).
Proof.
  apply sortHashes_consistent, addNodes_consistent.
  unfold spec.consistent. cbn [hashMap hashes]. now rewrite dom_empty_L.
Qed.

Lemma AddNode_consistent (r : Ring) (n : NodeInfo) :
  spec.consistent r -> spec.consistent (AddNode r n).
Proof. intros Hr. now apply sortHashes_consistent, addSlots_consistent. Qed.

Lemma consistent_slot (r : Ring) (h : Z) :
  spec.consistent r -> h ∈ hashes r <-> is_Some (hashMap r !! h).
Proof.
  intros Hr. rewrite <- elem_of_dom, Hr. symmetry. apply elem_of_list_to_set.
Qed.

(** On such a ring the ids met on the slots are the ids of the physical
    nodes. *)
Lemma consistent_slotIds (r : Ring) :
  spec.consistent r -> spec.slotIds r = spec.physicalNodes r.
Proof.
  intros Hr. apply set_eq. intros x.
  unfold spec.slotIds, spec.physicalNodes.
  rewrite !elem_of_list_to_set, !list_elem_of_fmap. split.
  - intros (h & -> & Hh). apply (consistent_slot r h Hr) in Hh as [n Hn].
    exists n. split; [unfold spec.owner; now rewrite Hn|].
    apply list_elem_of_fmap. exists (h, n). split; [reflexivity|].
    now apply elem_of_map_to_list.
  - intros (n & -> & Hn). apply list_elem_of_fmap in Hn as ([h n'] & -> & Hin).
    apply elem_of_map_to_list in Hin. exists h. split.
    + unfold spec.owner. now rewrite Hin.
    + apply (consistent_slot r h Hr). eauto.
Qed.

Lemma size_list_to_set_le {A : Type} `{Countable A} (l : list A) :
  size (list_to_set l : gset A) <= length l.
Proof.
  induction l as [|x l IH]; cbn [length].
  - rewrite list_to_set_nil, size_empty. lia.
  - rewrite list_to_set_cons, size_union_alt, size_singleton.
    assert (size (list_to_set l ∖ {[x]} : gset A) <= size (list_to_set l : gset A)).
    { apply subseteq_size. apply subseteq_difference_l. reflexivity. }
    lia.
Qed.

(** At most one physical node per slot hash, at most one slot hash per
    slot. *)
Lemma consistent_sizes (r : Ring) :
  spec.consistent r ->
  size (spec.physicalNodes r) <= size (hashMap r) <= length (hashes r).
Proof.
  intros Hr. split.
  - unfold spec.physicalNodes.
    etransitivity; [apply size_list_to_set_le|].
    rewrite !length_fmap. now rewrite length_map_to_list.
  - rewrite <- (size_dom (D := gset Z)), Hr. apply size_list_to_set_le.
Qed.

Lemma slotIds_nonempty (r : Ring) : hashes r <> [] -> 0 < size (spec.slotIds r).
Proof.
  intros Hne. destruct (hashes r) as [|h l] eqn:E; [congruence|].
  assert (Hin : ID (spec.owner r h) ∈ spec.slotIds r).
  { unfold spec.slotIds. rewrite E. apply elem_of_list_to_set. apply list_elem_of_here. }
  destruct (size (spec.slotIds r)) eqn:Es; [|lia].
  apply size_empty_inv in Es. apply Es in Hin. now apply elem_of_empty in Hin.
Qed.

(** X8. The lookup on a ring whose tables agree, with [d] physical nodes and
    [m] slot hashes.  It returns exactly when [rFactor <= d] or [m = d];
    the list it returns has [min rFactor d] nodes, no id twice.  When
    [d < rFactor] and [d < m] it never returns. *)
Theorem GetReplicasForKey_consistent (r : Ring) (key : string) (rFactor : Z) :
  spec.consistent r ->
  hashes r <> [] ->
  (1 <= rFactor)%Z ->
  ((rFactor <= Z.of_nat (size (spec.physicalNodes r)))%Z
   \/ size (hashMap r) = size (spec.physicalNodes r) ->
   exists l,
     (forall fuel, length (hashes r) <= fuel ->
        GetReplicasForKey fuel r key rFactor = Done l)
     /\ Z.of_nat (length l) = Z.min rFactor (Z.of_nat (size (spec.physicalNodes r)))
     /\ NoDup (ID <$> l))
  /\ ((Z.of_nat (size (spec.physicalNodes r)) < rFactor)%Z
      /\ size (spec.physicalNodes r) < size (hashMap r) ->
      forall fuel, GetReplicasForKey fuel r key rFactor = OutOfFuel).
Proof.
  intros Hr Hne Hfac.
  pose proof (consistent_sizes r Hr) as [Hdm Hmn].
  pose proof (consistent_slotIds r Hr) as Hids.
  assert (Hd : 0 < size (spec.physicalNodes r)).
  { rewrite <- Hids. now apply slotIds_nonempty. }
  split.
  - intros Hcase.
    destruct (GetReplicasForKey_returns r key rFactor Hne Hfac ltac:(lia))
      as (l & Hrun & Hl & Hnd & _).
    + rewrite Hids. lia.
    + exists l. split; [exact Hrun|]. split; [lia | exact Hnd].
  - intros [Hlt Hltm] fuel. apply GetReplicasForKey_spins. rewrite Hids. lia.
Qed.

(** The ring of a single node: as many slots as [v] says, all owned by
    the node. *)
Lemma single_node_ring (n : NodeInfo) (v : Z) :
  (1 <= v)%Z ->
  length (hashes (NewRing [n] v)) = Z.to_nat v
  /\ hashes (NewRing [n] v) <> []
  /\ (forall h, h ∈ hashes (NewRing [n] v) -> hashMap (NewRing [n] v) !! h = Some n)
  /\ 0 < size (hashMap (NewRing [n] v)).
Proof.
  intros Hv.
  set (r := NewRing [n] v).
  set (slots := (fun i => hashFn (vKey n i)) <$> seq 0 (Z.to_nat v)).
  assert (Hhashes : hashes r = merge_sort Z.le slots).
  { unfold r, NewRing, sortHashes. cbn [hashes fold_left].
    unfold addNodeNoLock. cbn [vNodes]. now rewrite addSlots_hashes. }
  assert (Hlen : length (hashes r) = Z.to_nat v).
  { rewrite Hhashes, (Permutation_length (merge_sort_Permutation Z.le slots)).
    unfold slots. now rewrite length_fmap, length_seq. }
  assert (Hne : hashes r <> []).
  { intros E. rewrite E in Hlen. cbn in Hlen. lia. }
  assert (Howner : forall h, h ∈ hashes r -> hashMap r !! h = Some n).
  { intros h Hh. rewrite Hhashes, merge_sort_Permutation in Hh.
    unfold r, NewRing, sortHashes. cbn [hashMap fold_left].
    unfold addNodeNoLock. cbn [vNodes]. rewrite addSlots_owner.
    fold slots. now rewrite decide_True. }
  split; [exact Hlen|]. split; [exact Hne|]. split; [exact Howner|].
  destruct (hashes r) as [|h l] eqn:E; [congruence|].
  assert (Hh : hashMap r !! h = Some n) by (apply Howner; apply list_elem_of_here).
  pose proof (map_size_ne_0_lookup_2 (hashMap r) h ltac:(eauto)). lia.
Qed.

Lemma single_node_lookup (n : NodeInfo) (v : Z) (key : string) (fuel : nat) :
  (1 <= v)%Z ->
  Z.to_nat v <= fuel ->
  GetReplicasForKey fuel (NewRing [n] v) key 1 = Done [n].
Proof.
  intros Hv Hfuel.
  destruct (single_node_ring n v Hv) as (Hlen & Hne & Howner & Hmap).
  set (r := NewRing [n] v) in *.
  pose proof (slotIds_nonempty r Hne) as Hids.
  destruct (GetReplicasForKey_returns r key 1 Hne ltac:(lia) Hmap ltac:(lia))
    as (l & Hrun & Hl & _ & Hown).
  rewrite (Hrun fuel ltac:(lia)). f_equal.
  destruct l as [|x [|y l]]; cbn [length] in Hl; try lia.
  inversion Hown as [|? ? (h & Hh & ->) _]; subst.
  unfold spec.owner. now rewrite (Howner h Hh).
Qed.

(** X9. On a ring of a single node, whatever the number of its slots, the
    lookup with [rFactor = 1] returns that node, for every key, and so
    does [GetNodeForKey]. *)
Theorem GetReplicasForKey_single_node_factor_1 (n : NodeInfo) (v : Z) (key : string)
    (fuel : nat) :
  (1 <= v)%Z ->
  Z.to_nat v <= fuel ->
  GetReplicasForKey fuel (NewRing [n] v) key 1 = Done [n]
  /\ GetNodeForKey (NewRing [n] v) key = Done (n, true).
Proof.
  intros Hv Hfuel. split; [now apply single_node_lookup|].
  destruct (single_node_ring n v Hv) as (_ & Hne & Howner & _).
  unfold GetNodeForKey, getNode.
  destruct (Nat.eqb_spec (length (hashes (NewRing [n] v))) 0) as [E|_].
  { destruct (hashes (NewRing [n] v)); [congruence | discriminate]. }
  destruct (lookup_lt_is_Some_2 _ _ (startIndex_lt (NewRing [n] v) (hashFn key) Hne))
    as [h Hh].
  rewrite Hh, (Howner h); [reflexivity|]. apply list_elem_of_lookup. eauto.
Qed.

(** ** The router *)

Import cluster examples.

Section Router.

Context {World : Type} (env : cluster.Env World).

Lemma isLocal_true (r : Router) (n : NodeInfo) :
  isLocal r n = true <-> ID n = nodeID r.
Proof. unfold isLocal. apply bool_decide_eq_true. Qed.

Lemma isLocal_false (r : Router) (n : NodeInfo) :
  isLocal r n = false <-> ID n <> nodeID r.
Proof. unfold isLocal. apply bool_decide_eq_false. Qed.

(** The loop of [Get] computes the read the design describes. *)
Lemma Get_loop_Reads (r : Router) (st : gmap string string) (key : string)
    (replicas : list NodeInfo) (w : World) :
  exists (w' : World) (res : spec.ReadResult),
    spec.Reads env (nodeID r) st key replicas w w' res
    /\ Get_loop env r key replicas st w = (w', spec.returned res).
Proof.
  revert w. induction replicas as [|n rest IH]; intros w; cbn [Get_loop].
  - exists w, spec.NotFound. split; [constructor | reflexivity].
  - destruct (isLocal r n) eqn:Hloc.
    + apply isLocal_true in Hloc. unfold kv.Get.
      destruct (st !! key) as [v|] eqn:Hst.
      * exists w, (spec.Found v). split; [|reflexivity].
        now apply spec.reads_local_value.
      * destruct (IH w) as (w' & res & Hreads & Heq).
        exists w', res. split; [|exact Heq].
        now apply spec.reads_local_absent.
    + apply isLocal_false in Hloc.
      pose proof (eq_refl (spec.RemoteGet env w (Host n) key)) as Hget.
      unfold spec.RemoteGet at 2 in Hget.
      destruct (urlWithKey env _ key) as [u|].
      * destruct (httpGet env w u) as [w1 [msg|status body]].
        -- destruct (IH w1) as (w' & res & Hreads & Heq).
           exists w', res. split; [|exact Heq].
           eapply spec.reads_remote_failed; eassumption.
        -- destruct (Z.eqb_spec status 404) as [E404|N404].
           ++ rewrite decide_True in Hget by assumption.
              destruct (IH w1) as (w' & res & Hreads & Heq).
              exists w', res. split; [|exact Heq].
              eapply spec.reads_remote_absent; eassumption.
           ++ rewrite decide_False in Hget by assumption.
              destruct (Z.leb_spec 300 status) as [Hge|Hlt].
              ** rewrite decide_True in Hget by assumption.
                 destruct (IH w1) as (w' & res & Hreads & Heq).
                 exists w', res. split; [|exact Heq].
                 eapply spec.reads_remote_failed; eassumption.
              ** rewrite decide_False in Hget by lia.
                 exists w1, (spec.Found body). split; [|reflexivity].
                 eapply spec.reads_remote_value; eassumption.
      * destruct (IH w) as (w' & res & Hreads & Heq).
        exists w', res. split; [|exact Heq].
        eapply spec.reads_remote_failed; eassumption.
Qed.

(** A read has one outcome. *)
Lemma Reads_functional (self : NodeID) (st : gmap string string) (key : string)
    (replicas : list NodeInfo) (w w1 w2 : World) (res1 res2 : spec.ReadResult) :
  spec.Reads env self st key replicas w w1 res1 ->
  spec.Reads env self st key replicas w w2 res2 ->
  w1 = w2 /\ res1 = res2.
Proof.
  intros H1. revert w2 res2.
  induction H1; intros w2 res2 H2; inversion H2; subst;
    try congruence; try (split; congruence);
    try match goal with
        | Ha : spec.RemoteGet env ?w ?h ?k = _,
          Hb : spec.RemoteGet env ?w ?h ?k = _ |- _ =>
            rewrite Ha in Hb; inversion Hb; subst
        end;
    auto.
Qed.

(** [Get] on a non-empty replica list is the read of the design. *)
Lemma Get_Reads (fuel : nat) (r : Router) (st : gmap string string)
    (w : World) (key : string) (replicas : list NodeInfo) :
  GetReplicasForKey fuel (ring r) key (replicationFactor r) = Done replicas ->
  replicas <> [] ->
  (exists (w' : World) (res : spec.ReadResult),
      spec.Reads env (nodeID r) st key replicas w w' res)
  /\ (forall (w' : World) (res : spec.ReadResult),
        spec.Reads env (nodeID r) st key replicas w w' res ->
        Get env fuel r st w key = Done (w', spec.returned res)).
Proof.
  intros Hring Hne.
  assert (Hget : Get env fuel r st w key = Done (Get_loop env r key replicas st w)).
  { unfold Get. rewrite Hring. cbn.
    destruct replicas; [congruence | reflexivity]. }
  destruct (Get_loop_Reads r st key replicas w) as (w0 & res0 & Hreads & Hloop).
  split; [eauto|].
  intros w' res H.
  destruct (Reads_functional _ _ _ _ _ _ _ _ _ Hreads H) as [-> ->].
  now rewrite Hget, Hloop.
Qed.

(** C4. When the ring gives a non-empty replica list, [Get] asks the
    replicas in the order of the list and returns the value of the first
    one that answers with a value; a replica that reports the key absent
    and a replica that cannot be reached both pass the read on to the
    next replica; when no replica is left the result is not-found, with
    [found = false] and no error. *)
Theorem Get_first_answer (fuel : nat) (r : Router) (st : gmap string string)
    (w : World) (key : string) (replicas : list NodeInfo) :
  GetReplicasForKey fuel (ring r) key (replicationFactor r) = Done replicas ->
  replicas <> [] ->
  (exists (w' : World) (res : spec.ReadResult),
      spec.Reads env (nodeID r) st key replicas w w' res
      /\ Get env fuel r st w key = Done (w', spec.returned res))
  /\ (forall (w' : World) (res : spec.ReadResult),
        spec.Reads env (nodeID r) st key replicas w w' res ->
        Get env fuel r st w key = Done (w', spec.returned res))
  /\ (forall w' : World,
        spec.Reads env (nodeID r) st key replicas w w' spec.NotFound ->
        Get env fuel r st w key = Done (w', ("", false, None))).
Proof.
  intros Hring Hne.
  destruct (Get_Reads fuel r st w key replicas Hring Hne) as [(w0 & res0 & Hreads) Hall].
  split; [|split].
  - exists w0, res0. split; [exact Hreads|]. now apply Hall.
  - exact Hall.
  - intros w' H. exact (Hall w' spec.NotFound H).
Qed.

(** The loop of [Put] makes the attempts the design describes and records
    one error for each failed one. *)
Lemma Put_loop_Writes (r : Router) (key value : string) (replicas : list NodeInfo)
    (st : gmap string string) (w : World) (errs : list string) :
  exists (st' : gmap string string) (w' : World) (attempts : list spec.Attempt)
         (errs' : list string),
    spec.Writes env (nodeID r) key value replicas st w st' w' attempts
    /\ Put_loop env r key value replicas st w errs = (st', w', errs ++ errs')
    /\ length errs' = length (filter (fun a => spec.isFailure a = true) attempts).
Proof.
  revert st w errs. induction replicas as [|n rest IH]; intros st w errs;
    cbn [Put_loop].
  - exists st, w, [], []. split; [constructor|]. now rewrite app_nil_r.
  - destruct (isLocal r n) eqn:Hloc.
    + apply isLocal_true in Hloc.
      destruct (IH (kv.Put st key value) w errs) as (st' & w' & att & errs' & HW & HP & HL).
      exists st', w', (spec.WroteLocal :: att), errs'.
      split; [now apply spec.writes_local|]. split; [exact HP|].
      rewrite filter_cons_False; [exact HL | discriminate].
    + apply isLocal_false in Hloc.
      pose proof (eq_refl (spec.RemotePut env w (Host n) key value)) as Hput.
      unfold spec.RemotePut at 2 in Hput.
      destruct (httpPost env w _ _) as [w1 [msg|status body]].
      * destruct (IH st w1 (errs ++ ["remote PUT to " +:+ Host n +:+ " failed: " +:+ msg]))
          as (st' & w' & att & errs' & HW & HP & HL).
        exists st', w', (spec.RemoteFailed (Host n) :: att),
          (("remote PUT to " +:+ Host n +:+ " failed: " +:+ msg) :: errs').
        split; [eapply spec.writes_remote_failed; eassumption|].
        split; [rewrite HP, <- app_assoc; reflexivity|].
        rewrite filter_cons_True by reflexivity. cbn [length]. now rewrite HL.
      * destruct (Z.leb_spec 300 status) as [Hge|Hlt].
        -- rewrite bool_decide_eq_false_2 in Hput by lia.
           destruct (IH st w1 (errs ++ ["remote PUT to " +:+ Host n +:+ " status=" +:+ fmtInt status]))
             as (st' & w' & att & errs' & HW & HP & HL).
           exists st', w', (spec.RemoteFailed (Host n) :: att),
             (("remote PUT to " +:+ Host n +:+ " status=" +:+ fmtInt status) :: errs').
           split; [eapply spec.writes_remote_failed; eassumption|].
           split; [rewrite HP, <- app_assoc; reflexivity|].
           rewrite filter_cons_True by reflexivity. cbn [length]. now rewrite HL.
        -- rewrite bool_decide_eq_true_2 in Hput by lia.
           destruct (IH st w1 errs) as (st' & w' & att & errs' & HW & HP & HL).
           exists st', w', (spec.RemoteOk (Host n) :: att), errs'.
           split; [eapply spec.writes_remote_ok; eassumption|].
           split; [exact HP|].
           rewrite filter_cons_False; [exact HL | discriminate].
Qed.

Lemma Writes_length (self : NodeID) (key value : string) (replicas : list NodeInfo)
    (st st' : gmap string string) (w w' : World) (attempts : list spec.Attempt) :
  spec.Writes env self key value replicas st w st' w' attempts ->
  length attempts = length replicas.
Proof. induction 1; cbn [length]; congruence. Qed.

(** A fan-out has one outcome. *)
Lemma Writes_functional (self : NodeID) (key value : string) (replicas : list NodeInfo)
    (st st1 st2 : gmap string string) (w w1 w2 : World)
    (att1 att2 : list spec.Attempt) :
  spec.Writes env self key value replicas st w st1 w1 att1 ->
  spec.Writes env self key value replicas st w st2 w2 att2 ->
  st1 = st2 /\ w1 = w2 /\ att1 = att2.
Proof.
  intros H1. revert st2 w2 att2.
  induction H1; intros st2 w2 att2 H2; inversion H2; subst; try congruence.
  - auto.
  - destruct (IHWrites _ _ _ ltac:(eassumption)) as (-> & -> & ->). auto.
  - match goal with
    | Ha : spec.RemotePut env ?w ?h ?k ?v = _,
      Hb : spec.RemotePut env ?w ?h ?k ?v = _ |- _ =>
        rewrite Ha in Hb; inversion Hb; subst
    end.
    destruct (IHWrites _ _ _ ltac:(eassumption)) as (-> & -> & ->). auto.
  - match goal with
    | Ha : spec.RemotePut env ?w ?h ?k ?v = _,
      Hb : spec.RemotePut env ?w ?h ?k ?v = _ |- _ =>
        rewrite Ha in Hb; inversion Hb; subst
    end.
    destruct (IHWrites _ _ _ ltac:(eassumption)) as (-> & -> & ->). auto.
Qed.

(** C5, as the code has it.  [Put] makes one attempt for every replica of
    the list, whatever the earlier attempts gave: a write of the local
    store for a replica whose id is the router's own, a remote put for any
    other, whose transport error or status from 300 on is recorded.  When
    the list is not empty, [Put] returns an error exactly when at least
    one attempt failed; on an empty list it returns the error "no replicas
    for key" and attempts nothing. *)
Theorem Put_attempts_every_replica (fuel : nat) (r : Router)
    (st : gmap string string) (w : World) (key value : string)
    (replicas : list NodeInfo) :
  GetReplicasForKey fuel (ring r) key (replicationFactor r) = Done replicas ->
  (replicas = [] ->
   Put env fuel r st w key value = Done (st, w, Some "no replicas for key"))
  /\ (replicas <> [] ->
      exists (st' : gmap string string) (w' : World) (attempts : list spec.Attempt)
             (err : error),
        spec.Writes env (nodeID r) key value replicas st w st' w' attempts
        /\ length attempts = length replicas
        /\ Put env fuel r st w key value = Done (st', w', err)
        /\ (is_Some err <-> exists host, spec.RemoteFailed host ∈ attempts)).
Proof.
  intros Hring. split.
  { intros ->. unfold Put. rewrite Hring. reflexivity. }
  intros Hne.
  destruct (Put_loop_Writes r key value replicas st w [])
    as (st' & w' & att & errs' & HW & HP & HL).
  cbn [app] in HP.
  assert (Hfail : errs' <> [] <-> exists host, spec.RemoteFailed host ∈ att).
  { split.
    - intros Hnil.
      destruct (filter (fun a => spec.isFailure a = true) att) as [|a l] eqn:Hf.
      + destruct errs'; [congruence | discriminate].
      + assert (Ha : a ∈ filter (fun a => spec.isFailure a = true) att)
          by (rewrite Hf; apply list_elem_of_here).
        apply list_elem_of_filter in Ha as [Hisf Hin].
        destruct a; try discriminate. eauto.
    - intros [host Hin] ->.
      assert (Ha : spec.RemoteFailed host ∈ filter (fun a => spec.isFailure a = true) att)
        by (apply list_elem_of_filter; auto).
      destruct (filter _ att); [now apply elem_of_nil in Ha | discriminate]. }
  pose proof (Writes_length _ _ _ _ _ _ _ _ _ HW) as Hlen.
  exists st', w', att.
  unfold Put. rewrite Hring. cbn.
  destruct replicas as [|n rest]; [congruence|]. cbn [length Nat.eqb].
  rewrite HP.
  destruct errs' as [|e errs'']; cbn.
  - exists None. split; [exact HW|]. split; [exact Hlen|].
    split; [reflexivity|]. rewrite <- Hfail. split.
    + intros [? ?]. discriminate.
    + congruence.
  - eexists (Some _). split; [exact HW|]. split; [exact Hlen|].
    split; [reflexivity|]. rewrite <- Hfail. split.
    + discriminate.
    + eauto.
Qed.

Lemma OnlyFailures_Reads (self : NodeID) (st : gmap string string) (key : string)
    (replicas : list NodeInfo) (w w' : World) :
  spec.OnlyFailures env self key replicas w w' ->
  spec.Reads env self st key replicas w w' spec.NotFound.
Proof.
  induction 1.
  - constructor.
  - eapply spec.reads_remote_failed; eassumption.
Qed.

(** C7, as the code has it.  A GET that finds every replica unreachable
    is answered with 404, the answer for an absent key; the handler
    answers 502 only when the ring gives no replica at all. *)
Theorem HandleGet_only_failures_404 (fuel : nat) (r : Router)
    (st : gmap string string) (w : World) (key : string)
    (replicas : list NodeInfo) :
  GetReplicasForKey fuel (ring r) key (replicationFactor r) = Done replicas ->
  (replicas <> [] ->
   forall w' : World,
     spec.OnlyFailures env (nodeID r) key replicas w w' ->
     api.HandleGetDistributed env fuel r st w key
     = Done (w', api.httpError "not found" api.StatusNotFound))
  /\ (exists (w' : World) (code : Z) (body : string),
        api.HandleGetDistributed env fuel r st w key = Done (w', (code, body))
        /\ (code = api.StatusBadGateway <-> replicas = [])).
Proof.
  intros Hring. split.
  - intros Hne w' Hfail.
    apply (OnlyFailures_Reads _ st) in Hfail.
    destruct (Get_Reads fuel r st w key replicas Hring Hne) as [_ Hall].
    unfold api.HandleGetDistributed. rewrite (Hall w' _ Hfail). reflexivity.
  - destruct replicas as [|n rest].
    + unfold api.HandleGetDistributed, Get. rewrite Hring. cbn.
      eexists _, _, _. split; [reflexivity|]. split; reflexivity.
    + destruct (Get_Reads fuel r st w key (n :: rest) Hring ltac:(discriminate))
        as [(w' & res & Hreads) Hall].
      unfold api.HandleGetDistributed. rewrite (Hall w' res Hreads).
      destruct res as [v|]; cbn.
      * eexists _, _, _. split; [reflexivity|].
        unfold api.StatusOK, api.StatusBadGateway. split; [lia | discriminate].
      * eexists _, _, _. split; [reflexivity|].
        unfold api.StatusNotFound, api.StatusBadGateway. split; [lia | discriminate].
Qed.

(** *** The rebalancer *)

Lemma Put_loop_no_local (r : Router) (key value : string) (replicas : list NodeInfo)
    (st : gmap string string) (w : World) (errs : list string) :
  existsb (isLocal r) replicas = false ->
  (Put_loop env r key value replicas st w errs).1.1 = st.
Proof.
  revert st w errs. induction replicas as [|n rest IH]; intros st w errs Hex;
    cbn [Put_loop].
  - reflexivity.
  - cbn [existsb] in Hex. apply orb_false_iff in Hex as [Hn Hrest].
    rewrite Hn.
    destruct (httpPost env w _ _) as [w1 [msg|status body]].
    + now apply IH.
    + destruct (300 <=? status)%Z; now apply IH.
Qed.

Lemma Put_Done (fuel : nat) (r : Router) (st : gmap string string) (w : World)
    (key value : string) (replicas : list NodeInfo) :
  GetReplicasForKey fuel (ring r) key (replicationFactor r) = Done replicas ->
  exists st1 w1 err, Put env fuel r st w key value = Done (st1, w1, err)
    /\ (existsb (isLocal r) replicas = false -> st1 = st).
Proof.
  intros Hring. unfold Put. rewrite Hring. cbn.
  destruct (length replicas =? 0)%nat.
  - eexists _, _, _. split; [reflexivity | reflexivity].
  - pose proof (Put_loop_no_local r key value replicas st w []) as Hst.
    destruct (Put_loop env r key value replicas st w []) as [[st1 w1] errs].
    cbn in Hst.
    destruct errs; cbn; eexists _, _, _; (split; [reflexivity | exact Hst]).
Qed.

(** With a ring that answers for every key of the scan, the scan ends. *)
Lemma Rebalance_loop_Done (fuel : nat) (r : Router) (ctx : Context World)
    (keys : list string) :
  (forall k, k ∈ keys ->
     exists replicas,
       GetReplicasForKey fuel (ring r) k (replicationFactor r) = Done replicas) ->
  forall st w moved kept log,
  exists res, Rebalance_loop env fuel r ctx keys st w moved kept log = Done res.
Proof.
  induction keys as [|key rest IH]; intros Hring st w moved kept log;
    cbn [Rebalance_loop].
  - eauto.
  - assert (Hrest : forall k, k ∈ rest ->
              exists replicas,
                GetReplicasForKey fuel (ring r) k (replicationFactor r) = Done replicas).
    { intros k Hk. apply Hring. now apply list_elem_of_further. }
    specialize (IH Hrest).
    destruct (ctxDone ctx w); [eauto|].
    unfold kv.Get. destruct (st !! key) as [val|]; cbn [negb]; [|apply IH].
    destruct (Hring key (list_elem_of_here _ _)) as [replicas Hkey].
    rewrite Hkey.
    destruct (length replicas =? 0)%nat; [apply IH|].
    destruct (existsb (isLocal r) replicas); [apply IH|].
    destruct (Put_Done fuel r st w key val replicas Hkey) as (st1 & w1 & err & HPut & _).
    rewrite HPut. destruct err; apply IH.
Qed.

(** What a completed scan leaves behind, for the keys [keys] that were
    still to be looked at when the store was [st] and the log was [log]. *)
Lemma Rebalance_loop_sound (fuel : nat) (r : Router) (ctx : Context World)
    (keys : list string) :
  forall st w moved kept log res,
    Rebalance_loop env fuel r ctx keys st w moved kept log = Done res ->
    rbErr res = None ->
    exists log',
      rbLog res = log ++ log'
      /\ (forall k, k ∉ keys -> rbStore res !! k = st !! k)
      /\ (forall k v, rbStore res !! k = Some v -> st !! k = Some v)
      /\ (forall k v, k ∈ keys -> rbStore res !! k = Some v ->
            exists replicas,
              GetReplicasForKey fuel (ring r) k (replicationFactor r) = Done replicas
              /\ (replicas = []
                  \/ nodeID r ∈ ID <$> replicas
                  \/ exists err, LogFailedMove k err ∈ log'))
      /\ (NoDup keys ->
          forall k replicas, k ∈ keys -> is_Some (st !! k) ->
            GetReplicasForKey fuel (ring r) k (replicationFactor r) = Done replicas ->
            replicas <> [] ->
            nodeID r ∉ ID <$> replicas ->
            (forall err, LogFailedMove k err ∉ log') ->
            rbStore res !! k = None).
Proof.
  induction keys as [|key rest IH]; intros st w moved kept log res Hrun Herr;
    cbn [Rebalance_loop] in Hrun.
  - inversion Hrun; subst; cbn in *.
    eexists. split; [reflexivity|].
    repeat split; intros; try done.
    + exfalso. eapply elem_of_nil; eassumption.
    + exfalso. eapply elem_of_nil; eassumption.
  - destruct (ctxDone ctx w).
    { inversion Hrun; subst. discriminate. }
    unfold kv.Get in Hrun.
    destruct (st !! key) as [val|] eqn:Hst; cbn [negb] in Hrun.
    2:{ (* the key is gone from the store: skipped *)
        destruct (IH _ _ _ _ _ _ Hrun Herr) as (log' & Hlog & Hframe & Hsub & Hkept & Hmoved).
        exists log'. split; [exact Hlog|]. split; [|split; [|split]].
        - intros k Hk. apply Hframe. intros Hin. apply Hk. now apply list_elem_of_further.
        - exact Hsub.
        - intros k v Hk Hv. apply elem_of_cons in Hk as [->|Hk].
          + apply Hsub in Hv. congruence.
          + eauto.
        - intros Hnd k replicas Hk Hsome. apply NoDup_cons in Hnd as [_ Hnd].
          apply elem_of_cons in Hk as [->|Hk].
          + rewrite Hst in Hsome. now destruct Hsome.
          + now apply Hmoved. }
    destruct (GetReplicasForKey fuel (ring r) key (replicationFactor r))
      as [replicas| |] eqn:Hkey; try discriminate.
    destruct (length replicas =? 0)%nat eqn:Hlen.
    { (* no replicas: kept *)
      destruct replicas; [|discriminate].
      destruct (IH _ _ _ _ _ _ Hrun Herr) as (log' & Hlog & Hframe & Hsub & Hkept & Hmoved).
      exists log'. split; [exact Hlog|]. split; [|split; [|split]].
      - intros k Hk. apply Hframe. intros Hin. apply Hk. now apply list_elem_of_further.
      - exact Hsub.
      - intros k v Hk Hv. apply elem_of_cons in Hk as [->|Hk]; eauto.
      - intros Hnd k replicas Hk Hsome Hring Hne. apply NoDup_cons in Hnd as [_ Hnd].
        apply elem_of_cons in Hk as [->|Hk].
        + congruence.
        + now apply (Hmoved Hnd k replicas). }
    destruct (existsb (isLocal r) replicas) eqn:Hloc.
    { (* this node is a replica: kept *)
      destruct (IH _ _ _ _ _ _ Hrun Herr) as (log' & Hlog & Hframe & Hsub & Hkept & Hmoved).
      assert (Hself : nodeID r ∈ ID <$> replicas).
      { apply existsb_exists in Hloc as (n & Hn & Hnloc).
        apply isLocal_true in Hnloc. rewrite <- Hnloc.
        apply list_elem_of_fmap. exists n. split; [reflexivity|].
        now apply list_elem_of_In. }
      exists log'. split; [exact Hlog|]. split; [|split; [|split]].
      - intros k Hk. apply Hframe. intros Hin. apply Hk. now apply list_elem_of_further.
      - exact Hsub.
      - intros k v Hk Hv. apply elem_of_cons in Hk as [->|Hk]; eauto.
      - intros Hnd k replicas' Hk Hsome Hring Hne Hnself. apply NoDup_cons in Hnd as [_ Hnd].
        apply elem_of_cons in Hk as [->|Hk].
        + congruence.
        + now apply (Hmoved Hnd k replicas'). }
    destruct (Put_Done fuel r st w key val replicas Hkey) as (st1 & w1 & err & HPut & Hst1).
    rewrite HPut in Hrun. specialize (Hst1 Hloc). subst st1.
    destruct err as [err|].
    { (* the move failed: kept, and logged *)
      destruct (IH _ _ _ _ _ _ Hrun Herr) as (log' & Hlog & Hframe & Hsub & Hkept & Hmoved).
      exists (LogFailedMove key err :: log').
      split; [rewrite Hlog, <- app_assoc; reflexivity|].
      split; [|split; [|split]].
      - intros k Hk. apply Hframe. intros Hin. apply Hk. now apply list_elem_of_further.
      - exact Hsub.
      - intros k v Hk Hv. apply elem_of_cons in Hk as [->|Hk].
        + exists replicas. split; [exact Hkey|]. right. right.
          exists err. apply list_elem_of_here.
        + destruct (Hkept k v Hk Hv) as (reps & Hreps & Hcase).
          exists reps. split; [exact Hreps|].
          destruct Hcase as [?|[?|[e He]]]; auto.
          right. right. exists e. now apply list_elem_of_further.
      - intros Hnd k replicas' Hk Hsome Hring Hne Hnself Hnolog.
        apply NoDup_cons in Hnd as [_ Hnd].
        apply elem_of_cons in Hk as [->|Hk].
        + exfalso. apply (Hnolog err). apply list_elem_of_here.
        + apply (Hmoved Hnd k replicas'); auto.
          intros e He. apply (Hnolog e). now apply list_elem_of_further. }
    (* the move succeeded: deleted *)
    destruct (IH _ _ _ _ _ _ Hrun Herr) as (log' & Hlog & Hframe & Hsub & Hkept & Hmoved).
    unfold kv.Delete in *.
    exists log'. split; [exact Hlog|]. split; [|split; [|split]].
    + intros k Hk. rewrite Hframe.
      * apply lookup_delete_ne. intros ->. apply Hk. apply list_elem_of_here.
      * intros Hin. apply Hk. now apply list_elem_of_further.
    + intros k v Hv. apply Hsub in Hv.
      apply lookup_delete_Some in Hv as [_ Hv]. exact Hv.
    + intros k v Hk Hv. apply elem_of_cons in Hk as [->|Hk].
      * apply Hsub in Hv. rewrite lookup_delete_eq in Hv. discriminate.
      * eauto.
    + intros Hnd k replicas' Hk Hsome Hring Hne Hnself Hnolog.
      apply NoDup_cons in Hnd as [Hnin Hnd].
      apply elem_of_cons in Hk as [->|Hk].
      * rewrite (Hframe key Hnin). apply lookup_delete_eq.
      * apply (Hmoved Hnd k replicas'); auto.
        rewrite lookup_delete_ne; [exact Hsome|].
        intros ->. contradiction.
Qed.

(** A key whose move failed is still in the store, with its value. *)
Lemma Rebalance_loop_failed (fuel : nat) (r : Router) (ctx : Context World)
    (keys : list string) :
  NoDup keys ->
  forall st w moved kept log res,
    Rebalance_loop env fuel r ctx keys st w moved kept log = Done res ->
    rbErr res = None ->
    exists log',
      rbLog res = log ++ log'
      /\ forall k err, LogFailedMove k err ∈ log' ->
           k ∈ keys /\ is_Some (st !! k) /\ rbStore res !! k = st !! k.
Proof.
  induction keys as [|key rest IH]; intros Hnd st w moved kept log res Hrun Herr;
    cbn [Rebalance_loop] in Hrun.
  - inversion Hrun; subst; cbn in *.
    eexists. split; [reflexivity|].
    intros k err [Hk|Hk]%elem_of_cons; [discriminate | now apply elem_of_nil in Hk].
  - apply NoDup_cons in Hnd as [Hnin Hnd]. specialize (IH Hnd).
    assert (Hlift : forall (st' : gmap string string) (log' : list LogEntry),
               (forall k err, LogFailedMove k err ∈ log' ->
                  k ∈ rest /\ is_Some (st' !! k) /\ rbStore res !! k = st' !! k) ->
               (forall k, k ∈ rest -> st' !! k = st !! k) ->
               forall k err, LogFailedMove k err ∈ log' ->
                 k ∈ key :: rest /\ is_Some (st !! k) /\ rbStore res !! k = st !! k).
    { intros st' log' Hall Hsame k err Hin.
      destruct (Hall k err Hin) as (Hk & Hsome & Heq).
      rewrite (Hsame k Hk) in Hsome, Heq.
      split; [now apply list_elem_of_further | auto]. }
    destruct (ctxDone ctx w).
    { inversion Hrun; subst. discriminate. }
    unfold kv.Get in Hrun.
    destruct (st !! key) as [val|] eqn:Hst; cbn [negb] in Hrun.
    2:{ destruct (IH _ _ _ _ _ _ Hrun Herr) as (log' & Hlog & Hall).
        exists log'. split; [exact Hlog|]. exact (Hlift st log' Hall (fun _ _ => eq_refl)). }
    destruct (GetReplicasForKey fuel (ring r) key (replicationFactor r))
      as [replicas| |] eqn:Hkey; try discriminate.
    destruct (length replicas =? 0)%nat.
    { destruct (IH _ _ _ _ _ _ Hrun Herr) as (log' & Hlog & Hall).
      exists log'. split; [exact Hlog|]. exact (Hlift st log' Hall (fun _ _ => eq_refl)). }
    destruct (existsb (isLocal r) replicas) eqn:Hloc.
    { destruct (IH _ _ _ _ _ _ Hrun Herr) as (log' & Hlog & Hall).
      exists log'. split; [exact Hlog|]. exact (Hlift st log' Hall (fun _ _ => eq_refl)). }
    destruct (Put_Done fuel r st w key val replicas Hkey) as (st1 & w1 & err & HPut & Hst1).
    rewrite HPut in Hrun. specialize (Hst1 Hloc). subst st1.
    destruct err as [err|].
    + destruct (IH _ _ _ _ _ _ Hrun Herr) as (log' & Hlog & Hall).
      destruct (Rebalance_loop_sound fuel r ctx rest _ _ _ _ _ _ Hrun Herr)
        as (log'' & _ & Hframe & _).
      exists (LogFailedMove key err :: log').
      split; [rewrite Hlog, <- app_assoc; reflexivity|].
      intros k e [Hk|Hk]%elem_of_cons.
      * inversion Hk; subst. split; [apply list_elem_of_here|].
        split; [rewrite Hst; eauto|]. now apply Hframe.
      * apply (Hlift st log' Hall (fun _ _ => eq_refl) k e Hk).
    + destruct (IH _ _ _ _ _ _ Hrun Herr) as (log' & Hlog & Hall).
      exists log'. split; [exact Hlog|].
      apply (Hlift (kv.Delete st key) log' Hall).
      intros k Hk. unfold kv.Delete. apply lookup_delete_ne.
      intros ->. contradiction.
Qed.

Lemma elem_of_Keys (st : gmap string string) (k : string) :
  k ∈ kv.Keys st <-> is_Some (st !! k).
Proof.
  unfold kv.Keys. rewrite list_elem_of_fmap. split.
  - intros ([k' v] & -> & Hin). apply elem_of_map_to_list in Hin. eauto.
  - intros [v Hv]. exists (k, v). split; [reflexivity|].
    now apply elem_of_map_to_list.
Qed.

(** What a scan leaves behind however it ends, to its end or cancelled,
    for the keys [keys] that were still to be looked at when the store was
    [st] and the log was [log]: the store only loses keys; a key whose move
    is logged as failed is in the store as before; a key that is gone was
    put with success. *)
Lemma Rebalance_loop_any (fuel : nat) (r : Router) (ctx : Context World)
    (keys : list string) :
  NoDup keys ->
  forall st w moved kept log res,
    Rebalance_loop env fuel r ctx keys st w moved kept log = Done res ->
    exists log',
      rbLog res = log ++ log'
      /\ (forall k, k ∉ keys -> rbStore res !! k = st !! k)
      /\ (forall k v, rbStore res !! k = Some v -> st !! k = Some v)
      /\ (forall k err, LogFailedMove k err ∈ log' ->
            k ∈ keys /\ is_Some (st !! k) /\ rbStore res !! k = st !! k)
      /\ (forall k v, st !! k = Some v -> rbStore res !! k = None ->
            k ∈ keys
            /\ (forall err, LogFailedMove k err ∉ log')
            /\ exists replicas st0 w0 w1,
                 GetReplicasForKey fuel (ring r) k (replicationFactor r) = Done replicas
                 /\ replicas <> []
                 /\ (nodeID r ∉ ID <$> replicas)
                 /\ st0 !! k = Some v
                 /\ Put env fuel r st0 w0 k v = Done (st0, w1, None)).
Proof.
  induction keys as [|key rest IH]; intros Hnd st w moved kept log res Hrun;
    cbn [Rebalance_loop] in Hrun.
  - inversion Hrun; subst; cbn.
    eexists. split; [reflexivity|]. split; [auto|]. split; [auto|]. split.
    + intros k err [Hk|Hk]%elem_of_cons; [discriminate | now apply elem_of_nil in Hk].
    + intros k v Hk Hnone. congruence.
  - apply NoDup_cons in Hnd as [Hnin Hnd]. specialize (IH Hnd).
    assert (Hskip : forall moved' kept',
              Rebalance_loop env fuel r ctx rest st w moved' kept' log = Done res ->
              exists log',
                rbLog res = log ++ log'
                /\ (forall k, k ∉ key :: rest -> rbStore res !! k = st !! k)
                /\ (forall k v, rbStore res !! k = Some v -> st !! k = Some v)
                /\ (forall k err, LogFailedMove k err ∈ log' ->
                      k ∈ key :: rest /\ is_Some (st !! k) /\ rbStore res !! k = st !! k)
                /\ (forall k v, st !! k = Some v -> rbStore res !! k = None ->
                      k ∈ key :: rest
                      /\ (forall err, LogFailedMove k err ∉ log')
                      /\ exists replicas st0 w0 w1,
                           GetReplicasForKey fuel (ring r) k (replicationFactor r)
                           = Done replicas
                           /\ replicas <> []
                           /\ (nodeID r ∉ ID <$> replicas)
                           /\ st0 !! k = Some v
                           /\ Put env fuel r st0 w0 k v = Done (st0, w1, None))).
    { intros moved' kept' Hrun'.
      destruct (IH _ _ _ _ _ _ Hrun') as (log' & Hlog & Hframe & Hsub & Hfail & Hgone).
      exists log'. split; [exact Hlog|]. split; [|split; [exact Hsub|split]].
      - intros k Hk. apply Hframe. intros Hin. apply Hk. now apply list_elem_of_further.
      - intros k err Hin. destruct (Hfail k err Hin) as (Hk & Hrest).
        split; [now apply list_elem_of_further | exact Hrest].
      - intros k v Hk Hnone. destruct (Hgone k v Hk Hnone) as (Hin & Hrest).
        split; [now apply list_elem_of_further | exact Hrest]. }
    destruct (ctxDone ctx w).
    { inversion Hrun; subst; cbn.
      eexists. split; [reflexivity|]. split; [auto|]. split; [auto|]. split.
      + intros k err [Hk|Hk]%elem_of_cons; [discriminate | now apply elem_of_nil in Hk].
      + intros k v Hk Hnone. congruence. }
    unfold kv.Get in Hrun.
    destruct (st !! key) as [val|] eqn:Hst; cbn [negb] in Hrun;
      [|exact (Hskip _ _ Hrun)].
    destruct (GetReplicasForKey fuel (ring r) key (replicationFactor r))
      as [replicas| |] eqn:Hkey; try discriminate.
    destruct (length replicas =? 0)%nat eqn:Hlen; [exact (Hskip _ _ Hrun)|].
    destruct (existsb (isLocal r) replicas) eqn:Hloc; [exact (Hskip _ _ Hrun)|].
    destruct (Put_Done fuel r st w key val replicas Hkey) as (st1 & w1 & err & HPut & Hst1).
    rewrite HPut in Hrun. specialize (Hst1 Hloc). subst st1.
    destruct err as [err|].
    + (* the move failed *)
      destruct (IH _ _ _ _ _ _ Hrun) as (log' & Hlog & Hframe & Hsub & Hfail & Hgone).
      exists (LogFailedMove key err :: log').
      split; [rewrite Hlog, <- app_assoc; reflexivity|].
      split; [|split; [exact Hsub|split]].
      * intros k Hk. apply Hframe. intros Hin. apply Hk. now apply list_elem_of_further.
      * intros k e [Hk|Hk]%elem_of_cons.
        -- inversion Hk; subst. split; [apply list_elem_of_here|].
           split; [rewrite Hst; eauto | now apply Hframe].
        -- destruct (Hfail k e Hk) as (Hin & Hrest).
           split; [now apply list_elem_of_further | exact Hrest].
      * intros k v Hk Hnone. destruct (Hgone k v Hk Hnone) as (Hin & Hno & Hwhy).
        split; [now apply list_elem_of_further|]. split; [|exact Hwhy].
        intros e [He|He]%elem_of_cons; [|exact (Hno e He)].
        inversion He; subst. contradiction.
    + (* the move succeeded *)
      destruct (IH _ _ _ _ _ _ Hrun) as (log' & Hlog & Hframe & Hsub & Hfail & Hgone).
      unfold kv.Delete in *.
      exists log'. split; [exact Hlog|]. split; [|split; [|split]].
      * intros k Hk. rewrite Hframe.
        -- apply lookup_delete_ne. intros ->. apply Hk. apply list_elem_of_here.
        -- intros Hin. apply Hk. now apply list_elem_of_further.
      * intros k v Hv. apply Hsub in Hv.
        now apply lookup_delete_Some in Hv as [_ Hv].
      * intros k e Hin. destruct (Hfail k e Hin) as (Hk & Hsome & Heq).
        assert (Hne : key <> k) by (intros ->; contradiction).
        rewrite lookup_delete_ne in Hsome, Heq by exact Hne.
        split; [now apply list_elem_of_further | auto].
      * intros k v Hk Hnone. destruct (decide (k = key)) as [->|Hne].
        -- split; [apply list_elem_of_here|]. split.
           { intros e He. destruct (Hfail key e He) as (Hin & _). contradiction. }
           exists replicas, st, w, w1.
           split; [exact Hkey|]. split; [now destruct replicas|]. split.
           { intros Hself. apply list_elem_of_fmap in Hself as (n & Hid & Hn).
             assert (Hex : existsb (isLocal r) replicas = true).
             { apply existsb_exists. exists n. split; [now apply list_elem_of_In|].
               now apply isLocal_true. }
             congruence. }
           rewrite Hst in Hk. injection Hk as <-. split; [exact Hst | exact HPut].
        -- assert (Hk' : delete key st !! k = Some v) by now rewrite lookup_delete_ne.
           destruct (Hgone k v Hk' Hnone) as (Hin & Hrest).
           split; [now apply list_elem_of_further | exact Hrest].
Qed.

(** C6, as the code has it.  [keys] is the snapshot of the local keys
    that the scan walks through.  When the ring answers for each of them
    the scan ends.  However it ends, to its end or cancelled: a key of the
    store keeps its value or is gone; a key whose [Put] returned an error
    (the failure is in the log) is in the store as before; and a key that is
    gone is one for which no failure was logged and whose [Put], to a list
    of replicas that is not empty and does not hold this node, returned no
    error.  When the scan ran to its end, every key that is still in the
    local store has an empty replica list, or has this node among its
    replicas, or had its [Put] fail during the scan; and a key of the
    store whose replica list is not empty and does not hold this node, and
    for which no failure was logged, is gone from the store. *)
Theorem Rebalance_keeps_unmoved_keys (fuel : nat) (r : Router)
    (ctx : Context World) (keys : list string) (st : gmap string string)
    (w : World) :
  keys ≡ₚ kv.Keys st ->
  (forall k, k ∈ keys ->
     exists replicas,
       GetReplicasForKey fuel (ring r) k (replicationFactor r) = Done replicas) ->
  exists res,
    RebalanceLocalKeys env fuel r ctx keys st w = Done res
    /\ (forall k v, rbStore res !! k = Some v -> st !! k = Some v)
    /\ (forall k err, LogFailedMove k err ∈ rbLog res ->
          is_Some (st !! k) /\ rbStore res !! k = st !! k)
    /\ (forall k v, st !! k = Some v -> rbStore res !! k = None ->
          (forall err, LogFailedMove k err ∉ rbLog res)
          /\ exists replicas st0 w0 w1,
               GetReplicasForKey fuel (ring r) k (replicationFactor r) = Done replicas
               /\ replicas <> []
               /\ (nodeID r ∉ ID <$> replicas)
               /\ st0 !! k = Some v
               /\ Put env fuel r st0 w0 k v = Done (st0, w1, None))
    /\ (rbErr res = None ->
        forall k : string,
          (forall v, rbStore res !! k = Some v ->
             st !! k = Some v
             /\ exists replicas,
                  GetReplicasForKey fuel (ring r) k (replicationFactor r) = Done replicas
                  /\ (replicas = []
                      \/ nodeID r ∈ ID <$> replicas
                      \/ exists err, LogFailedMove k err ∈ rbLog res))
          /\ (forall replicas,
                is_Some (st !! k) ->
                GetReplicasForKey fuel (ring r) k (replicationFactor r) = Done replicas ->
                replicas <> [] ->
                nodeID r ∉ ID <$> replicas ->
                (forall err, LogFailedMove k err ∉ rbLog res) ->
                rbStore res !! k = None)
          /\ (forall err, LogFailedMove k err ∈ rbLog res ->
                is_Some (st !! k) /\ rbStore res !! k = st !! k)).
Proof.
  intros Hperm Hring.
  assert (Hnd : NoDup keys).
  { rewrite Hperm. unfold kv.Keys. apply NoDup_fst_map_to_list. }
  assert (Hin : forall k, k ∈ keys <-> is_Some (st !! k)).
  { intros k. rewrite Hperm. apply elem_of_Keys. }
  unfold RebalanceLocalKeys.
  destruct (Rebalance_loop_Done fuel r ctx keys Hring st w 0%Z 0%Z [LogStart (nodeID r)])
    as [res Hrun].
  exists res. split; [exact Hrun|].
  destruct (Rebalance_loop_any fuel r ctx keys Hnd _ _ _ _ _ _ Hrun)
    as (logA & HlogA & _ & HsubA & HfailA & HgoneA).
  assert (Hlogged : forall k err,
            LogFailedMove k err ∈ rbLog res -> LogFailedMove k err ∈ logA).
  { intros k err He. rewrite HlogA in He. apply elem_of_app in He as [He|He]; [|exact He].
    apply list_elem_of_singleton in He. discriminate. }
  split; [exact HsubA|]. split.
  { intros k err He. destruct (HfailA k err (Hlogged k err He)) as (_ & Hsome & Heq). auto. }
  split.
  { intros k v Hk Hnone. destruct (HgoneA k v Hk Hnone) as (_ & Hno & Hwhy).
    split; [|exact Hwhy]. intros err He. exact (Hno err (Hlogged k err He)). }
  intros Herr k.
  destruct (Rebalance_loop_sound fuel r ctx keys _ _ _ _ _ _ Hrun Herr)
    as (log' & Hlog & Hframe & Hsub & Hkept & Hmoved).
  destruct (Rebalance_loop_failed fuel r ctx keys Hnd _ _ _ _ _ _ Hrun Herr)
    as (log2 & Hlog2 & Hfailed).
  assert (log2 = log') by (rewrite Hlog in Hlog2; now apply app_inv_head in Hlog2).
  subst log2.
  split; [|split].
  - intros v Hv. pose proof (Hsub k v Hv) as Hst. split; [exact Hst|].
    assert (Hk : k ∈ keys) by (apply Hin; eauto).
    destruct (Hkept k v Hk Hv) as (replicas & Hreps & Hcase).
    exists replicas. split; [exact Hreps|].
    destruct Hcase as [?|[?|[err He]]]; auto.
    right. right. exists err. rewrite Hlog. apply elem_of_app. now right.
  - intros replicas Hsome Hreps Hne Hnself Hnolog.
    apply (Hmoved Hnd k replicas); auto.
    + now apply Hin.
    + intros err He. apply (Hnolog err). rewrite Hlog. apply elem_of_app. now right.
  - intros err He. rewrite Hlog in He.
    apply elem_of_app in He as [He|He].
    + apply list_elem_of_singleton in He. discriminate.
    + destruct (Hfailed k err He) as (_ & Hsome & Heq). auto.
Qed.

End Router.

(** ** The router on the example networks *)

Lemma Get_first_answer_witness :
  let r := NewRouter "node1" "localhost:8081" ringThreeNodes 3 in
  GetReplicasForKey 300 (ring r) "foo" (replicationFactor r) = Done [node2; node3; node1]
  /\ [node2; node3; node1] <> []
  /\ spec.Reads envMixed (nodeID r) storeA "foo" [node2; node3; node1] []
       ["http://localhost:8082/internal/replica/get?key=foo";
        "http://localhost:8083/internal/replica/get?key=foo"] (spec.Found "bar")
  /\ Get envMixed 300 r storeA [] "foo"
     = Done (["http://localhost:8082/internal/replica/get?key=foo";
              "http://localhost:8083/internal/replica/get?key=foo"], ("bar", true, None)).
Proof.
  intros r.
  assert (Hring : GetReplicasForKey 300 (ring r) "foo" (replicationFactor r)
                  = Done [node2; node3; node1]) by (vm_compute; reflexivity).
  assert (Hne : [node2; node3; node1] <> []) by discriminate.
  assert (Hreads : spec.Reads envMixed (nodeID r) storeA "foo" [node2; node3; node1] []
            ["http://localhost:8082/internal/replica/get?key=foo";
             "http://localhost:8083/internal/replica/get?key=foo"] (spec.Found "bar")).
  { eapply spec.reads_remote_failed; [discriminate | reflexivity |].
    eapply spec.reads_remote_value; [discriminate | reflexivity]. }
  split; [exact Hring|]. split; [exact Hne|]. split; [exact Hreads|].
  exact (proj1 (proj2 (Get_first_answer envMixed 300 r storeA [] "foo" _ Hring Hne))
           _ _ Hreads).
Defined.

Lemma Put_attempts_every_replica_witness :
  let r := NewRouter "node1" "localhost:8081" ringThreeNodes 3 in
  GetReplicasForKey 300 (ring r) "foo" (replicationFactor r) = Done [node2; node3; node1]
  /\ [node2; node3; node1] <> []
  /\ exists st' w' attempts err,
       spec.Writes envMixed (nodeID r) "foo" "v" [node2; node3; node1] storeA [] st' w' attempts
       /\ length attempts = length [node2; node3; node1]
       /\ Put envMixed 300 r storeA [] "foo" "v" = Done (st', w', err)
       /\ (is_Some err <-> exists host, spec.RemoteFailed host ∈ attempts).
Proof.
  intros r.
  assert (Hring : GetReplicasForKey 300 (ring r) "foo" (replicationFactor r)
                  = Done [node2; node3; node1]) by (vm_compute; reflexivity).
  assert (Hne : [node2; node3; node1] <> []) by discriminate.
  split; [exact Hring|]. split; [exact Hne|].
  exact (proj2 (Put_attempts_every_replica envMixed 300 r storeA [] "foo" "v" _ Hring) Hne).
Defined.

(** C5, as stated, fails on the empty ring: [Put] returns an error although
    no replica was attempted and no error was recorded for any. *)
Lemma Put_no_replicas_is_error :
  let r := NewRouter "node1" "localhost:8081" ringEmpty 3 in
  GetReplicasForKey 300 (ring r) "a" (replicationFactor r) = Done []
  /\ Put_loop envUp r "a" "1" [] kv.NewStore [] [] = (kv.NewStore, [], [])
  /\ spec.Writes envUp (nodeID r) "a" "1" [] kv.NewStore [] kv.NewStore [] []
  /\ Put envUp 300 r kv.NewStore [] "a" "1"
     = Done (kv.NewStore, [], Some "no replicas for key")
  /\ ~ (exists host, spec.RemoteFailed host ∈ ([] : list spec.Attempt)).
Proof.
  intros r. split; [vm_compute; reflexivity|]. split; [reflexivity|].
  split; [constructor|]. split; [vm_compute; reflexivity|].
  intros [host Hin]. now apply elem_of_nil in Hin.
Qed.

(** On the example network the second attempt is made although the first
    one failed, and the local store is written last. *)
Example Put_after_failure :
  let r := NewRouter "node1" "localhost:8081" ringThreeNodes 3 in
  spec.Writes envMixed (nodeID r) "foo" "v" [node2; node3; node1] storeA []
    (<["foo" := "v"]> storeA)
    ["http://localhost:8082/internal/replica/put";
     "http://localhost:8083/internal/replica/put"]
    [spec.RemoteFailed "localhost:8082"; spec.RemoteOk "localhost:8083"; spec.WroteLocal]
  /\ Put envMixed 300 r storeA [] "foo" "v"
     = Done (<["foo" := "v"]> storeA,
             ["http://localhost:8082/internal/replica/put";
              "http://localhost:8083/internal/replica/put"],
             Some "replication errors: [remote PUT to localhost:8082 failed: connection refused]").
Proof.
  intros r. split.
  - eapply spec.writes_remote_failed; [discriminate | reflexivity |].
    eapply spec.writes_remote_ok; [discriminate | reflexivity |].
    eapply spec.writes_local; [reflexivity|]. constructor.
  - vm_compute. reflexivity.
Qed.

(** Read-your-write on a single node with replication factor 1: the PUT
    is answered 200 and writes the local store, the GET that follows is
    answered 200 with the value, and no request leaves the node. *)
Example single_node_read_your_write :
  let r := NewRouter "node1" "localhost:8081" ringDefault 1 in
  api.HandlePutDistributed envDown 100 r kv.NewStore [] "alpha" "one"
  = Done (kv.Put kv.NewStore "alpha" "one", [], (200%Z, "OK"))
  /\ api.HandleGetDistributed envDown 100 r (kv.Put kv.NewStore "alpha" "one") [] "alpha"
     = Done ([], (200%Z, "one")).
Proof. split; vm_compute; reflexivity. Qed.

(** C7, as stated, fails: with the one replica unreachable the handler
    answers 404, not 502. *)
Lemma HandleGet_unreachable_is_404 :
  let r := NewRouter "node1" "localhost:8081" ringOneSlot 3 in
  GetReplicasForKey 300 (ring r) "a" (replicationFactor r) = Done [node2]
  /\ spec.OnlyFailures envDown (nodeID r) "a" [node2] []
       ["http://localhost:8082/internal/replica/get?key=a"]
  /\ exists w' body,
       api.HandleGetDistributed envDown 300 r storeA [] "a" = Done (w', (404%Z, body))
       /\ 404%Z <> api.StatusBadGateway.
Proof.
  intros r. split; [vm_compute; reflexivity|]. split.
  - eapply spec.only_failures_cons; [discriminate | reflexivity |]. constructor.
  - eexists _, _. split; [vm_compute; reflexivity | discriminate].
Qed.

Lemma HandleGet_only_failures_404_witness :
  let r := NewRouter "node1" "localhost:8081" ringOneSlot 3 in
  GetReplicasForKey 300 (ring r) "a" (replicationFactor r) = Done [node2]
  /\ [node2] <> []
  /\ spec.OnlyFailures envDown (nodeID r) "a" [node2] []
       ["http://localhost:8082/internal/replica/get?key=a"]
  /\ api.HandleGetDistributed envDown 300 r storeA [] "a"
     = Done (["http://localhost:8082/internal/replica/get?key=a"],
             api.httpError "not found" api.StatusNotFound).
Proof.
  intros r.
  assert (Hring : GetReplicasForKey 300 (ring r) "a" (replicationFactor r) = Done [node2])
    by (vm_compute; reflexivity).
  assert (Hne : [node2] <> []) by discriminate.
  assert (Hfail : spec.OnlyFailures envDown (nodeID r) "a" [node2] []
                    ["http://localhost:8082/internal/replica/get?key=a"]).
  { eapply spec.only_failures_cons; [discriminate | reflexivity |]. constructor. }
  split; [exact Hring|]. split; [exact Hne|]. split; [exact Hfail|].
  exact (proj1 (HandleGet_only_failures_404 envDown 300 r storeA [] "a" _ Hring) Hne _ Hfail).
Defined.

(** C6, as stated, fails on the empty ring: the key stays in the store,
    this node is not among its replicas (there are none), and no [Put]
    failed, because none was made. *)
Lemma Rebalance_empty_ring_keeps_key :
  let r := NewRouter "node1" "localhost:8081" ringEmpty 3 in
  exists res,
    RebalanceLocalKeys envDown 300 r ctxBackground (kv.Keys storeA) storeA [] = Done res
    /\ rbErr res = None
    /\ rbStore res !! "a" = Some "1"
    /\ GetReplicasForKey 300 (ring r) "a" (replicationFactor r) = Done []
    /\ ~ (nodeID r ∈ ID <$> ([] : list NodeInfo)
          \/ exists err, LogFailedMove "a" err ∈ rbLog res).
Proof.
  intros r. eexists. split; [vm_compute; reflexivity|]. cbn [rbErr rbStore rbLog].
  split; [reflexivity|]. split; [vm_compute; reflexivity|].
  split; [vm_compute; reflexivity|].
  intros [Hin|[err Hin]].
  - now apply elem_of_nil in Hin.
  - repeat (apply elem_of_cons in Hin as [Hin|Hin]; [discriminate|]).
    now apply elem_of_nil in Hin.
Qed.

(** A key that belongs to another node is pushed there and dropped when
    the peer answers, and kept when it does not. *)
Example Rebalance_moves_key :
  let r := NewRouter "node1" "localhost:8081" ringOneSlot 3 in
  RebalanceLocalKeys envUp 300 r ctxBackground (kv.Keys storeA) storeA []
  = Done (mkRebalanced ∅ ["http://localhost:8082/internal/replica/put"]
            [LogStart "node1"; LogFinished "node1" 1 0] None)
  /\ RebalanceLocalKeys envDown 300 r ctxBackground (kv.Keys storeA) storeA []
     = Done (mkRebalanced storeA ["http://localhost:8082/internal/replica/put"]
               [LogStart "node1";
                LogFailedMove "a"
                  "replication errors: [remote PUT to localhost:8082 failed: connection refused]";
                LogFinished "node1" 0 0] None).
Proof. split; vm_compute; reflexivity. Qed.

Lemma Rebalance_keeps_unmoved_keys_witness :
  let r := NewRouter "node1" "localhost:8081" ringOneSlot 3 in
  let st := kv.Put storeA "b" "2" in
  let ctx := mkContext (list string) (fun w => negb (length w =? 0)%nat)
               (fun _ => "context deadline exceeded") in
  kv.Keys st ≡ₚ kv.Keys st
  /\ (forall k, k ∈ kv.Keys st ->
        exists replicas,
          GetReplicasForKey 300 (ring r) k (replicationFactor r) = Done replicas)
  /\ exists res,
       RebalanceLocalKeys envDown 300 r ctx (kv.Keys st) st [] = Done res
       /\ rbErr res = Some "context deadline exceeded"
       /\ LogFailedMove "a"
            "replication errors: [remote PUT to localhost:8082 failed: connection refused]"
          ∈ rbLog res
       /\ is_Some (st !! "a")
       /\ rbStore res !! "a" = st !! "a"
       /\ forall k v, rbStore res !! k = Some v -> st !! k = Some v.
Proof.
  intros r st ctx.
  assert (Hperm : kv.Keys st ≡ₚ kv.Keys st) by reflexivity.
  assert (Hring : forall k, k ∈ kv.Keys st ->
            exists replicas,
              GetReplicasForKey 300 (ring r) k (replicationFactor r) = Done replicas).
  { intros k Hk. change (kv.Keys st) with ["a"; "b"] in Hk.
    apply elem_of_cons in Hk as [->|Hk]; [exists [node2]; vm_compute; reflexivity|].
    apply list_elem_of_singleton in Hk as ->.
    exists [node2]. vm_compute. reflexivity. }
  split; [exact Hperm|]. split; [exact Hring|].
  destruct (Rebalance_keeps_unmoved_keys envDown 300 r ctx _ st [] Hperm Hring)
    as (res & Hrun & Hsub & Hfail & _).
  assert (Hres : RebalanceLocalKeys envDown 300 r ctx (kv.Keys st) st []
                 = Done (mkRebalanced st ["http://localhost:8082/internal/replica/put"]
                           [LogStart "node1";
                            LogFailedMove "a"
                              "replication errors: [remote PUT to localhost:8082 failed: connection refused]";
                            LogCancelled]
                           (Some "context deadline exceeded")))
    by (vm_compute; reflexivity).
  rewrite Hres in Hrun. inversion Hrun as [Heq].
  exists res. rewrite <- Heq. split; [exact Hres|].
  assert (Hlog : LogFailedMove "a"
                   "replication errors: [remote PUT to localhost:8082 failed: connection refused]"
                 ∈ rbLog res).
  { rewrite <- Heq. cbn [rbLog]. apply list_elem_of_further, list_elem_of_here. }
  destruct (Hfail _ _ Hlog) as [Hsome Hsame].
  rewrite <- Heq in Hlog, Hsame, Hsub.
  split; [reflexivity|]. split; [exact Hlog|]. split; [exact Hsome|].
  split; [exact Hsame | exact Hsub].
Defined.

(** ** Reading [CLUSTER_NODES] *)

Lemma append_empty (s : string) : EmptyString +:+ s = s.
Proof. reflexivity. Qed.

Lemma append_String (c : ascii) (a s : string) :
  String c a +:+ s = String c (a +:+ s).
Proof. reflexivity. Qed.

Section Strings.

Variable sep : ascii.

Lemma cutAt_None (s : string) :
  strings.cutAt sep s = None <-> ~ spec.hasByte sep s.
Proof.
  induction s as [|c rest IH]; cbn [strings.cutAt spec.hasByte].
  - tauto.
  - destruct (decide (c = sep)) as [->|Hne].
    + split; [discriminate | tauto].
    + destruct (strings.cutAt sep rest) as [[a b]|].
      * split; [discriminate|]. intros H.
        assert (Hrest : ~ spec.hasByte sep rest) by tauto.
        apply IH in Hrest. discriminate.
      * split; [|reflexivity]. intros _ [?|?]; [congruence|]. now apply IH.
Qed.

Lemma cutAt_Some (s a b : string) :
  strings.cutAt sep s = Some (a, b) ->
  s = a +:+ String sep b /\ ~ spec.hasByte sep a.
Proof.
  revert a. induction s as [|c rest IH]; intros a; cbn [strings.cutAt].
  - discriminate.
  - destruct (decide (c = sep)) as [->|Hne].
    + intros [= <- <-]. split; [reflexivity | cbn; tauto].
    + destruct (strings.cutAt sep rest) as [[a' b']|]; [|discriminate].
      intros [= <- <-]. destruct (IH a' eq_refl) as [-> Hno].
      split; [reflexivity|]. cbn. intros [?|?]; [congruence | contradiction].
Qed.

Lemma cutAt_app (a b : string) :
  ~ spec.hasByte sep a ->
  strings.cutAt sep (a +:+ String sep b) = Some (a, b).
Proof.
  induction a as [|c a IH]; rewrite ?append_empty, ?append_String;
    cbn [strings.cutAt spec.hasByte]; intros Hno.
  - now rewrite decide_True.
  - rewrite decide_False by tauto. rewrite IH by tauto. reflexivity.
Qed.

Lemma Count_none (s : string) : ~ spec.hasByte sep s -> strings.Count s sep = 0.
Proof.
  induction s as [|c s IH]; cbn [strings.Count spec.hasByte]; intros Hno.
  - reflexivity.
  - rewrite decide_False by tauto. apply IH. tauto.
Qed.

Lemma Count_app (a b : string) :
  ~ spec.hasByte sep a ->
  strings.Count (a +:+ String sep b) sep = S (strings.Count b sep).
Proof.
  induction a as [|c a IH]; rewrite ?append_empty, ?append_String;
    cbn [strings.Count spec.hasByte]; intros Hno.
  - now rewrite decide_True.
  - rewrite decide_False by tauto. apply IH. tauto.
Qed.

Lemma Count_le_length (s : string) : strings.Count s sep <= String.length s.
Proof.
  induction s as [|c s IH]; cbn [strings.Count String.length]; [lia|].
  destruct (decide (c = sep)); lia.
Qed.

Lemma Count_join (e : string) (es : list string) :
  Forall (fun e => ~ spec.hasByte sep e) (e :: es) ->
  strings.Count (spec.joinWith sep (e :: es)) sep = length es.
Proof.
  revert e. induction es as [|e' es IH]; intros e Hno.
  - apply Count_none. now inversion Hno.
  - inversion Hno as [|? ? He Hes]; subst.
    change (spec.joinWith sep (e :: e' :: es))
      with (e +:+ String sep (spec.joinWith sep (e' :: es))).
    rewrite Count_app by assumption. rewrite IH by assumption. reflexivity.
Qed.

(** Splitting what was joined gives the entries back. *)
Lemma genSplit_loop_join (es : list string) :
  forall (e : string) (turns : nat),
    Forall (fun e => ~ spec.hasByte sep e) (e :: es) ->
    length es <= turns ->
    strings.genSplit_loop turns (spec.joinWith sep (e :: es)) sep = e :: es.
Proof.
  induction es as [|e' es IH]; intros e turns Hno Hturns.
  - inversion Hno as [|? ? He _]; subst. cbn [spec.joinWith].
    destruct turns; cbn [strings.genSplit_loop]; [reflexivity|].
    apply cutAt_None in He. now rewrite He.
  - inversion Hno as [|? ? He Hes]; subst.
    change (spec.joinWith sep (e :: e' :: es))
      with (e +:+ String sep (spec.joinWith sep (e' :: es))).
    destruct turns as [|turns]; [cbn in Hturns; lia|].
    cbn [strings.genSplit_loop]. rewrite cutAt_app by assumption.
    rewrite IH; [reflexivity | assumption | cbn in Hturns; lia].
Qed.

Lemma Split_join (e : string) (es : list string) :
  Forall (fun e => ~ spec.hasByte sep e) (e :: es) ->
  strings.Split (spec.joinWith sep (e :: es)) sep = e :: es.
Proof.
  intros Hno. unfold strings.Split, strings.genSplit.
  cbn [Z.eqb Z.ltb Z.compare].
  pose proof (Count_le_length (spec.joinWith sep (e :: es))) as Hle.
  rewrite Count_join in * by assumption.
  destruct (Z.gtb_spec (Z.of_nat (length es) + 1)
              (Z.of_nat (String.length (spec.joinWith sep (e :: es))) + 1)); [lia|].
  apply genSplit_loop_join; [assumption | lia].
Qed.

(** Every string is its pieces joined, and no piece holds the separator. *)
Lemma genSplit_loop_pieces (turns : nat) :
  forall s : string,
    strings.Count s sep <= turns ->
    spec.joinWith sep (strings.genSplit_loop turns s sep) = s
    /\ Forall (fun e => ~ spec.hasByte sep e) (strings.genSplit_loop turns s sep)
    /\ strings.genSplit_loop turns s sep <> [].
Proof.
  induction turns as [|turns IH]; intros s Hcount; cbn [strings.genSplit_loop].
  - split; [reflexivity|]. split; [|discriminate].
    constructor; [|constructor]. apply cutAt_None.
    destruct (strings.cutAt sep s) as [[a b]|] eqn:E; [|reflexivity].
    apply cutAt_Some in E as [-> Hno]. rewrite Count_app in Hcount by assumption. lia.
  - destruct (strings.cutAt sep s) as [[a b]|] eqn:E.
    + apply cutAt_Some in E as [-> Hno].
      rewrite Count_app in Hcount by assumption.
      destruct (IH b ltac:(lia)) as (Hjoin & Hall & Hne).
      split; [|split; [|discriminate]].
      * destruct (strings.genSplit_loop turns b sep) as [|p ps] eqn:Ep; [congruence|].
        change (spec.joinWith sep (a :: p :: ps))
          with (a +:+ String sep (spec.joinWith sep (p :: ps))).
        now rewrite Hjoin.
      * now constructor.
    + split; [reflexivity|]. split; [|discriminate].
      constructor; [|constructor]. now apply cutAt_None.
Qed.

Lemma Split_pieces (s : string) :
  spec.joinWith sep (strings.Split s sep) = s
  /\ Forall (fun e => ~ spec.hasByte sep e) (strings.Split s sep).
Proof.
  unfold strings.Split, strings.genSplit. cbn [Z.eqb Z.ltb Z.compare].
  pose proof (Count_le_length s) as Hle.
  destruct (Z.gtb_spec (Z.of_nat (strings.Count s sep) + 1)
              (Z.of_nat (String.length s) + 1)); [lia|].
  destruct (genSplit_loop_pieces (Z.to_nat (Z.of_nat (strings.Count s sep) + 1 - 1)) s
              ltac:(lia)) as (Hjoin & Hall & _).
  split; assumption.
Qed.

(** [SplitN(p, sep, 2)] of a string that is not empty. *)
Lemma SplitN_2 (p : string) :
  p <> EmptyString ->
  strings.SplitN p sep 2
  = match strings.cutAt sep p with
    | Some (a, b) => [a; b]
    | None => [p]
    end.
Proof.
  intros Hne. unfold strings.SplitN, strings.genSplit.
  cbn [Z.eqb Z.ltb Z.compare].
  destruct p as [|c p]; [congruence|]. cbn [String.length].
  destruct (Z.gtb_spec 2 (Z.of_nat (S (String.length p)) + 1)); [lia|].
  reflexivity.
Qed.

Lemma joinWith_empty (entries : list string) :
  spec.joinWith sep entries = EmptyString ->
  entries = [] \/ entries = [EmptyString].
Proof.
  destruct entries as [|e [|e' es]]; cbn [spec.joinWith].
  - auto.
  - intros ->. auto.
  - destruct e; discriminate.
Qed.

End Strings.

Section ParseClusterNodes.

Variable TrimSpace : string -> string.

Lemma parseEntry_blank (nodes : list NodeInfo) (p : string) :
  TrimSpace p = EmptyString -> main.parseEntry TrimSpace nodes p = nodes.
Proof. intros H. unfold main.parseEntry. rewrite H. reflexivity. Qed.

Lemma parseEntry_no_separator (nodes : list NodeInfo) (p : string) :
  ~ spec.hasByte "="%char (TrimSpace p) ->
  main.parseEntry TrimSpace nodes p = nodes.
Proof.
  intros H. unfold main.parseEntry.
  destruct (decide (TrimSpace p = "")) as [|Hne]; [reflexivity|].
  rewrite SplitN_2 by assumption.
  apply cutAt_None in H. rewrite H. reflexivity.
Qed.

Lemma parseEntry_entry (nodes : list NodeInfo) (p id host : string) :
  TrimSpace p = id +:+ String "="%char host ->
  ~ spec.hasByte "="%char id ->
  main.parseEntry TrimSpace nodes p = nodes ++ [mkNodeInfo id host].
Proof.
  intros H Hid. unfold main.parseEntry. rewrite H.
  destruct (decide (id +:+ String "="%char host = "")) as [E|Hne].
  - destruct id; discriminate.
  - rewrite SplitN_2 by assumption.
    rewrite cutAt_app by assumption. reflexivity.
Qed.

(** What one entry adds does not depend on what was collected before. *)
Lemma parseEntry_cases (p : string) :
  (forall nodes, main.parseEntry TrimSpace nodes p = nodes)
  /\ (TrimSpace p = EmptyString \/ ~ spec.hasByte "="%char (TrimSpace p))
  \/ exists id host,
       TrimSpace p = id +:+ String "="%char host
       /\ ~ spec.hasByte "="%char id
       /\ forall nodes, main.parseEntry TrimSpace nodes p = nodes ++ [mkNodeInfo id host].
Proof.
  destruct (strings.cutAt "="%char (TrimSpace p)) as [[id host]|] eqn:E.
  - right. apply cutAt_Some in E as [Heq Hid]. exists id, host.
    split; [exact Heq|]. split; [exact Hid|].
    intros nodes. now apply parseEntry_entry.
  - left. apply cutAt_None in E. split; [|now right].
    intros nodes. now apply parseEntry_no_separator.
Qed.

Lemma fold_parseEntry_app (parts : list string) (nodes : list NodeInfo) :
  fold_left (main.parseEntry TrimSpace) parts nodes
  = nodes ++ fold_left (main.parseEntry TrimSpace) parts [].
Proof.
  revert nodes. induction parts as [|p parts IH]; intros nodes; cbn [fold_left].
  - now rewrite app_nil_r.
  - rewrite IH. rewrite (IH (main.parseEntry TrimSpace [] p)).
    destruct (parseEntry_cases p) as [[Hskip _]|(id & host & _ & _ & Hadd)].
    + rewrite !Hskip. reflexivity.
    + rewrite !Hadd. cbn [app]. now rewrite <- app_assoc.
Qed.

Lemma fold_parseEntry_Parsed (entries : list string) :
  spec.Parsed TrimSpace entries (fold_left (main.parseEntry TrimSpace) entries []).
Proof.
  induction entries as [|e entries IH]; cbn [fold_left].
  - constructor.
  - rewrite fold_parseEntry_app.
    destruct (parseEntry_cases e) as [[Hskip Hwhy]|(id & host & Heq & Hid & Hadd)].
    + rewrite Hskip. cbn [app].
      destruct Hwhy as [Hblank|Hnosep].
      * now apply spec.parsed_blank.
      * now apply spec.parsed_no_separator.
    + rewrite Hadd. cbn [app]. now apply spec.parsed_entry.
Qed.

(** The entries fix the nodes. *)
Lemma Parsed_functional (entries : list string) (nodes1 nodes2 : list NodeInfo) :
  spec.Parsed TrimSpace entries nodes1 ->
  spec.Parsed TrimSpace entries nodes2 ->
  nodes1 = nodes2.
Proof.
  intros H1. revert nodes2.
  induction H1 as [|e entries nodes Hblank _ IH|e entries nodes Hnosep _ IH
                  |e entries nodes id host Heq Hid _ IH];
    intros nodes2 H2; inversion H2 as [|? ? ? Hb2|? ? ? Hn2|? ? ? id2 host2 Heq2 Hid2];
    subst; auto.
  - rewrite Hblank in Heq2. destruct id2; discriminate.
  - exfalso. apply cutAt_None in Hnosep.
    rewrite Heq2, cutAt_app in Hnosep by assumption. discriminate.
  - rewrite Hb2 in Heq. destruct id; discriminate.
  - exfalso. apply cutAt_None in Hn2.
    rewrite Heq, cutAt_app in Hn2 by assumption. discriminate.
  - assert (Hcut : Some (id, host) = Some (id2, host2)).
    { rewrite <- (cutAt_app "="%char id host Hid), <- (cutAt_app "="%char id2 host2 Hid2).
      congruence. }
    inversion Hcut; subst. f_equal. auto.
Qed.

(** C10. [parseClusterNodes] gives a list of nodes for every string.  Seen
    as entries separated by commas, the string yields, in the order of
    the entries, exactly one node for every entry that reads [id=host]
    once it is trimmed; entries that are empty once trimmed, or that
    hold no [=], are passed over.  ([TrimSpace] leaves the empty string
    empty.) *)
Theorem parseClusterNodes_entries :
  TrimSpace EmptyString = EmptyString ->
  (forall entries : list string,
      Forall (fun e => ~ spec.hasByte ","%char e) entries ->
      spec.Parsed TrimSpace entries
        (main.parseClusterNodes TrimSpace (spec.joinWith ","%char entries)))
  /\ (forall env : string,
        exists entries : list string,
          env = spec.joinWith ","%char entries
          /\ Forall (fun e => ~ spec.hasByte ","%char e) entries).
Proof.
  intros Hempty. split.
  - intros entries Hno. unfold main.parseClusterNodes.
    destruct (decide (spec.joinWith ","%char entries = "")) as [E|Hne].
    + apply joinWith_empty in E as [->| ->].
      * constructor.
      * apply spec.parsed_blank; [exact Hempty | constructor].
    + destruct entries as [|e es]; [now cbn in Hne|].
      rewrite Split_join by assumption.
      apply fold_parseEntry_Parsed.
  - intros env. exists (strings.Split env ","%char).
    destruct (Split_pieces ","%char env) as [Hjoin Hall]. auto.
Qed.

End ParseClusterNodes.

Lemma parseClusterNodes_entries_witness :
  let entries := ["node1=localhost:8081"; " node2=localhost:8082 "; "  "; "bad"; "a=b=c"] in
  strings.asciiTrimSpace EmptyString = EmptyString
  /\ Forall (fun e => ~ spec.hasByte ","%char e) entries
  /\ spec.Parsed strings.asciiTrimSpace entries
       (main.parseClusterNodes strings.asciiTrimSpace (spec.joinWith ","%char entries)).
Proof.
  intros entries.
  assert (Hempty : strings.asciiTrimSpace EmptyString = EmptyString) by reflexivity.
  assert (Hno : Forall (fun e => ~ spec.hasByte ","%char e) entries).
  { repeat constructor; cbn; intros H;
      repeat (destruct H as [H|H]; [discriminate H|]); exact H. }
  split; [exact Hempty|]. split; [exact Hno|].
  exact (proj1 (parseClusterNodes_entries strings.asciiTrimSpace Hempty) entries Hno).
Defined.

(** The nodes of the witness, computed. *)
Example parseClusterNodes_example :
  main.parseClusterNodes strings.asciiTrimSpace
    "node1=localhost:8081, node2=localhost:8082 ,  ,bad,a=b=c"
  = [mkNodeInfo "node1" "localhost:8081"; mkNodeInfo "node2" "localhost:8082";
     mkNodeInfo "a" "b=c"].
Proof. reflexivity. Qed.

(** * Further properties of the packages *)

(** ** Building and changing the ring *)

Lemma addNodeNoLock_vNodes (r : Ring) (n : NodeInfo) :
  vNodes (addNodeNoLock r n) = vNodes r.
Proof. unfold addNodeNoLock. apply addSlots_vNodes. Qed.

Lemma addNodeNoLock_hashes (r : Ring) (n : NodeInfo) :
  hashes (addNodeNoLock r n) = hashes r ++ spec.slotsOf n (vNodes r).
Proof. unfold addNodeNoLock. apply addSlots_hashes. Qed.

Lemma addNodeNoLock_owner (r : Ring) (n : NodeInfo) (h : Z) :
  hashMap (addNodeNoLock r n) !! h
  = if decide (h ∈ spec.slotsOf n (vNodes r)) then Some n else hashMap r !! h.
Proof. unfold addNodeNoLock. apply addSlots_owner. Qed.

Lemma addNodes_vNodes (nodes : list NodeInfo) (r : Ring) :
  vNodes (fold_left addNodeNoLock nodes r) = vNodes r.
Proof.
  revert r. induction nodes as [|n nodes IH]; intros r; cbn [fold_left]; [reflexivity|].
  now rewrite IH, addNodeNoLock_vNodes.
Qed.

Lemma addNodes_hashes (nodes : list NodeInfo) (r : Ring) :
  hashes (fold_left addNodeNoLock nodes r)
  = hashes r ++ flat_map (fun n => spec.slotsOf n (vNodes r)) nodes.
Proof.
  revert r. induction nodes as [|n nodes IH]; intros r; cbn [fold_left flat_map].
  - now rewrite app_nil_r.
  - rewrite IH, addNodeNoLock_hashes, addNodeNoLock_vNodes. now rewrite <- app_assoc.
Qed.

Lemma addNodes_owner (nodes : list NodeInfo) (r : Ring) (h : Z) :
  hashMap (fold_left addNodeNoLock nodes r) !! h
  = match last (filter (fun n => h ∈ spec.slotsOf n (vNodes r)) nodes) with
    | Some n => Some n
    | None => hashMap r !! h
    end.
Proof.
  revert r. induction nodes as [|n nodes IH]; intros r; cbn [fold_left].
  - reflexivity.
  - rewrite IH, addNodeNoLock_vNodes, addNodeNoLock_owner.
    destruct (decide (h ∈ spec.slotsOf n (vNodes r))) as [Hin|Hnin].
    + rewrite filter_cons_True by assumption. rewrite last_cons.
      destruct (last _); reflexivity.
    + rewrite filter_cons_False by assumption. reflexivity.
Qed.

Lemma length_slotsOf (n : NodeInfo) (v : Z) : length (spec.slotsOf n v) = Z.to_nat v.
Proof. unfold spec.slotsOf. now rewrite length_fmap, length_seq. Qed.

Lemma length_flat_map_slots (nodes : list NodeInfo) (v : Z) :
  length (flat_map (fun n => spec.slotsOf n v) nodes) = length nodes * Z.to_nat v.
Proof.
  induction nodes as [|n nodes IH]; cbn [flat_map length]; [reflexivity|].
  rewrite length_app, length_slotsOf, IH. lia.
Qed.

(** X1. The slot table of [NewRing nodes v] holds, in ascending order, the
    [v] slot hashes H("id#i") of every node of the list, each as often as
    it occurs: [length nodes * v] entries in all.  A slot hash belongs to
    the last node of the list that has it among its slots. *)
Theorem NewRing_slots (nodes : list NodeInfo) (v : Z) :
  hashes (NewRing nodes v) ≡ₚ flat_map (fun n => spec.slotsOf n v) nodes
  /\ StronglySorted Z.le (hashes (NewRing nodes v))
  /\ length (hashes (NewRing nodes v)) = length nodes * Z.to_nat v
  /\ vNodes (NewRing nodes v) = v
  /\ forall h : Z,
       hashMap (NewRing nodes v) !! h
       = last (filter (fun n => h ∈ spec.slotsOf n v) nodes).
Proof.
  assert (Hperm : hashes (NewRing nodes v) ≡ₚ flat_map (fun n => spec.slotsOf n v) nodes).
  { unfold NewRing, sortHashes. cbn [hashes].
    rewrite merge_sort_Permutation, addNodes_hashes. reflexivity. }
  split; [exact Hperm|]. split; [apply NewRing_sorted|].
  split; [rewrite Hperm; apply length_flat_map_slots|].
  split.
  - unfold NewRing, sortHashes. cbn [vNodes]. now rewrite addNodes_vNodes.
  - intros h. unfold NewRing, sortHashes. cbn [hashMap].
    rewrite addNodes_owner. cbn [vNodes hashMap].
    destruct (last _); [reflexivity | apply lookup_empty].
Qed.

(** X2. [AddNode r n] adds the slot hashes of [n] to the slot table and
    keeps it in ascending order; [n] becomes the owner of each of its slot
    hashes, also of those another node held before; every other slot hash
    keeps its owner. *)
Theorem AddNode_slots (r : Ring) (n : NodeInfo) :
  hashes (AddNode r n) ≡ₚ hashes r ++ spec.slotsOf n (vNodes r)
  /\ StronglySorted Z.le (hashes (AddNode r n))
  /\ vNodes (AddNode r n) = vNodes r
  /\ forall h : Z,
       hashMap (AddNode r n) !! h
       = if decide (h ∈ spec.slotsOf n (vNodes r)) then Some n else hashMap r !! h.
Proof.
  split; [|split; [apply AddNode_sorted|split]].
  - unfold AddNode, sortHashes. cbn [hashes].
    now rewrite merge_sort_Permutation, addNodeNoLock_hashes.
  - unfold AddNode, sortHashes. cbn [vNodes]. apply addNodeNoLock_vNodes.
  - intros h. unfold AddNode, sortHashes. cbn [hashMap]. apply addNodeNoLock_owner.
Qed.

Lemma filter_ext_in {A : Type} (P Q : A -> Prop)
    `{forall x, Decision (P x)} `{forall x, Decision (Q x)} (l : list A) :
  (forall x, x ∈ l -> (P x <-> Q x)) -> filter P l = filter Q l.
Proof.
  induction l as [|x l IH]; intros Hext; [reflexivity|].
  assert (Hl : filter P l = filter Q l).
  { apply IH. intros y Hy. apply Hext. now apply list_elem_of_further. }
  destruct (decide (P x)) as [HP|HP].
  - rewrite !filter_cons_True; [now rewrite Hl | | assumption].
    now apply (Hext x (list_elem_of_here _ _)).
  - rewrite !filter_cons_False; [exact Hl | | assumption].
    intros HQ. apply HP. now apply (Hext x (list_elem_of_here _ _)).
Qed.

(** The loop of [RemoveNode] over slots that are all different. *)
Lemma fold_removeSlot (id : NodeID) (l : list Z) :
  NoDup l ->
  forall (nh : list Z) (hm : gmap Z NodeInfo),
    (fold_left (removeSlot id) l (nh, hm)).1
    = nh ++ filter (fun h => ID (default zeroNodeInfo (hm !! h)) <> id) l
    /\ forall h,
         (fold_left (removeSlot id) l (nh, hm)).2 !! h
         = if decide (h ∈ l /\ ID (default zeroNodeInfo (hm !! h)) = id)
           then None else hm !! h.
Proof.
  induction l as [|h0 l IH]; intros Hnd nh hm; cbn [fold_left].
  - split; [now rewrite app_nil_r|]. intros h.
    rewrite decide_False; [reflexivity|]. intros [Hin _]. now apply elem_of_nil in Hin.
  - apply NoDup_cons in Hnd as [Hnin Hnd].
    unfold removeSlot at 2. unfold removeSlot at 3.
    destruct (decide (ID (default zeroNodeInfo (hm !! h0)) = id)) as [Hown|Hown].
    + destruct (IH Hnd nh (delete h0 hm)) as [Hh Hm]. split.
      * rewrite Hh. f_equal. rewrite filter_cons_False by tauto.
        apply filter_ext_in. intros x Hx.
        rewrite lookup_delete_ne; [reflexivity|]. intros ->. contradiction.
      * intros h. rewrite Hm.
        destruct (decide (h = h0)) as [->|Hne].
        -- rewrite lookup_delete_eq.
           rewrite (decide_True (P := h0 ∈ h0 :: l /\ _)).
           ++ destruct (decide _); reflexivity.
           ++ split; [apply list_elem_of_here | exact Hown].
        -- rewrite lookup_delete_ne by congruence.
           destruct (decide (h ∈ l /\ _)) as [[Hin Hid]|Hno].
           ++ rewrite decide_True; [reflexivity|].
              split; [now apply list_elem_of_further | exact Hid].
           ++ rewrite decide_False; [reflexivity|].
              intros [Hin Hid]. apply Hno. split; [|exact Hid].
              apply elem_of_cons in Hin as [?|?]; [contradiction | assumption].
    + destruct (IH Hnd (nh ++ [h0]) hm) as [Hh Hm]. split.
      * rewrite Hh, <- app_assoc. cbn [app]. f_equal.
        now rewrite filter_cons_True.
      * intros h. rewrite Hm.
        destruct (decide (h ∈ l /\ _)) as [[Hin Hid]|Hno].
        -- rewrite decide_True; [reflexivity|].
           split; [now apply list_elem_of_further | exact Hid].
        -- rewrite decide_False; [reflexivity|].
           intros [Hin Hid]. apply Hno. split; [|exact Hid].
           apply elem_of_cons in Hin as [->|?]; [contradiction | assumption].
Qed.

Lemma RemoveNode_parts (r : Ring) (id : NodeID) :
  NoDup (hashes r) ->
  vNodes (RemoveNode r id) = vNodes r
  /\ hashes (RemoveNode r id)
     = merge_sort Z.le (filter (fun h => ID (spec.owner r h) <> id) (hashes r))
  /\ forall h,
       hashMap (RemoveNode r id) !! h
       = if decide (h ∈ hashes r /\ ID (spec.owner r h) = id) then None
         else hashMap r !! h.
Proof.
  intros Hnd. unfold RemoveNode.
  destruct (fold_removeSlot id (hashes r) Hnd [] (hashMap r)) as [Hh Hm].
  destruct (fold_left (removeSlot id) (hashes r) ([], hashMap r)) as [newHashes hm].
  cbn [fst snd app] in Hh, Hm. subst newHashes.
  unfold sortHashes. cbn [vNodes hashes hashMap].
  split; [reflexivity|]. split; [reflexivity | exact Hm].
Qed.

Lemma elem_of_physicalNodes (r : Ring) (x : NodeID) :
  x ∈ spec.physicalNodes r <-> exists h n, hashMap r !! h = Some n /\ ID n = x.
Proof.
  unfold spec.physicalNodes. rewrite elem_of_list_to_set, list_elem_of_fmap. split.
  - intros (n & -> & Hn). apply list_elem_of_fmap in Hn as ([h n'] & -> & Hin).
    apply elem_of_map_to_list in Hin. eauto.
  - intros (h & n & Hn & <-). exists n. split; [reflexivity|].
    apply list_elem_of_fmap. exists (h, n). split; [reflexivity|].
    now apply elem_of_map_to_list.
Qed.

(** X3. On a ring whose slot hashes are all different, [RemoveNode r id]
    drops exactly the slots whose owner has the id [id], from the slot
    table and from the map; the other slots keep their owners and the
    table stays in ascending order.  If the two tables agreed before they
    agree after, and [id] is no longer among the physical nodes while every
    other node still is. *)
Theorem RemoveNode_slots (r : Ring) (id : NodeID) :
  NoDup (hashes r) ->
  hashes (RemoveNode r id) ≡ₚ filter (fun h => ID (spec.owner r h) <> id) (hashes r)
  /\ StronglySorted Z.le (hashes (RemoveNode r id))
  /\ vNodes (RemoveNode r id) = vNodes r
  /\ (forall h,
        hashMap (RemoveNode r id) !! h
        = if decide (h ∈ hashes r /\ ID (spec.owner r h) = id) then None
          else hashMap r !! h)
  /\ (spec.consistent r ->
      spec.consistent (RemoveNode r id)
      /\ spec.physicalNodes (RemoveNode r id) = spec.physicalNodes r ∖ {[id]}).
Proof.
  intros Hnd. destruct (RemoveNode_parts r id Hnd) as (Hv & Hh & Hm).
  split; [rewrite Hh; apply merge_sort_Permutation|].
  split; [apply RemoveNode_sorted|]. split; [exact Hv|]. split; [exact Hm|].
  intros Hr. split.
  - unfold spec.consistent. apply set_eq. intros h.
    rewrite elem_of_dom, Hm, Hh, elem_of_list_to_set, merge_sort_Permutation,
      list_elem_of_filter.
    destruct (decide (h ∈ hashes r /\ ID (spec.owner r h) = id)) as [[Hin Hid]|Hno].
    + split; [intros [? ?]; discriminate | intros [? _]; contradiction].
    + rewrite <- (consistent_slot r h Hr). split.
      * intros Hin. split; [|exact Hin]. intros Hid. apply Hno. auto.
      * intros [_ Hin]. exact Hin.
  - apply set_eq. intros x.
    rewrite elem_of_difference, elem_of_singleton, !elem_of_physicalNodes. split.
    + intros (h & n & Hn & <-). rewrite Hm in Hn.
      destruct (decide (h ∈ hashes r /\ ID (spec.owner r h) = id)) as [|Hno];
        [discriminate|].
      split; [eauto|]. intros Hid. apply Hno. split.
      * apply (consistent_slot r h Hr). eauto.
      * unfold spec.owner. now rewrite Hn.
    + intros [(h & n & Hn & <-) Hne]. exists h, n. split; [|reflexivity].
      rewrite Hm, decide_False; [exact Hn|].
      intros [_ Hid]. apply Hne. unfold spec.owner in Hid. now rewrite Hn in Hid.
Qed.

Lemma Ring_eq (r1 r2 : Ring) :
  vNodes r1 = vNodes r2 -> hashes r1 = hashes r2 -> hashMap r1 = hashMap r2 -> r1 = r2.
Proof. destruct r1, r2; cbn; congruence. Qed.

(** X4. Removing a node right after it was added gives the ring back, when
    the ring was in order, its two tables agreed, the node's id was not in
    the ring and none of the new slot hashes was already there. *)
Theorem RemoveNode_AddNode (r : Ring) (n : NodeInfo) :
  StronglySorted Z.le (hashes r) ->
  spec.consistent r ->
  NoDup (hashes r ++ spec.slotsOf n (vNodes r)) ->
  ID n ∉ spec.physicalNodes r ->
  RemoveNode (AddNode r n) (ID n) = r.
Proof.
  intros Hsorted Hr Hnd Hfresh.
  set (slots := spec.slotsOf n (vNodes r)) in *.
  assert (Hha : hashes (AddNode r n) ≡ₚ hashes r ++ slots).
  { unfold AddNode, sortHashes. cbn [hashes].
    now rewrite merge_sort_Permutation, addNodeNoLock_hashes. }
  assert (Hma : forall h, hashMap (AddNode r n) !! h
                          = if decide (h ∈ slots) then Some n else hashMap r !! h).
  { intros h. unfold AddNode, sortHashes. cbn [hashMap]. apply addNodeNoLock_owner. }
  assert (Hva : vNodes (AddNode r n) = vNodes r).
  { unfold AddNode, sortHashes. cbn [vNodes]. apply addNodeNoLock_vNodes. }
  assert (Hnda : NoDup (hashes (AddNode r n))) by now rewrite Hha.
  apply NoDup_app in Hnd as (Hndr & Hdisj & _).
  destruct (RemoveNode_parts (AddNode r n) (ID n) Hnda) as (Hv & Hh & Hm).
  assert (Hold : forall h, h ∈ hashes r ->
            (h ∉ slots) /\ spec.owner (AddNode r n) h = spec.owner r h
            /\ ID (spec.owner r h) <> ID n).
  { intros h Hin. pose proof (Hdisj h Hin) as Hns. split; [exact Hns|].
    split.
    - unfold spec.owner. now rewrite Hma, decide_False.
    - apply (consistent_slot r h Hr) in Hin as [m Hm'].
      unfold spec.owner. rewrite Hm'. cbn. intros Hid. apply Hfresh.
      apply elem_of_physicalNodes. eauto. }
  assert (Hnew : forall h, h ∈ slots -> spec.owner (AddNode r n) h = n).
  { intros h Hin. unfold spec.owner. now rewrite Hma, decide_True. }
  apply Ring_eq.
  - now rewrite Hv.
  - rewrite Hh.
    apply (StronglySorted_unique_strong Z.le).
    + intros x1 x2 _ _ H1 H2. lia.
    + apply Sorted_StronglySorted; [intros x y z; apply Z.le_trans|].
      apply Sorted_merge_sort. intros x y. apply Z.le_ge_cases.
    + exact Hsorted.
    + rewrite merge_sort_Permutation.
      apply NoDup_Permutation; [now apply NoDup_filter | exact Hndr |].
      intros h. rewrite list_elem_of_filter, Hha, elem_of_app. split.
      * intros [Hid [Hin|Hin]]; [exact Hin|].
        exfalso. apply Hid. now rewrite (Hnew h Hin).
      * intros Hin. destruct (Hold h Hin) as (_ & Heq & Hid).
        split; [now rewrite Heq | now left].
  - apply map_eq. intros h. rewrite Hm, Hma.
    destruct (decide (h ∈ slots)) as [Hs|Hs].
    + rewrite decide_True.
      * symmetry. apply eq_None_not_Some. intros Hsome.
        apply (consistent_slot r h Hr) in Hsome. now apply (Hdisj h Hsome).
      * split; [rewrite Hha; apply elem_of_app; now right | now rewrite (Hnew h Hs)].
    + rewrite decide_False; [reflexivity|].
      intros [Hin Hid]. rewrite Hha in Hin.
      apply elem_of_app in Hin as [Hin|Hin]; [|contradiction].
      destruct (Hold h Hin) as (_ & Heq & Hne). rewrite Heq in Hid. contradiction.
Qed.

Lemma RemoveNode_slots_witness :
  NoDup (hashes ringThreeNodes)
  /\ spec.consistent ringThreeNodes
  /\ StronglySorted Z.le (hashes (RemoveNode ringThreeNodes "node2"))
  /\ length (hashes (RemoveNode ringThreeNodes "node2")) = 200
  /\ spec.consistent (RemoveNode ringThreeNodes "node2")
  /\ spec.physicalNodes (RemoveNode ringThreeNodes "node2")
     = spec.physicalNodes ringThreeNodes ∖ {["node2"]}.
Proof.
  assert (Hnd : NoDup (hashes ringThreeNodes)).
  { apply (bool_decide_eq_true_1 (NoDup (hashes ringThreeNodes))). vm_compute. reflexivity. }
  assert (Hc : spec.consistent ringThreeNodes) by apply NewRing_consistent.
  destruct (RemoveNode_slots ringThreeNodes "node2" Hnd) as (_ & Hs & _ & _ & Hcons).
  destruct (Hcons Hc) as [Hc' Hp].
  split; [exact Hnd|]. split; [exact Hc|]. split; [exact Hs|].
  split; [vm_compute; reflexivity|]. split; [exact Hc' | exact Hp].
Defined.

Lemma RemoveNode_AddNode_witness :
  StronglySorted Z.le (hashes ringDefault)
  /\ spec.consistent ringDefault
  /\ NoDup (hashes ringDefault ++ spec.slotsOf node2 (vNodes ringDefault))
  /\ (ID node2 ∉ spec.physicalNodes ringDefault)
  /\ RemoveNode (AddNode ringDefault node2) (ID node2) = ringDefault.
Proof.
  assert (Hs : StronglySorted Z.le (hashes ringDefault)) by apply NewRing_sorted.
  assert (Hc : spec.consistent ringDefault) by apply NewRing_consistent.
  assert (Hnd : NoDup (hashes ringDefault ++ spec.slotsOf node2 (vNodes ringDefault))).
  { apply (bool_decide_eq_true_1
             (NoDup (hashes ringDefault ++ spec.slotsOf node2 (vNodes ringDefault)))).
    vm_compute. reflexivity. }
  assert (Hf : ID node2 ∉ spec.physicalNodes ringDefault).
  { apply (bool_decide_eq_true_1 (ID node2 ∉ spec.physicalNodes ringDefault)).
    vm_compute. reflexivity. }
  split; [exact Hs|]. split; [exact Hc|]. split; [exact Hnd|]. split; [exact Hf|].
  exact (RemoveNode_AddNode ringDefault node2 Hs Hc Hnd Hf).
Defined.

(** ** Looking up the ring *)

(** X5. [GetNodeForKey] on an empty ring answers the zero node and
    [false].  On a ring that is not empty and in ascending order it looks
    at the least slot hash that is at least the hash of the key, or at the
    least slot hash of all when there is none: it answers the node
    [hashMap] has for that hash, with [true], and the zero node with
    [false] when [hashMap] has no entry for it.  On a ring whose tables
    agree there is an entry. *)
Theorem GetNodeForKey_successor (r : Ring) (key : string) :
  (hashes r = [] -> GetNodeForKey r key = Done (zeroNodeInfo, false))
  /\ (StronglySorted Z.le (hashes r) ->
      hashes r <> [] ->
      exists h,
        spec.successor r (hashFn key) h
        /\ GetNodeForKey r key
           = Done (spec.owner r h, bool_decide (is_Some (hashMap r !! h)))
        /\ (forall n ok, GetNodeForKey r key = Done (n, ok) ->
              (ok = true <-> is_Some (hashMap r !! h))
              /\ (ok = true -> hashMap r !! h = Some n)
              /\ (ok = false -> n = zeroNodeInfo))
        /\ (spec.consistent r -> is_Some (hashMap r !! h))).
Proof.
  split.
  - intros E. unfold GetNodeForKey, getNode. now rewrite E.
  - intros Hsorted Hne.
    destruct (startIndex_first_slot r (hashFn key) Hsorted Hne) as [Hlt Hcase].
    destruct (lookup_lt_is_Some_2 (hashes r) _ Hlt) as [h Hh].
    assert (Hin : h ∈ hashes r) by (apply list_elem_of_lookup; eauto).
    assert (Hrun : GetNodeForKey r key
                   = Done (spec.owner r h, bool_decide (is_Some (hashMap r !! h)))).
    { unfold GetNodeForKey, getNode.
      destruct (Nat.eqb_spec (length (hashes r)) 0) as [E|_].
      - destruct (hashes r); [congruence | discriminate].
      - rewrite Hh. unfold spec.owner. now destruct (hashMap r !! h). }
    exists h. split; [|split; [exact Hrun|split]].
    + split; [exact Hin|].
      destruct Hcase as [[Hall Hzero]|[(x & Hx & Hle) Hbelow]].
      * right. split.
        -- intros y Hy. apply list_elem_of_lookup in Hy as [j Hj]. eauto.
        -- intros y Hy. apply list_elem_of_lookup in Hy as [j Hj].
           rewrite Hzero in Hh.
           apply (sorted_lookup_le _ Hsorted 0 j h y); [lia | assumption | assumption].
      * left. rewrite Hh in Hx. inversion Hx; subst x. split; [exact Hle|].
        intros y Hy Hxy. apply list_elem_of_lookup in Hy as [j Hj].
        destruct (Nat.lt_ge_cases j (startIndex r (hashFn key))) as [Hjlt|Hjge].
        -- pose proof (Hbelow j y Hjlt Hj). lia.
        -- apply (sorted_lookup_le _ Hsorted _ j h y Hjge Hh Hj).
    + intros n ok Hn. rewrite Hrun in Hn. injection Hn as <- <-.
      unfold spec.owner. destruct (hashMap r !! h) as [n|] eqn:Hmap; cbn.
      * split; [split; eauto|]. split; [reflexivity | discriminate].
      * split; [split; [discriminate | intros [? ?]; discriminate]|].
        split; [discriminate | reflexivity].
    + intros Hr. now apply (consistent_slot r h Hr).
Qed.

Lemma GetNodeForKey_successor_witness :
  StronglySorted Z.le (hashes ringThreeNodes)
  /\ hashes ringThreeNodes <> []
  /\ exists h,
       spec.successor ringThreeNodes (hashFn "foo") h
       /\ GetNodeForKey ringThreeNodes "foo"
          = Done (spec.owner ringThreeNodes h,
                  bool_decide (is_Some (hashMap ringThreeNodes !! h)))
       /\ (forall n ok, GetNodeForKey ringThreeNodes "foo" = Done (n, ok) ->
             (ok = true <-> is_Some (hashMap ringThreeNodes !! h))
             /\ (ok = true -> hashMap ringThreeNodes !! h = Some n)
             /\ (ok = false -> n = zeroNodeInfo))
       /\ (spec.consistent ringThreeNodes -> is_Some (hashMap ringThreeNodes !! h)).
Proof.
  assert (Hs : StronglySorted Z.le (hashes ringThreeNodes)) by apply NewRing_sorted.
  assert (Hne : hashes ringThreeNodes <> []) by (vm_compute; discriminate).
  split; [exact Hs|]. split; [exact Hne|].
  exact (proj2 (GetNodeForKey_successor ringThreeNodes "foo") Hs Hne).
Defined.

(** The answers on the ring of the three nodes, and on a ring whose one
    slot has no entry in [hashMap]. *)
Example GetNodeForKey_examples :
  GetNodeForKey ringThreeNodes "foo" = Done (node2, true)
  /\ GetNodeForKey (mkRing 1 [5%Z] ∅) "foo" = Done (zeroNodeInfo, false).
Proof. split; vm_compute; reflexivity. Qed.

Lemma walk_no_panic (r : Ring) (rFactor : Z) (fuel : nat) :
  forall idx replicas seen,
    idx < length (hashes r) ->
    walk fuel r rFactor idx replicas seen <> Panic.
Proof.
  induction fuel as [|fuel IH]; intros idx replicas seen Hidx; cbn [walk].
  - destruct (_ <? _)%Z; discriminate.
  - destruct (_ <? _)%Z; [|discriminate].
    destruct (lookup_lt_is_Some_2 (hashes r) idx Hidx) as [hash Hhash]. rewrite Hhash.
    assert (Hidx1 : (idx + 1) mod length (hashes r) < length (hashes r))
      by (apply Nat.mod_upper_bound; lia).
    destruct (decide _); (destruct (_ =? _)%nat; [discriminate | now apply IH]).
Qed.

Lemma GetReplicasForKey_no_panic (fuel : nat) (r : Ring) (key : string) (rFactor : Z) :
  GetReplicasForKey fuel r key rFactor <> Panic.
Proof.
  unfold GetReplicasForKey.
  destruct (Nat.eqb_spec (length (hashes r)) 0) as [E|Hne]; [discriminate|].
  destruct (rFactor <=? 0)%Z; [discriminate|]. cbn [orb].
  apply walk_no_panic, startIndex_lt. intros E. rewrite E in Hne. now cbn in Hne.
Qed.

Lemma Rebalance_loop_no_panic {World : Type} (env : Env World) (fuel : nat)
    (r : Router) (ctx : Context World) (keys : list string) :
  forall st w moved kept log,
    Rebalance_loop env fuel r ctx keys st w moved kept log <> Panic.
Proof.
  induction keys as [|key rest IH]; intros st w moved kept log; cbn [Rebalance_loop].
  - discriminate.
  - destruct (ctxDone ctx w); [discriminate|].
    destruct (kv.Get st key) as [val ok]. destruct ok; cbn [negb]; [|apply IH].
    pose proof (GetReplicasForKey_no_panic fuel (ring r) key (replicationFactor r)) as Hnp.
    destruct (GetReplicasForKey fuel (ring r) key (replicationFactor r))
      as [replicas| |] eqn:Hkey; [|congruence|discriminate].
    destruct (length replicas =? 0)%nat; [apply IH|].
    destruct (existsb (isLocal r) replicas); [apply IH|].
    destruct (Put_Done env fuel r st w key val replicas Hkey) as (st1 & w1 & err & HPut & _).
    rewrite HPut. destruct err; apply IH.
Qed.

(** X6. No read of the slot table is ever out of range, whatever the state
    of the ring: neither the two lookups of the ring nor the operations of
    the router that call them can panic. *)
Theorem ring_reads_never_panic (fuel : nat) (r : Ring) (key : string) (rFactor : Z) :
  GetReplicasForKey fuel r key rFactor <> Panic
  /\ GetNodeForKey r key <> Panic
  /\ forall (World : Type) (env : Env World) (rt : Router) (st : gmap string string)
       (w : World) (value : string) (ctx : Context World) (keys : list string),
       Put env fuel rt st w key value <> Panic
       /\ Get env fuel rt st w key <> Panic
       /\ Delete env fuel rt st w key <> Panic
       /\ RebalanceLocalKeys env fuel rt ctx keys st w <> Panic.
Proof.
  split; [apply GetReplicasForKey_no_panic|]. split.
  - unfold GetNodeForKey, getNode.
    destruct (Nat.eqb_spec (length (hashes r)) 0) as [E|Hne]; [discriminate|].
    assert (Hne' : hashes r <> []) by (intros E; rewrite E in Hne; now cbn in Hne).
    destruct (lookup_lt_is_Some_2 (hashes r) _ (startIndex_lt r (hashFn key) Hne'))
      as [h Hh].
    rewrite Hh. destruct (hashMap r !! h); discriminate.
  - intros World env rt st w value ctx keys.
    pose proof (GetReplicasForKey_no_panic fuel (ring rt) key (replicationFactor rt)) as Hnp.
    repeat split.
    + unfold Put.
      destruct (GetReplicasForKey fuel (ring rt) key (replicationFactor rt));
        [|congruence|discriminate]. cbn.
      destruct (_ =? _)%nat; [discriminate|].
      destruct (Put_loop _ _ _ _ _ _ _ _) as [[? ?] errs].
      destruct errs; discriminate.
    + unfold Get.
      destruct (GetReplicasForKey fuel (ring rt) key (replicationFactor rt));
        [|congruence|discriminate]. cbn.
      destruct (_ =? _)%nat; discriminate.
    + unfold Delete.
      destruct (GetReplicasForKey fuel (ring rt) key (replicationFactor rt));
        [|congruence|discriminate]. cbn.
      destruct (_ =? _)%nat; [discriminate|].
      destruct (Delete_loop _ _ _ _ _ _ _) as [[? ?] errs].
      destruct errs; discriminate.
    + apply Rebalance_loop_no_panic.
Qed.

(** What the walk hands back, on any ring: the nodes it had, then owners of
    slots with ids not met before, up to the factor. *)
Lemma walk_result (r : Ring) (rFactor : Z) (fuel : nat) :
  forall idx replicas l,
    NoDup (ID <$> replicas) ->
    Forall (spec.ownsSlot r) replicas ->
    walk fuel r rFactor idx replicas (list_to_set (ID <$> replicas)) = Done l ->
    NoDup (ID <$> l)
    /\ Forall (spec.ownsSlot r) l
    /\ replicas `prefix_of` l
    /\ (Z.of_nat (length l) <= Z.max rFactor (Z.of_nat (length replicas)))%Z.
Proof.
  induction fuel as [|fuel IH]; intros idx replicas l Hnd Hown Hrun; cbn [walk] in Hrun.
  - destruct (Z.ltb_spec (Z.of_nat (length replicas)) rFactor); [discriminate|].
    inversion Hrun; subst. repeat split; auto. lia.
  - destruct (Z.ltb_spec (Z.of_nat (length replicas)) rFactor) as [Hlt|Hge].
    2:{ inversion Hrun; subst. repeat split; auto. lia. }
    destruct (hashes r !! idx) as [hash|] eqn:Hhash; [|discriminate].
    fold (spec.owner r hash) in Hrun.
    destruct (decide (ID (spec.owner r hash) ∈ list_to_set (ID <$> replicas)))
      as [Hin|Hnin].
    + destruct (_ =? _)%nat.
      * inversion Hrun; subst. repeat split; auto. lia.
      * now apply IH in Hrun.
    + assert (Hnd1 : NoDup (ID <$> replicas ++ [spec.owner r hash])).
      { rewrite fmap_app. apply NoDup_app. split; [exact Hnd|]. split.
        - intros x Hx [->|Hnil]%elem_of_cons.
          + apply Hnin. now apply elem_of_list_to_set.
          + now apply elem_of_nil in Hnil.
        - apply NoDup_singleton. }
      assert (Hown1 : Forall (spec.ownsSlot r) (replicas ++ [spec.owner r hash])).
      { apply Forall_app. split; [exact Hown|]. constructor; [|constructor].
        exists hash. split; [|reflexivity]. apply list_elem_of_lookup. eauto. }
      assert (Hset : ({[ID (spec.owner r hash)]} ∪ list_to_set (ID <$> replicas) : gset NodeID)
                     = list_to_set (ID <$> replicas ++ [spec.owner r hash])).
      { rewrite fmap_app.
        change (ID <$> [spec.owner r hash]) with [ID (spec.owner r hash)].
        rewrite list_to_set_snoc_L. apply union_comm_L. }
      rewrite Hset in Hrun.
      destruct (_ =? _)%nat.
      * inversion Hrun; subst. split; [exact Hnd1|]. split; [exact Hown1|].
        split; [now apply prefix_app_r|]. rewrite length_app. cbn. lia.
      * apply IH in Hrun as (H1 & H2 & H3 & H4); auto.
        split; [exact H1|]. split; [exact H2|]. split.
        -- etransitivity; [|exact H3]. now apply prefix_app_r.
        -- rewrite length_app in H4. cbn in H4. lia.
Qed.

(** A lookup that returns on a ring with slots, for a positive factor,
    starts its list with the owner of the start slot. *)
Lemma GetReplicasForKey_head (fuel : nat) (r : Ring) (key : string) (rFactor : Z)
    (l : list NodeInfo) :
  hashes r <> [] ->
  (0 < rFactor)%Z ->
  GetReplicasForKey fuel r key rFactor = Done l ->
  exists h l',
    hashes r !! startIndex r (hashFn key) = Some h
    /\ l = spec.owner r h :: l'
    /\ NoDup (ID <$> l)
    /\ Forall (spec.ownsSlot r) l
    /\ (Z.of_nat (length l) <= Z.min rFactor (Z.of_nat (length (hashes r))))%Z.
Proof.
  intros Hne' Hgt. unfold GetReplicasForKey. intros Hrun.
  destruct (Nat.eqb_spec (length (hashes r)) 0) as [E|Hne].
  { destruct (hashes r); [congruence | discriminate]. }
  destruct (Z.leb_spec rFactor 0) as [Hle|_]; [lia|].
  cbn [orb] in Hrun.
  set (rFactor1 := if (rFactor >? Z.of_nat (length (hashes r)))%Z
                   then Z.of_nat (length (hashes r)) else rFactor) in *.
  assert (Hr1 : (1 <= rFactor1)%Z
                /\ rFactor1 = Z.min rFactor (Z.of_nat (length (hashes r)))).
  { unfold rFactor1. destruct (Z.gtb_spec rFactor (Z.of_nat (length (hashes r)))); lia. }
  pose proof (startIndex_lt r (hashFn key) Hne') as Hidx.
  destruct (lookup_lt_is_Some_2 (hashes r) _ Hidx) as [h Hh].
  destruct fuel as [|fuel]; cbn [walk length] in Hrun.
  { destruct (Z.ltb_spec (Z.of_nat 0) rFactor1); [discriminate | lia]. }
  destruct (Z.ltb_spec (Z.of_nat 0) rFactor1); [|lia].
  rewrite Hh in Hrun. fold (spec.owner r h) in Hrun.
  rewrite decide_False in Hrun by apply not_elem_of_empty.
  cbn [app] in Hrun.
  assert (Hown1 : Forall (spec.ownsSlot r) [spec.owner r h]).
  { constructor; [|constructor]. exists h. split; [|reflexivity].
    apply list_elem_of_lookup. eauto. }
  assert (Hnd1 : NoDup (ID <$> [spec.owner r h])) by apply NoDup_singleton.
  assert (Hfirst : [spec.owner r h] `prefix_of` l
                   /\ NoDup (ID <$> l) /\ Forall (spec.ownsSlot r) l
                   /\ (Z.of_nat (length l) <= rFactor1)%Z).
  { destruct (_ =? _)%nat.
    - inversion Hrun; subst. repeat split; auto. cbn. lia.
    - assert (Hset : ({[ID (spec.owner r h)]} ∪ ∅ : gset NodeID)
                     = list_to_set (ID <$> [spec.owner r h])).
      { cbn. reflexivity. }
      rewrite Hset in Hrun.
      apply walk_result in Hrun as (H1 & H2 & H3 & H4); auto.
      repeat split; auto. cbn in H4. lia. }
  destruct Hfirst as ([l' ->] & Hnd & Hown & Hlen).
  exists h, l'. split; [exact Hh|]. split; [reflexivity|].
  split; [exact Hnd|]. split; [exact Hown|]. lia.
Qed.

(** X7. Whatever the state of the ring, a list that [GetReplicasForKey]
    returns has no id twice, holds only owners of slots, and has at most
    [rFactor] and at most as many entries as there are slots.  It is empty
    exactly when the ring is empty or [rFactor <= 0]; otherwise its first
    entry is the node [GetNodeForKey] answers for the key. *)
Theorem GetReplicasForKey_result (fuel : nat) (r : Ring) (key : string) (rFactor : Z)
    (l : list NodeInfo) :
  GetReplicasForKey fuel r key rFactor = Done l ->
  NoDup (ID <$> l)
  /\ Forall (spec.ownsSlot r) l
  /\ (Z.of_nat (length l) <= Z.max 0 rFactor)%Z
  /\ length l <= length (hashes r)
  /\ (l = [] <-> hashes r = [] \/ (rFactor <= 0)%Z)
  /\ (forall x l', l = x :: l' -> exists ok, GetNodeForKey r key = Done (x, ok)).
Proof.
  intros Hrun.
  destruct (decide (hashes r = [])) as [E|Hne].
  { unfold GetReplicasForKey in Hrun. rewrite E in Hrun. cbn in Hrun.
    inversion Hrun; subst.
    split; [apply NoDup_nil_2|]. split; [constructor|].
    split; [cbn; lia|]. split; [cbn; lia|].
    split; [split; auto|]. intros x l' Hl; discriminate. }
  destruct (Z.leb_spec rFactor 0) as [Hle|Hgt].
  { unfold GetReplicasForKey in Hrun.
    rewrite (proj2 (Z.leb_le rFactor 0) Hle), orb_true_r in Hrun.
    inversion Hrun; subst.
    split; [apply NoDup_nil_2|]. split; [constructor|].
    split; [cbn; lia|]. split; [cbn; lia|].
    split; [split; auto|]. intros x l' Hl; discriminate. }
  destruct (GetReplicasForKey_head fuel r key rFactor l Hne Hgt Hrun)
    as (h & l' & Hh & -> & Hnd & Hown & Hlen).
  split; [exact Hnd|]. split; [exact Hown|]. split; [lia|]. split; [lia|]. split.
  - split; [discriminate|]. intros [?|?]; [contradiction | lia].
  - intros x l'' [= <- _].
    unfold GetNodeForKey, getNode.
    destruct (Nat.eqb_spec (length (hashes r)) 0) as [E|_].
    { destruct (hashes r); [congruence | discriminate]. }
    rewrite Hh. unfold spec.owner.
    destruct (hashMap r !! h); cbn; eauto.
Qed.

Lemma GetReplicasForKey_result_witness :
  GetReplicasForKey 300 ringThreeNodes "foo" 2 = Done [node2; node3]
  /\ NoDup (ID <$> [node2; node3])
  /\ Forall (spec.ownsSlot ringThreeNodes) [node2; node3]
  /\ exists ok, GetNodeForKey ringThreeNodes "foo" = Done (node2, ok).
Proof.
  assert (Hrun : GetReplicasForKey 300 ringThreeNodes "foo" 2 = Done [node2; node3])
    by (vm_compute; reflexivity).
  destruct (GetReplicasForKey_result 300 ringThreeNodes "foo" 2 _ Hrun)
    as (Hnd & Hown & _ & _ & _ & Hhead).
  split; [exact Hrun|]. split; [exact Hnd|]. split; [exact Hown|].
  exact (Hhead node2 [node3] eq_refl).
Defined.

Lemma GetReplicasForKey_consistent_witness :
  spec.consistent ringThreeNodes
  /\ hashes ringThreeNodes <> []
  /\ (1 <= 3)%Z
  /\ (3 <= Z.of_nat (size (spec.physicalNodes ringThreeNodes)))%Z
  /\ exists l,
       (forall fuel, length (hashes ringThreeNodes) <= fuel ->
          GetReplicasForKey fuel ringThreeNodes "foo" 3 = Done l)
       /\ Z.of_nat (length l)
          = Z.min 3 (Z.of_nat (size (spec.physicalNodes ringThreeNodes)))
       /\ NoDup (ID <$> l).
Proof.
  assert (Hc : spec.consistent ringThreeNodes) by apply NewRing_consistent.
  assert (Hne : hashes ringThreeNodes <> []) by (vm_compute; discriminate).
  assert (H1 : (1 <= 3)%Z) by lia.
  assert (Hd : (3 <= Z.of_nat (size (spec.physicalNodes ringThreeNodes)))%Z)
    by (apply Z.leb_le; vm_compute; reflexivity).
  split; [exact Hc|]. split; [exact Hne|]. split; [exact H1|]. split; [exact Hd|].
  exact (proj1 (GetReplicasForKey_consistent ringThreeNodes "foo" 3 Hc Hne H1)
           (or_introl Hd)).
Defined.

Lemma GetReplicasForKey_single_node_factor_1_witness :
  (1 <= 100)%Z
  /\ Z.to_nat 100 <= 100
  /\ GetReplicasForKey 100 (NewRing [node3] 100) "foo" 1 = Done [node3]
  /\ GetNodeForKey (NewRing [node3] 100) "foo" = Done (node3, true).
Proof.
  assert (H1 : (1 <= 100)%Z) by lia.
  assert (H2 : Z.to_nat 100 <= 100) by (cbn; lia).
  split; [exact H1|]. split; [exact H2|].
  exact (GetReplicasForKey_single_node_factor_1 node3 100 "foo" 100 H1 H2).
Defined.

(** ** The hash, further *)

Lemma list_byte_of_string_app (a b : string) :
  list_byte_of_string (a +:+ b) = list_byte_of_string a ++ list_byte_of_string b.
Proof.
  induction a as [|c a IH].
  - now rewrite append_empty.
  - rewrite append_String. unfold list_byte_of_string in *.
    cbn [list_ascii_of_string List.map app]. now rewrite IH.
Qed.

Lemma append_assoc (a b c : string) : (a +:+ b) +:+ c = a +:+ (b +:+ c).
Proof.
  induction a as [|x a IH].
  - now rewrite !append_empty.
  - rewrite !append_String. now rewrite IH.
Qed.

Lemma lxor_range (a b : Z) :
  (0 <= a < 2 ^ 32)%Z -> (0 <= b < 2 ^ 32)%Z -> (0 <= Z.lxor a b < 2 ^ 32)%Z.
Proof.
  intros Ha Hb.
  assert (Hnn : (0 <= Z.lxor a b)%Z) by (apply Z.lxor_nonneg; lia).
  split; [exact Hnn|].
  destruct (Z.eq_dec (Z.lxor a b) 0%Z) as [Hz|Hne]; [rewrite Hz; lia|].
  apply Z.log2_lt_pow2; [lia|].
  pose proof (Z.log2_lxor a b ltac:(lia) ltac:(lia)) as Hlog.
  assert (Hla : (Z.log2 a < 32)%Z).
  { destruct (Z.eq_dec a 0%Z) as [->|?]; [cbn; lia|]. apply Z.log2_lt_pow2; lia. }
  assert (Hlb : (Z.log2 b < 32)%Z).
  { destruct (Z.eq_dec b 0%Z) as [->|?]; [cbn; lia|]. apply Z.log2_lt_pow2; lia. }
  lia.
Qed.

Lemma byte_range (c : Byte.byte) : (0 <= Z.of_N (Byte.to_N c) < 2 ^ 32)%Z.
Proof. pose proof (Byte.to_N_bounded c). lia. Qed.

(** Multiplying by the odd prime is one-to-one modulo [2^32]. *)
Lemma prime32_injective (x y : Z) :
  (0 <= x < 2 ^ 32)%Z -> (0 <= y < 2 ^ 32)%Z ->
  ((x * 16777619) mod 2 ^ 32 = (y * 16777619) mod 2 ^ 32)%Z -> x = y.
Proof.
  intros Hx Hy Heq.
  assert (Hdiv : (2 ^ 32 | (x - y) * 16777619)%Z).
  { apply Z.mod_divide; [lia|].
    rewrite Z.mul_sub_distr_r, Zminus_mod, Heq, Z.sub_diag. reflexivity. }
  rewrite Z.mul_comm in Hdiv.
  apply Z.gauss in Hdiv; [|vm_compute; reflexivity].
  destruct Hdiv as [q Hq].
  assert (q = 0%Z) by nia. lia.
Qed.

Lemma fnv1a_round_range (h : Z) (c : Byte.byte) :
  (0 <= spec.fnv1a_round h c < 2 ^ 32)%Z.
Proof. unfold spec.fnv1a_round. apply Z.mod_pos_bound. lia. Qed.

(** One round is one-to-one in the state and in the byte. *)
Lemma fnv1a_round_injective (h1 h2 : Z) (c1 c2 : Byte.byte) :
  (0 <= h1 < 2 ^ 32)%Z -> (0 <= h2 < 2 ^ 32)%Z ->
  spec.fnv1a_round h1 c1 = spec.fnv1a_round h2 c2 ->
  Z.lxor h1 (Z.of_N (Byte.to_N c1)) = Z.lxor h2 (Z.of_N (Byte.to_N c2)).
Proof.
  intros H1 H2 Heq. unfold spec.fnv1a_round in Heq.
  apply prime32_injective in Heq; [exact Heq| |];
    apply lxor_range; auto using byte_range.
Qed.

Lemma lxor_cancel_l (a x y : Z) : Z.lxor a x = Z.lxor a y -> x = y.
Proof.
  intros H. apply (f_equal (Z.lxor a)) in H.
  now rewrite <- !Z.lxor_assoc, Z.lxor_nilpotent, !Z.lxor_0_l in H.
Qed.

Lemma lxor_cancel_r (a b x : Z) : Z.lxor a x = Z.lxor b x -> a = b.
Proof. rewrite !(Z.lxor_comm _ x). apply lxor_cancel_l. Qed.

Lemma fold_round_injective (data : list Byte.byte) (h1 h2 : Z) :
  (0 <= h1 < 2 ^ 32)%Z -> (0 <= h2 < 2 ^ 32)%Z ->
  fold_left spec.fnv1a_round data h1 = fold_left spec.fnv1a_round data h2 ->
  h1 = h2.
Proof.
  revert h1 h2. induction data as [|c rest IH]; intros h1 h2 H1 H2 Heq;
    cbn [fold_left] in Heq.
  - exact Heq.
  - apply IH in Heq; try apply fnv1a_round_range.
    apply fnv1a_round_injective in Heq; auto.
    now apply lxor_cancel_r in Heq.
Qed.

Lemma hashFn_app_byte (s : string) (c : ascii) (t : string) :
  hashFn (s +:+ String c t)
  = fold_left spec.fnv1a_round (list_byte_of_string t)
      (spec.fnv1a_round (hashFn s) (byte_of_ascii c)).
Proof.
  rewrite !hashFn_spec. unfold spec.FNV1a_32.
  rewrite list_byte_of_string_app, fold_left_app. reflexivity.
Qed.

Lemma hashFn_differs (s : string) (c1 c2 : ascii) (t : string) :
  c1 <> c2 -> hashFn (s +:+ String c1 t) <> hashFn (s +:+ String c2 t).
Proof.
  intros Hne Heq. rewrite !hashFn_app_byte in Heq.
  apply fold_round_injective in Heq; try apply fnv1a_round_range.
  apply fnv1a_round_injective in Heq; try apply hashFn_range.
  apply lxor_cancel_l, N2Z.inj in Heq.
  apply (f_equal Byte.of_N) in Heq. rewrite !Byte.of_to_N in Heq.
  injection Heq as Heq.
  apply Hne. rewrite <- (ascii_of_byte_of_ascii c1), <- (ascii_of_byte_of_ascii c2).
  now rewrite Heq.
Qed.

(** X10. Two keys that differ in exactly one byte never have the same
    hash: each round of the hash is one-to-one in the state and in the
    byte (the multiplier is odd).  So the slots [id#0] and [id#1] of a
    node are two different positions of the ring, whatever the id. *)
Theorem hashFn_one_byte (s t : string) (c1 c2 : ascii) (n : NodeInfo) :
  (c1 <> c2 -> hashFn (s +:+ String c1 t) <> hashFn (s +:+ String c2 t))
  /\ hashFn (vKey n 0) <> hashFn (vKey n 1).
Proof.
  split; [apply hashFn_differs|].
  unfold vKey.
  change (NilZero.string_of_uint (Nat.to_uint 0)) with (String "0" "").
  change (NilZero.string_of_uint (Nat.to_uint 1)) with (String "1" "").
  rewrite <- !append_assoc.
  apply hashFn_differs. discriminate.
Qed.

(** ** The local store, further *)

Lemma Get_ok (s : gmap string string) (k : string) :
  (kv.Get s k).2 = true <-> is_Some (s !! k).
Proof.
  unfold kv.Get. destruct (s !! k); cbn; split; intros H; eauto; try discriminate.
  destruct H; discriminate.
Qed.

(** X11. [Keys] lists every key of the store once: no key twice, as many
    keys as the store has entries, and a key is listed exactly when [Get]
    finds it.  A new store has no keys; after [Delete k] the keys are the
    former ones without [k]; after [Put k v] they are the former ones, with
    [k] added when it was not there. *)
Theorem Keys_enumerates (s : gmap string string) (k v : string) :
  NoDup (kv.Keys s)
  /\ length (kv.Keys s) = size s
  /\ (forall k', k' ∈ kv.Keys s <-> (kv.Get s k').2 = true)
  /\ kv.Keys kv.NewStore = []
  /\ kv.Keys (kv.Delete s k) ≡ₚ filter (fun k' => k' <> k) (kv.Keys s)
  /\ kv.Keys (kv.Put s k v) ≡ₚ (if (kv.Get s k).2 then kv.Keys s else k :: kv.Keys s).
Proof.
  assert (Hnd : forall m : gmap string string, NoDup (kv.Keys m))
    by (intros m; apply NoDup_fst_map_to_list).
  split; [apply Hnd|]. split.
  { unfold kv.Keys. now rewrite length_fmap, length_map_to_list. }
  split.
  { intros k'. rewrite Get_ok. apply elem_of_Keys. }
  split.
  { unfold kv.Keys, kv.NewStore. now rewrite map_to_list_empty. }
  split.
  - apply NoDup_Permutation; [apply Hnd | apply NoDup_filter, Hnd |].
    intros k'. rewrite list_elem_of_filter, !elem_of_Keys. unfold kv.Delete.
    rewrite lookup_delete_is_Some. split; intros [H1 H2]; split; auto.
  - destruct ((kv.Get s k).2) eqn:Hk.
    + apply Get_ok in Hk.
      apply NoDup_Permutation; [apply Hnd | apply Hnd |].
      intros k'. rewrite !elem_of_Keys. unfold kv.Put.
      rewrite lookup_insert_is_Some. split.
      * intros [<-|[_ H]]; auto.
      * intros H. destruct (decide (k = k')); auto.
    + assert (Hnone : ~ is_Some (s !! k)).
      { intros H. apply Get_ok in H. congruence. }
      apply NoDup_Permutation; [apply Hnd | |].
      * apply NoDup_cons. split; [|apply Hnd]. now rewrite elem_of_Keys.
      * intros k'. rewrite elem_of_cons, !elem_of_Keys. unfold kv.Put.
        rewrite lookup_insert_is_Some. split.
        -- intros [<-|[_ H]]; auto.
        -- intros [->|H]; auto. destruct (decide (k = k')); auto.
Qed.

(** X12. How the operations of the store compose.  A second [Put] of a
    key replaces the first; a [Delete] undoes a [Put] of a key that was not
    there, and removes the key whatever was put; deleting twice is
    deleting once; deleting a key the store does not hold, and putting the
    value it already holds, change nothing; operations on two different
    keys can be swapped. *)
Theorem Store_laws (s : gmap string string) (k k' v v' : string) :
  kv.Put (kv.Put s k v) k v' = kv.Put s k v'
  /\ kv.Delete (kv.Put s k v) k = kv.Delete s k
  /\ kv.Put (kv.Delete s k) k v = kv.Put s k v
  /\ kv.Delete (kv.Delete s k) k = kv.Delete s k
  /\ ((kv.Get s k).2 = false -> kv.Delete s k = s /\ kv.Delete (kv.Put s k v) k = s)
  /\ (kv.Get s k = (v, true) -> kv.Put s k v = s)
  /\ (k <> k' ->
      kv.Put (kv.Put s k v) k' v' = kv.Put (kv.Put s k' v') k v
      /\ kv.Delete (kv.Put s k v) k' = kv.Put (kv.Delete s k') k v
      /\ kv.Delete (kv.Delete s k) k' = kv.Delete (kv.Delete s k') k).
Proof.
  unfold kv.Put, kv.Delete, kv.Get.
  split; [apply insert_insert_eq|].
  split; [apply delete_insert_eq|].
  split; [apply insert_delete_eq|].
  split; [apply delete_delete_eq|].
  split.
  { destruct (s !! k) eqn:Hk; cbn; [discriminate|]. intros _.
    rewrite delete_insert_eq. split; now apply delete_id. }
  split.
  { destruct (s !! k) eqn:Hk; [|discriminate]. intros [= ->].
    now apply insert_id. }
  intros Hne.
  split; [now apply insert_insert_ne|].
  split; [now apply delete_insert_ne|].
  apply delete_delete.
Qed.

(** ** The router, further *)

Section RouterFanOut.

Context {World : Type} (env : cluster.Env World).

(** The loop of [Put] writes the local store when this node is among the
    replicas, and only then. *)
Lemma Put_loop_store (r : Router) (key value : string) (replicas : list NodeInfo)
    (st : gmap string string) (w : World) (errs : list string) :
  (Put_loop env r key value replicas st w errs).1.1
  = if existsb (isLocal r) replicas then kv.Put st key value else st.
Proof.
  revert st w errs. induction replicas as [|n rest IH]; intros st w errs;
    cbn [Put_loop existsb].
  - reflexivity.
  - destruct (isLocal r n); cbn [orb].
    + rewrite IH. destruct (existsb (isLocal r) rest); [|reflexivity].
      unfold kv.Put. apply insert_insert_eq.
    + destruct (httpPost env w _ _) as [w1 [msg|status body]]; [apply IH|].
      destruct (300 <=? status)%Z; apply IH.
Qed.








(** [Get] never makes an error of its own in the loop. *)
Lemma Get_loop_no_error (r : Router) (key : string) (replicas : list NodeInfo)
    (st : gmap string string) (w : World) :
  (Get_loop env r key replicas st w).2.2 = None.
Proof.
  revert w. induction replicas as [|n rest IH]; intros w; cbn [Get_loop].
  - reflexivity.
  - destruct (isLocal r n).
    + destruct (kv.Get st key) as [val [|]]; [reflexivity | apply IH].
    + destruct (urlWithKey env _ key); [|apply IH].
      destruct (httpGet env w _) as [w1 [msg|status body]]; [apply IH|].
      destruct (status =? 404)%Z; [apply IH|].
      destruct (300 <=? status)%Z; [apply IH | reflexivity].
Qed.

(** X15. For a router made by [NewRouter], whose replication factor is at
    least 1 whatever was asked for, the error "no replicas for key" means
    that the ring has no slot: on a ring without slots [Get], [Put] and
    [Delete] return it at once and touch neither store nor network; on a
    ring with slots [Get] returns no error at all, and [Put] and [Delete]
    never return this one. *)
Theorem no_replicas_error (fuel : nat) (id : NodeID) (host : string) (rg : Ring)
    (rf : Z) (st : gmap string string) (w : World) (key value : string) :
  (1 <= replicationFactor (NewRouter id host rg rf))%Z
  /\ (hashes rg = [] ->
      Get env fuel (NewRouter id host rg rf) st w key
      = Done (w, ("", false, Some "no replicas for key"))
      /\ Put env fuel (NewRouter id host rg rf) st w key value
         = Done (st, w, Some "no replicas for key")
      /\ Delete env fuel (NewRouter id host rg rf) st w key
         = Done (st, w, Some "no replicas for key"))
  /\ (hashes rg <> [] ->
      (forall w' v ok e,
         Get env fuel (NewRouter id host rg rf) st w key <> Done (w', (v, ok, Some e)))
      /\ (forall st' w',
            Put env fuel (NewRouter id host rg rf) st w key value
            <> Done (st', w', Some "no replicas for key"))
      /\ (forall st' w',
            Delete env fuel (NewRouter id host rg rf) st w key
            <> Done (st', w', Some "no replicas for key"))).
Proof.
  set (r := NewRouter id host rg rf).
  assert (Hrf : (1 <= replicationFactor r)%Z).
  { unfold r, NewRouter. cbn [replicationFactor]. destruct (Z.ltb_spec rf 1); lia. }
  split; [exact Hrf|]. split.
  - intros Hempty.
    assert (Hring : GetReplicasForKey fuel (ring r) key (replicationFactor r) = Done []).
    { unfold GetReplicasForKey. cbn [ring r NewRouter]. now rewrite Hempty. }
    unfold Get, Put, Delete. rewrite Hring. auto.
  - intros Hne.
    assert (Hcase : forall l,
              GetReplicasForKey fuel (ring r) key (replicationFactor r) = Done l ->
              (length l =? 0)%nat = false).
    { intros l Hl.
      destruct (GetReplicasForKey_head fuel (ring r) key (replicationFactor r) l
                  Hne ltac:(lia) Hl) as (h & l' & _ & -> & _).
      reflexivity. }
    unfold Get, Put, Delete.
    destruct (GetReplicasForKey fuel (ring r) key (replicationFactor r))
      as [l| |] eqn:Hl; cbn; try (repeat split; intros; discriminate).
    rewrite (Hcase l eq_refl).
    split; [|split].
    + intros w' v ok e Heq.
      pose proof (Get_loop_no_error r key l st w) as Hnone.
      injection Heq as Heq. rewrite Heq in Hnone. discriminate.
    + intros st' w'.
      destruct (Put_loop env r key value l st w []) as [[st1 w1] errs].
      destruct errs as [|e errs]; cbn [length]; [discriminate|].
      intros Heq. discriminate Heq.
    + intros st' w'.
      destruct (Delete_loop env r key l st w []) as [[st1 w1] errs].
      destruct errs as [|e errs]; cbn [length]; [discriminate|].
      intros Heq. discriminate Heq.
Qed.

(** X16. A node that is alone on its ring serves every request from its
    own store and sends nothing, when the replication factor asked for is
    at most 1: a [Put] writes the store, a [Delete] removes the key, a
    [Get] answers what the store holds, so that a key reads back as it was
    written and is not found once deleted. *)
Theorem single_node_router (fuel : nat) (n : NodeInfo) (v rf : Z)
    (st : gmap string string) (w : World) (key value : string) :
  (1 <= v)%Z ->
  (rf <= 1)%Z ->
  Z.to_nat v <= fuel ->
  Put env fuel (NewRouter (ID n) (Host n) (NewRing [n] v) rf) st w key value
  = Done (kv.Put st key value, w, None)
  /\ Delete env fuel (NewRouter (ID n) (Host n) (NewRing [n] v) rf) st w key
     = Done (kv.Delete st key, w, None)
  /\ Get env fuel (NewRouter (ID n) (Host n) (NewRing [n] v) rf) st w key
     = Done (w, (kv.Get st key, None))
  /\ api.HandleGetDistributed env fuel (NewRouter (ID n) (Host n) (NewRing [n] v) rf)
       (kv.Put st key value) w key
     = Done (w, (api.StatusOK, value))
  /\ api.HandleGetDistributed env fuel (NewRouter (ID n) (Host n) (NewRing [n] v) rf)
       (kv.Delete st key) w key
     = Done (w, api.httpError "not found" api.StatusNotFound).
Proof.
  intros Hv Hrf Hfuel.
  set (r := NewRouter (ID n) (Host n) (NewRing [n] v) rf).
  assert (Hfac : replicationFactor r = 1%Z).
  { unfold r, NewRouter. cbn [replicationFactor]. destruct (Z.ltb_spec rf 1); lia. }
  assert (Hring : forall k,
            GetReplicasForKey fuel (ring r) k (replicationFactor r) = Done [n]).
  { intros k. rewrite Hfac. unfold r, NewRouter. cbn [ring].
    now apply single_node_lookup. }
  assert (Hloc : isLocal r n = true) by (apply isLocal_true; reflexivity).
  assert (HGet : forall s,
            Get env fuel r s w key = Done (w, (kv.Get s key, None))).
  { intros s. unfold Get. rewrite Hring. cbn. rewrite Hloc.
    unfold kv.Get. now destruct (s !! key). }
  split; [|split; [|split; [|split]]].
  - unfold Put. rewrite Hring. cbn. now rewrite Hloc.
  - unfold Delete. rewrite Hring. cbn. now rewrite Hloc.
  - apply HGet.
  - unfold api.HandleGetDistributed. rewrite HGet. cbn.
    unfold kv.Get, kv.Put. now rewrite lookup_insert_eq.
  - unfold api.HandleGetDistributed. rewrite HGet. cbn.
    unfold kv.Get, kv.Delete. now rewrite lookup_delete_eq.
Qed.

End RouterFanOut.

(** ** The rebalancer, further *)

Section RebalanceAccount.

Context {World : Type} (env : cluster.Env World).

Lemma existsb_isLocal (r : Router) (replicas : list NodeInfo) :
  existsb (isLocal r) replicas = true <-> nodeID r ∈ ID <$> replicas.
Proof.
  rewrite existsb_exists, list_elem_of_fmap. split.
  - intros (n & Hin & Hloc). apply isLocal_true in Hloc.
    exists n. split; [congruence | now apply list_elem_of_In].
  - intros (n & Hid & Hin). exists n.
    split; [now apply list_elem_of_In | apply isLocal_true; congruence].
Qed.

Lemma present_cons (st : gmap string string) (key : string) (rest : list string) :
  spec.present st (key :: rest)
  = if decide (is_Some (st !! key)) then key :: spec.present st rest
    else spec.present st rest.
Proof.
  unfold spec.present. destruct (decide (is_Some (st !! key))).
  - now rewrite filter_cons_True.
  - now rewrite filter_cons_False.
Qed.

Lemma present_Keys (st : gmap string string) (keys : list string) :
  keys ≡ₚ kv.Keys st -> length (spec.present st keys) = size st.
Proof.
  intros Hperm.
  assert (Hin : forall k, k ∈ keys -> is_Some (st !! k)).
  { intros k Hk. rewrite Hperm in Hk. now apply elem_of_Keys. }
  assert (Hall : spec.present st keys = keys).
  { clear Hperm. induction keys as [|key rest IH]; [reflexivity|].
    rewrite present_cons, decide_True by (apply Hin, list_elem_of_here).
    f_equal. apply IH. intros k Hk. apply Hin. now apply list_elem_of_further. }
  rewrite Hall, Hperm. unfold kv.Keys. now rewrite length_fmap, length_map_to_list.
Qed.

(** A scan over keys that all stay: nothing is sent, nothing is removed. *)
Lemma Rebalance_loop_stable (fuel : nat) (r : Router) (ctx : Context World)
    (keys : list string) (st : gmap string string) (w : World) :
  ctxDone ctx w = false ->
  (forall k, k ∈ keys -> is_Some (st !! k) ->
     exists replicas,
       GetReplicasForKey fuel (ring r) k (replicationFactor r) = Done replicas
       /\ (replicas = [] \/ nodeID r ∈ ID <$> replicas)) ->
  forall moved kept log,
    Rebalance_loop env fuel r ctx keys st w moved kept log
    = Done (mkRebalanced st w
              (log ++ [LogFinished (nodeID r) moved
                         (kept + Z.of_nat (length (spec.present st keys)))])
              None).
Proof.
  intros Hctx. induction keys as [|key rest IH]; intros Hring moved kept log;
    cbn [Rebalance_loop].
  - cbn. now rewrite Z.add_0_r.
  - rewrite Hctx. rewrite present_cons.
    assert (Hrest : forall k, k ∈ rest -> is_Some (st !! k) ->
              exists replicas,
                GetReplicasForKey fuel (ring r) k (replicationFactor r) = Done replicas
                /\ (replicas = [] \/ nodeID r ∈ ID <$> replicas)).
    { intros k Hk. apply Hring. now apply list_elem_of_further. }
    specialize (IH Hrest).
    unfold kv.Get. destruct (st !! key) as [val|] eqn:Hst; cbn [negb].
    + rewrite decide_True by eauto.
      destruct (Hring key (list_elem_of_here _ _) ltac:(eauto))
        as (replicas & Hkey & Hcase).
      rewrite Hkey.
      assert (Hkeep : (if (length replicas =? 0)%nat then true
                       else existsb (isLocal r) replicas) = true).
      { destruct Hcase as [->|Hself]; [reflexivity|].
        apply existsb_isLocal in Hself. rewrite Hself. now destruct (_ =? _)%nat. }
      assert (Hgoal : Rebalance_loop env fuel r ctx rest st w moved (kept + 1)%Z log
                      = Done (mkRebalanced st w
                                (log ++ [LogFinished (nodeID r) moved
                                   (kept + Z.of_nat (length (key :: spec.present st rest)))])
                                None)).
      { rewrite IH. cbn [length].
        replace (kept + 1 + Z.of_nat (length (spec.present st rest)))%Z
          with (kept + Z.of_nat (S (length (spec.present st rest))))%Z by lia.
        reflexivity. }
      destruct (length replicas =? 0)%nat; [exact Hgoal|].
      rewrite Hkeep. exact Hgoal.
    + rewrite decide_False by (intros [? ?]; discriminate). apply IH.
Qed.

(** X17. A scan of a store whose keys all stay where they are (the ring
    gives this node among the replicas of each, or no replica at all)
    changes nothing and sends nothing: the store and the network are as
    before, no key is moved, and the log says that as many keys were kept
    as the store holds. *)
Theorem Rebalance_stable (fuel : nat) (r : Router) (ctx : Context World)
    (keys : list string) (st : gmap string string) (w : World) :
  keys ≡ₚ kv.Keys st ->
  ctxDone ctx w = false ->
  (forall k, k ∈ keys ->
     exists replicas,
       GetReplicasForKey fuel (ring r) k (replicationFactor r) = Done replicas
       /\ (replicas = [] \/ nodeID r ∈ ID <$> replicas)) ->
  RebalanceLocalKeys env fuel r ctx keys st w
  = Done (mkRebalanced st w
            [LogStart (nodeID r); LogFinished (nodeID r) 0 (Z.of_nat (size st))] None).
Proof.
  intros Hperm Hctx Hring. unfold RebalanceLocalKeys.
  rewrite (Rebalance_loop_stable fuel r ctx keys st w Hctx); [|auto].
  now rewrite (present_Keys st keys Hperm).
Qed.

(** The counters and the log of a scan, from any point of the loop. *)
Lemma Rebalance_loop_account (fuel : nat) (r : Router) (ctx : Context World)
    (keys : list string) :
  NoDup keys ->
  forall st w moved kept log res,
    Rebalance_loop env fuel r ctx keys st w moved kept log = Done res ->
    rbStore res ⊆ st
    /\ exists pre final,
         rbLog res = log ++ pre ++ [final]
         /\ match rbErr res with
            | Some e =>
                e = ctxErr ctx (rbWorld res) /\ ctxDone ctx (rbWorld res) = true
                /\ final = LogCancelled
            | None =>
                exists m k : Z,
                  final = LogFinished (nodeID r) (moved + m) (kept + k)
                  /\ (0 <= m)%Z /\ (0 <= k)%Z
                  /\ Z.of_nat (size st) = (Z.of_nat (size (rbStore res)) + m)%Z
                  /\ (m + k + Z.of_nat (length (spec.failedMoves pre)))%Z
                     = Z.of_nat (length (spec.present st keys))
            end.
Proof.
  induction keys as [|key rest IH]; intros Hnd st w moved kept log res Hrun;
    cbn [Rebalance_loop] in Hrun.
  - inversion Hrun; subst; cbn. split; [reflexivity|].
    exists [], (LogFinished (nodeID r) moved kept). split; [reflexivity|].
    exists 0%Z, 0%Z. rewrite !Z.add_0_r. cbn. repeat split; lia.
  - apply NoDup_cons in Hnd as [Hnin Hnd]. specialize (IH Hnd).
    destruct (ctxDone ctx w) eqn:Hctx.
    { inversion Hrun; subst; cbn. split; [reflexivity|].
      exists [], LogCancelled. auto. }
    rewrite present_cons.
    assert (Hkeep : forall kept',
              Rebalance_loop env fuel r ctx rest st w moved kept' log = Done res ->
              kept' = (kept + 1)%Z ->
              is_Some (st !! key) ->
              rbStore res ⊆ st
              /\ exists pre final,
                   rbLog res = log ++ pre ++ [final]
                   /\ match rbErr res with
                      | Some e =>
                          e = ctxErr ctx (rbWorld res) /\ ctxDone ctx (rbWorld res) = true
                          /\ final = LogCancelled
                      | None =>
                          exists m k : Z,
                            final = LogFinished (nodeID r) (moved + m) (kept + k)
                            /\ (0 <= m)%Z /\ (0 <= k)%Z
                            /\ Z.of_nat (size st) = (Z.of_nat (size (rbStore res)) + m)%Z
                            /\ (m + k + Z.of_nat (length (spec.failedMoves pre)))%Z
                               = Z.of_nat (length (key :: spec.present st rest))
                      end).
    { intros kept' Hrun' -> Hsome.
      destruct (IH _ _ _ _ _ _ Hrun') as (Hsub & pre & lst & Hlog & Hcase).
      split; [exact Hsub|]. exists pre, lst. split; [exact Hlog|].
      destruct (rbErr res); [exact Hcase|].
      destruct Hcase as (m & k & -> & Hm & Hk & Hsize & Hcount).
      exists m, (1 + k)%Z. cbn [length].
      split; [f_equal; lia|]. repeat split; lia. }
    unfold kv.Get in Hrun.
    destruct (st !! key) as [val|] eqn:Hst; cbn [negb] in Hrun.
    2:{ rewrite decide_False by (intros [? ?]; discriminate).
        exact (IH _ _ _ _ _ _ Hrun). }
    rewrite decide_True by eauto.
    destruct (GetReplicasForKey fuel (ring r) key (replicationFactor r))
      as [replicas| |] eqn:Hkey; try discriminate.
    destruct (length replicas =? 0)%nat.
    { apply (Hkeep _ Hrun eq_refl). eauto. }
    destruct (existsb (isLocal r) replicas) eqn:Hloc.
    { apply (Hkeep _ Hrun eq_refl). eauto. }
    destruct (Put_Done env fuel r st w key val replicas Hkey)
      as (st1 & w1 & err & HPut & Hst1).
    rewrite HPut in Hrun. specialize (Hst1 Hloc). subst st1.
    destruct err as [err|].
    + destruct (IH _ _ _ _ _ _ Hrun) as (Hsub & pre & lst & Hlog & Hcase).
      split; [exact Hsub|]. exists (LogFailedMove key err :: pre), lst.
      split; [rewrite Hlog, <- app_assoc; reflexivity|].
      destruct (rbErr res); [exact Hcase|].
      destruct Hcase as (m & k & -> & Hm & Hk & Hsize & Hcount).
      exists m, k.
      change (spec.failedMoves (LogFailedMove key err :: pre))
        with (key :: spec.failedMoves pre).
      cbn [length]. split; [reflexivity|]. repeat split; lia.
    + destruct (IH _ _ _ _ _ _ Hrun) as (Hsub & pre & lst & Hlog & Hcase).
      unfold kv.Delete in *.
      split; [etransitivity; [exact Hsub | apply delete_subseteq]|].
      exists pre, lst. split; [exact Hlog|].
      destruct (rbErr res); [exact Hcase|].
      destruct Hcase as (m & k & -> & Hm & Hk & Hsize & Hcount).
      exists (1 + m)%Z, k.
      assert (Hsz : size st = S (size (delete key st))).
      { rewrite map_size_delete_Some by eauto.
        pose proof (map_size_ne_0_lookup_2 st key ltac:(eauto)). lia. }
      assert (Hpres : spec.present (delete key st) rest = spec.present st rest).
      { unfold spec.present. apply filter_ext_in. intros k' Hk'.
        rewrite lookup_delete_ne; [reflexivity|]. intros ->. contradiction. }
      rewrite Hpres in Hcount. cbn [length].
      split; [f_equal; lia|]. repeat split; lia.
Qed.

(** X18. The books of a scan, however it ends.  The store it leaves is
    part of the store it found, and the log starts with the line of the
    start.  A scan that was cancelled returns the error of the context,
    taken when the context was done, and its last line says so.  A scan
    that ran to its end closes the log with its counters: [moved] is the
    number of keys that left the store, and every key of the store was
    counted once, as moved, as kept or by a line of a failed move. *)
Theorem Rebalance_accounts (fuel : nat) (r : Router) (ctx : Context World)
    (keys : list string) (st : gmap string string) (w : World)
    (res : Rebalanced) :
  keys ≡ₚ kv.Keys st ->
  RebalanceLocalKeys env fuel r ctx keys st w = Done res ->
  rbStore res ⊆ st
  /\ head (rbLog res) = Some (LogStart (nodeID r))
  /\ match rbErr res with
     | Some e =>
         e = ctxErr ctx (rbWorld res) /\ ctxDone ctx (rbWorld res) = true
         /\ last (rbLog res) = Some LogCancelled
     | None =>
         exists moved kept : Z,
           last (rbLog res) = Some (LogFinished (nodeID r) moved kept)
           /\ (0 <= kept)%Z
           /\ moved = (Z.of_nat (size st) - Z.of_nat (size (rbStore res)))%Z
           /\ (moved + kept + Z.of_nat (length (spec.failedMoves (rbLog res))))%Z
              = Z.of_nat (size st)
     end.
Proof.
  intros Hperm Hrun. unfold RebalanceLocalKeys in Hrun.
  assert (Hnd : NoDup keys).
  { rewrite Hperm. unfold kv.Keys. apply NoDup_fst_map_to_list. }
  destruct (Rebalance_loop_account fuel r ctx keys Hnd _ _ _ _ _ _ Hrun)
    as (Hsub & pre & lst & Hlog & Hcase).
  split; [exact Hsub|]. split; [now rewrite Hlog|].
  assert (Hlast : last (rbLog res) = Some lst).
  { rewrite Hlog, !app_assoc. apply last_snoc. }
  destruct (rbErr res) as [e|].
  - destruct Hcase as (He & Hdone & ->). auto.
  - destruct Hcase as (m & k & -> & Hm & Hk & Hsize & Hcount).
    rewrite (present_Keys st keys Hperm) in Hcount.
    exists m, k. rewrite !Z.add_0_l in Hlast.
    split; [exact Hlast|]. split; [exact Hk|]. split; [lia|].
    rewrite Hlog. unfold spec.failedMoves in *.
    rewrite !omap_app, !length_app. cbn. lia.
Qed.

End RebalanceAccount.

(** ** The router and the rebalancer on the example networks, further *)


(** On the example network the write reaches the local store although the
    put to [node2] failed and the handler answers 502. *)
Example Put_error_keeps_local_write :
  let r := NewRouter "node1" "localhost:8081" ringThreeNodes 3 in
  exists w' body,
    api.HandlePutDistributed envMixed 300 r storeA [] "foo" "v"
    = Done (kv.Put storeA "foo" "v", w', (api.StatusBadGateway, body)).
Proof. intros r. eexists _, _. vm_compute. reflexivity. Qed.


Lemma single_node_router_witness :
  (1 <= 100)%Z
  /\ (1 <= 1)%Z
  /\ Z.to_nat 100 <= 100
  /\ Put envDown 100 (NewRouter (ID node1) (Host node1) (NewRing [node1] 100) 1)
       storeA [] "b" "2"
     = Done (kv.Put storeA "b" "2", [], None)
  /\ Delete envDown 100 (NewRouter (ID node1) (Host node1) (NewRing [node1] 100) 1)
       storeA [] "b"
     = Done (kv.Delete storeA "b", [], None)
  /\ Get envDown 100 (NewRouter (ID node1) (Host node1) (NewRing [node1] 100) 1)
       storeA [] "b"
     = Done ([], (kv.Get storeA "b", None))
  /\ api.HandleGetDistributed envDown 100
       (NewRouter (ID node1) (Host node1) (NewRing [node1] 100) 1)
       (kv.Put storeA "b" "2") [] "b"
     = Done ([], (api.StatusOK, "2"))
  /\ api.HandleGetDistributed envDown 100
       (NewRouter (ID node1) (Host node1) (NewRing [node1] 100) 1)
       (kv.Delete storeA "b") [] "b"
     = Done ([], api.httpError "not found" api.StatusNotFound).
Proof.
  assert (H1 : (1 <= 100)%Z) by lia.
  assert (H2 : (1 <= 1)%Z) by lia.
  assert (H3 : Z.to_nat 100 <= 100) by (cbn; lia).
  split; [exact H1|]. split; [exact H2|]. split; [exact H3|].
  exact (single_node_router envDown 100 node1 100 1 storeA [] "b" "2" H1 H2 H3).
Defined.

Lemma Rebalance_stable_witness :
  let r := NewRouter "node2" "localhost:8082" ringOneSlot 3 in
  kv.Keys storeA ≡ₚ kv.Keys storeA
  /\ ctxDone ctxBackground [] = false
  /\ (forall k, k ∈ kv.Keys storeA ->
        exists replicas,
          GetReplicasForKey 300 (ring r) k (replicationFactor r) = Done replicas
          /\ (replicas = [] \/ nodeID r ∈ ID <$> replicas))
  /\ RebalanceLocalKeys envDown 300 r ctxBackground (kv.Keys storeA) storeA []
     = Done (mkRebalanced storeA []
               [LogStart (nodeID r); LogFinished (nodeID r) 0 (Z.of_nat (size storeA))]
               None).
Proof.
  intros r.
  assert (Hperm : kv.Keys storeA ≡ₚ kv.Keys storeA) by reflexivity.
  assert (Hctx : ctxDone ctxBackground ([] : list string) = false) by reflexivity.
  assert (Hring : forall k, k ∈ kv.Keys storeA ->
            exists replicas,
              GetReplicasForKey 300 (ring r) k (replicationFactor r) = Done replicas
              /\ (replicas = [] \/ nodeID r ∈ ID <$> replicas)).
  { intros k Hk. change (kv.Keys storeA) with ["a"] in Hk.
    apply list_elem_of_singleton in Hk as ->.
    exists [node2]. split; [vm_compute; reflexivity|].
    right. apply list_elem_of_here. }
  split; [exact Hperm|]. split; [exact Hctx|]. split; [exact Hring|].
  exact (Rebalance_stable envDown 300 r ctxBackground _ storeA [] Hperm Hctx Hring).
Defined.

Lemma Rebalance_accounts_witness :
  let r := NewRouter "node1" "localhost:8081" ringOneSlot 3 in
  let res :=
    mkRebalanced storeA ["http://localhost:8082/internal/replica/put"]
      [LogStart "node1";
       LogFailedMove "a"
         "replication errors: [remote PUT to localhost:8082 failed: connection refused]";
       LogFinished "node1" 0 0] None in
  kv.Keys storeA ≡ₚ kv.Keys storeA
  /\ RebalanceLocalKeys envDown 300 r ctxBackground (kv.Keys storeA) storeA [] = Done res
  /\ rbStore res ⊆ storeA
  /\ head (rbLog res) = Some (LogStart (nodeID r))
  /\ match rbErr res with
     | Some e =>
         e = ctxErr ctxBackground (rbWorld res)
         /\ ctxDone ctxBackground (rbWorld res) = true
         /\ last (rbLog res) = Some LogCancelled
     | None =>
         exists moved kept : Z,
           last (rbLog res) = Some (LogFinished (nodeID r) moved kept)
           /\ (0 <= kept)%Z
           /\ moved = (Z.of_nat (size storeA) - Z.of_nat (size (rbStore res)))%Z
           /\ (moved + kept + Z.of_nat (length (spec.failedMoves (rbLog res))))%Z
              = Z.of_nat (size storeA)
     end.
Proof.
  intros r res.
  assert (Hperm : kv.Keys storeA ≡ₚ kv.Keys storeA) by reflexivity.
  assert (Hrun : RebalanceLocalKeys envDown 300 r ctxBackground (kv.Keys storeA) storeA []
                 = Done res) by (vm_compute; reflexivity).
  split; [exact Hperm|]. split; [exact Hrun|].
  exact (Rebalance_accounts envDown 300 r ctxBackground _ storeA [] res Hperm Hrun).
Defined.

(** A scan that finds the context done at its first key stops there; with
    no key to look at it does not look at the context. *)
Example Rebalance_cancelled :
  let r := NewRouter "node1" "localhost:8081" ringOneSlot 3 in
  let ctxDoneNow := mkContext (list string) (fun _ => true) (fun _ => "context canceled") in
  RebalanceLocalKeys envDown 300 r ctxDoneNow ["a"] storeA []
  = Done (mkRebalanced storeA [] [LogStart "node1"; LogCancelled] (Some "context canceled"))
  /\ RebalanceLocalKeys envDown 300 r ctxDoneNow [] kv.NewStore []
     = Done (mkRebalanced kv.NewStore [] [LogStart "node1"; LogFinished "node1" 0 0] None).
Proof. intros r c. split; reflexivity. Qed.

(** ** The replica endpoints *)

Section ReplicaEndpoints.

Variable unmarshalPut : string -> option (string * string).
Variable unmarshalDelete : string -> option string.

(** X19. The replica endpoints.  A body that does not parse is answered
    400 and leaves the store as it was.  A put that parses is stored and
    answered 200, and a get of that key then answers 200 with the value;
    a delete that parses is carried out and answered 200, and a get of
    that key then answers 404.  A get without a key is answered 400
    whatever the store holds: a pair put under the empty key is stored but
    cannot be read back through the get endpoint. *)
Theorem replica_endpoints (store : gmap string string) (body key value : string) :
  (unmarshalPut body = None ->
   api.HandleReplicaPut unmarshalPut store body
   = (store, api.httpError "invalid json" api.StatusBadRequest))
  /\ (unmarshalDelete body = None ->
      api.HandleReplicaDelete unmarshalDelete store body
      = (store, api.httpError "invalid json" api.StatusBadRequest))
  /\ (unmarshalPut body = Some (key, value) ->
      api.HandleReplicaPut unmarshalPut store body
      = (kv.Put store key value, (api.StatusOK, "OK"))
      /\ api.HandleReplicaGet (kv.Put store key value) key
         = if decide (key = "") then api.httpError "missing key" api.StatusBadRequest
           else (api.StatusOK, value))
  /\ (unmarshalDelete body = Some key ->
      api.HandleReplicaDelete unmarshalDelete store body
      = (kv.Delete store key, (api.StatusOK, "OK"))
      /\ api.HandleReplicaGet (kv.Delete store key) key
         = if decide (key = "") then api.httpError "missing key" api.StatusBadRequest
           else api.httpError "not found" api.StatusNotFound)
  /\ (key <> "" ->
      api.HandleReplicaGet store key
      = match store !! key with
        | Some v => (api.StatusOK, v)
        | None => api.httpError "not found" api.StatusNotFound
        end).
Proof.
  unfold api.HandleReplicaPut, api.HandleReplicaDelete, api.HandleReplicaGet.
  split; [intros ->; reflexivity|].
  split; [intros ->; reflexivity|].
  split.
  { intros ->. split; [reflexivity|].
    destruct (decide (key = "")); [reflexivity|].
    unfold kv.Get, kv.Put. now rewrite lookup_insert_eq. }
  split.
  { intros ->. split; [reflexivity|].
    destruct (decide (key = "")); [reflexivity|].
    unfold kv.Get, kv.Delete. now rewrite lookup_delete_eq. }
  intros Hkey. rewrite decide_False by assumption.
  unfold kv.Get. now destruct (store !! key).
Qed.

End ReplicaEndpoints.

(** ** The bootstrap *)

Lemma prefix_app (p s : string) : String.prefix p (p +:+ s) = true.
Proof.
  induction p as [|c p IH]; [now destruct s|].
  rewrite append_String. cbn [String.prefix].
  destruct (ascii_dec c c); [exact IH | congruence].
Qed.

Lemma substring_all (s : string) : substring 0 (String.length s) s = s.
Proof. induction s as [|c s IH]; cbn; [reflexivity | now rewrite IH]. Qed.

Lemma length_append (p s : string) :
  String.length (p +:+ s) = String.length p + String.length s.
Proof.
  induction p as [|c p IH]; [now rewrite append_empty|].
  rewrite append_String. cbn [String.length]. now rewrite IH.
Qed.

Lemma substring_app (p s : string) :
  substring (String.length p) (String.length s) (p +:+ s) = s.
Proof.
  induction p as [|c p IH].
  - rewrite append_empty. apply substring_all.
  - rewrite append_String. cbn [String.length substring]. exact IH.
Qed.

(** [TrimPrefix] takes the prefix off a string that starts with it. *)
Lemma TrimPrefix_app (p s : string) : strings.TrimPrefix (p +:+ s) p = s.
Proof.
  unfold strings.TrimPrefix. rewrite prefix_app, length_append.
  replace (String.length p + String.length s - String.length p)
    with (String.length s) by lia.
  apply substring_app.
Qed.

Lemma findSelfHost_loop_first (pre : list NodeInfo) (n : NodeInfo)
    (post : list NodeInfo) (nodeID : string) :
  ID n = nodeID ->
  (forall m, m ∈ pre -> ID m <> nodeID) ->
  main.findSelfHost_loop (pre ++ n :: post) nodeID = Some (Host n).
Proof.
  intros Hn. induction pre as [|m pre IH]; intros Hpre; cbn [app main.findSelfHost_loop].
  - now rewrite decide_True.
  - rewrite decide_False by (apply Hpre, list_elem_of_here).
    apply IH. intros m' Hm'. apply Hpre. now apply list_elem_of_further.
Qed.

Lemma findSelfHost_loop_none (nodes : list NodeInfo) (nodeID : string) :
  (forall m, m ∈ nodes -> ID m <> nodeID) ->
  main.findSelfHost_loop nodes nodeID = None.
Proof.
  induction nodes as [|m nodes IH]; intros Hall; cbn [main.findSelfHost_loop].
  - reflexivity.
  - rewrite decide_False by (apply Hall, list_elem_of_here).
    apply IH. intros m' Hm'. apply Hall. now apply list_elem_of_further.
Qed.

(** X20. [findSelfHost] answers the host of the first node of the list
    that has the id.  When no node has it, the answer is made from the
    listen address: "localhost:" and the port that follows the colon, the
    port 8080 when nothing follows, and the whole address when it does not
    start with a colon. *)
Theorem findSelfHost_result (nodes : list NodeInfo) (nodeID listenAddr port : string) :
  (forall pre n post,
     nodes = pre ++ n :: post -> ID n = nodeID ->
     (forall m, m ∈ pre -> ID m <> nodeID) ->
     main.findSelfHost nodes nodeID listenAddr = Host n)
  /\ ((forall m, m ∈ nodes -> ID m <> nodeID) ->
      main.findSelfHost nodes nodeID (":" +:+ port)
      = "localhost:" +:+ (if decide (port = "") then "8080" else port)
      /\ (String.prefix ":" listenAddr = false ->
          main.findSelfHost nodes nodeID listenAddr
          = "localhost:" +:+ (if decide (listenAddr = "") then "8080" else listenAddr))).
Proof.
  split.
  - intros pre n post -> Hn Hpre. unfold main.findSelfHost.
    now rewrite (findSelfHost_loop_first pre n post nodeID Hn Hpre).
  - intros Hall. unfold main.findSelfHost.
    rewrite (findSelfHost_loop_none nodes nodeID Hall). split.
    + now rewrite TrimPrefix_app.
    + intros Hpre. unfold strings.TrimPrefix. now rewrite Hpre.
Qed.

Lemma getEnv_empty_default (getenv : string -> string) (key : string) :
  main.getEnv getenv key "" = getenv key.
Proof.
  unfold main.getEnv. destruct (decide (getenv key <> "")) as [|Hn]; [reflexivity|].
  destruct (decide (getenv key = "")); [congruence | contradiction].
Qed.

Lemma single_node_slots (n : NodeInfo) (v : Z) (h : Z) :
  h ∈ hashes (NewRing [n] v) <-> h ∈ spec.slotsOf n v.
Proof.
  unfold NewRing, sortHashes. cbn [hashes].
  rewrite merge_sort_Permutation, addNodes_hashes. cbn [hashes vNodes flat_map app].
  now rewrite app_nil_r.
Qed.

(** A node that is alone on the ring with two slots or more has two
    different slot hashes, and a lookup that waits for two nodes or more
    never returns. *)
Lemma single_node_spins (n : NodeInfo) (v rFactor : Z) (key : string) (fuel : nat) :
  (2 <= v)%Z -> (2 <= rFactor)%Z ->
  GetReplicasForKey fuel (NewRing [n] v) key rFactor = OutOfFuel.
Proof.
  intros Hv Hfac.
  destruct (single_node_ring n v ltac:(lia)) as (Hlen & Hne & Howner & _).
  assert (Hslot : forall i, i < Z.to_nat v ->
            hashMap (NewRing [n] v) !! hashFn (vKey n i) = Some n).
  { intros i Hi. apply Howner, single_node_slots. unfold spec.slotsOf.
    apply list_elem_of_fmap. exists i. split; [reflexivity|].
    apply elem_of_seq. lia. }
  assert (Hdiff : hashFn (vKey n 0) <> hashFn (vKey n 1)).
  { unfold vKey.
    change (NilZero.string_of_uint (Nat.to_uint 0)) with (String "0" "").
    change (NilZero.string_of_uint (Nat.to_uint 1)) with (String "1" "").
    rewrite <- !append_assoc. apply hashFn_differs. discriminate. }
  assert (Hmap : 1 < size (hashMap (NewRing [n] v))).
  { pose proof (Hslot 0 ltac:(lia)) as H0. pose proof (Hslot 1 ltac:(lia)) as H1.
    set (m := hashMap (NewRing [n] v)) in *.
    assert (Hin : delete (hashFn (vKey n 0)) m !! hashFn (vKey n 1) = Some n).
    { rewrite lookup_delete_ne by assumption. exact H1. }
    assert (Hd : size (delete (hashFn (vKey n 0)) m) <> 0).
    { apply (map_size_ne_0_lookup_2 _ (hashFn (vKey n 1))). eauto. }
    assert (Hm : size m <> 0).
    { apply (map_size_ne_0_lookup_2 _ (hashFn (vKey n 0))). eauto. }
    rewrite map_size_delete_Some in Hd by eauto. lia. }
  apply GetReplicasForKey_stuck with (ids := {[ID n]}).
  - apply Forall_forall. intros h Hh. unfold spec.owner.
    rewrite (Howner h Hh). cbn. now apply elem_of_singleton.
  - rewrite size_singleton. lia.
  - rewrite size_singleton. lia.
  - rewrite size_singleton. exact Hmap.
Qed.

Section Boot.

Context {World : Type} (env : cluster.Env World).

Variable TrimSpace : string -> string.
Variable getenv : string -> string.
Variable atoi : string -> option Z.

Lemma bootNodes_nonempty : main.bootNodes TrimSpace getenv <> [].
Proof.
  unfold main.bootNodes.
  destruct (main.parseClusterNodes TrimSpace _) as [|n l]; cbn; discriminate.
Qed.

(** X21. The router [main] builds, whatever the environment holds.  Its
    ring is never empty: it has the nodes of [CLUSTER_NODES], or this node
    alone when that gives no node, with 100 slots for each, in ascending
    order and with an owner for every slot.  The replication factor is at
    least 1 and the id is [NODE_ID], or [node1].  So no request is ever
    answered "no replicas for key"; the GET handler never answers 502. *)
Theorem bootRouter_invariants (fuel : nat) (st : gmap string string) (w : World)
    (key : string) :
  main.bootNodes TrimSpace getenv <> []
  /\ length (hashes (ring (main.bootRouter TrimSpace getenv atoi)))
     = length (main.bootNodes TrimSpace getenv) * 100
  /\ StronglySorted Z.le (hashes (ring (main.bootRouter TrimSpace getenv atoi)))
  /\ spec.consistent (ring (main.bootRouter TrimSpace getenv atoi))
  /\ (1 <= replicationFactor (main.bootRouter TrimSpace getenv atoi))%Z
  /\ nodeID (main.bootRouter TrimSpace getenv atoi) = main.getEnv getenv "NODE_ID" "node1"
  /\ (forall w' v ok e,
        Get env fuel (main.bootRouter TrimSpace getenv atoi) st w key
        <> Done (w', (v, ok, Some e)))
  /\ (forall w' body,
        api.HandleGetDistributed env fuel (main.bootRouter TrimSpace getenv atoi) st w key
        <> Done (w', (api.StatusBadGateway, body))).
Proof.
  pose proof bootNodes_nonempty as Hnodes.
  set (nodes := main.bootNodes TrimSpace getenv) in *.
  assert (Hlen : length (hashes (NewRing nodes 100)) = length nodes * 100).
  { unfold NewRing, sortHashes. cbn [hashes].
    rewrite (Permutation_length (merge_sort_Permutation _ _)), addNodes_hashes.
    cbn [hashes vNodes app]. now rewrite length_flat_map_slots. }
  assert (Hne : hashes (NewRing nodes 100) <> []).
  { intros E. rewrite E in Hlen. cbn in Hlen. destruct nodes; [congruence | cbn in Hlen; lia]. }
  assert (Hrf : (1 <= replicationFactor (main.bootRouter TrimSpace getenv atoi))%Z).
  { unfold main.bootRouter, NewRouter. cbn [replicationFactor].
    destruct (Z.ltb_spec (main.getEnvInt getenv atoi "REPLICATION_FACTOR" 3) 1); lia. }
  assert (HGet : forall w' v ok e,
            Get env fuel (main.bootRouter TrimSpace getenv atoi) st w key
            <> Done (w', (v, ok, Some e))).
  { intros w' v ok e. unfold Get.
    destruct (GetReplicasForKey fuel (ring (main.bootRouter TrimSpace getenv atoi)) key
                (replicationFactor (main.bootRouter TrimSpace getenv atoi)))
      as [l| |] eqn:Hl; cbn; try discriminate.
    destruct (GetReplicasForKey_head fuel
                (ring (main.bootRouter TrimSpace getenv atoi)) key
                (replicationFactor (main.bootRouter TrimSpace getenv atoi)) l
                Hne ltac:(lia) Hl)
      as (h & l' & _ & -> & _).
    cbn [length Nat.eqb].
    pose proof (Get_loop_no_error env (main.bootRouter TrimSpace getenv atoi) key
                  (spec.owner (ring (main.bootRouter TrimSpace getenv atoi)) h :: l') st w)
      as Hnone.
    destruct (Get_loop env (main.bootRouter TrimSpace getenv atoi) key
                (spec.owner (ring (main.bootRouter TrimSpace getenv atoi)) h :: l') st w)
      as [w2 [[v2 ok2] e2]].
    cbn [snd] in Hnone. subst e2. discriminate. }
  split; [exact Hnodes|]. split; [exact Hlen|].
  split; [apply NewRing_sorted|]. split; [apply NewRing_consistent|].
  split; [exact Hrf|]. split; [reflexivity|]. split; [exact HGet|].
  intros w' body. unfold api.HandleGetDistributed.
  destruct (Get env fuel (main.bootRouter TrimSpace getenv atoi) st w key)
    as [[w1 [[v ok] [e|]]]| |] eqn:HG; cbn; try discriminate.
  - exfalso. exact (HGet w1 v ok e eq_refl).
  - destruct ok; cbn; intros Heq; injection Heq as _ Heq; discriminate.
Qed.

(** X22. A node that starts without a usable [CLUSTER_NODES] is alone on
    its ring with 100 slots; with a replication factor of 2 or more, which
    the default 3 is, the lookup of the replicas never returns, whatever
    the id of the node and whatever the key: [Put], [Get] and [Delete]
    never answer, and the scan of the rebalancer hangs at the first key it
    finds in the store. *)
Theorem single_node_boot_never_answers (fuel : nat) (st : gmap string string)
    (w : World) (key value : string) (ctx : Context World) (keys : list string) :
  main.parseClusterNodes TrimSpace (getenv "CLUSTER_NODES") = [] ->
  (2 <= main.getEnvInt getenv atoi "REPLICATION_FACTOR" 3)%Z ->
  Put env fuel (main.bootRouter TrimSpace getenv atoi) st w key value = OutOfFuel
  /\ Get env fuel (main.bootRouter TrimSpace getenv atoi) st w key = OutOfFuel
  /\ Delete env fuel (main.bootRouter TrimSpace getenv atoi) st w key = OutOfFuel
  /\ api.HandleGetDistributed env fuel (main.bootRouter TrimSpace getenv atoi) st w key
     = OutOfFuel
  /\ (is_Some (st !! key) -> ctxDone ctx w = false ->
      RebalanceLocalKeys env fuel (main.bootRouter TrimSpace getenv atoi) ctx
        (key :: keys) st w = OutOfFuel).
Proof.
  intros Hnodes Hrf.
  set (r := main.bootRouter TrimSpace getenv atoi).
  assert (Hring : forall k,
            GetReplicasForKey fuel (ring r) k (replicationFactor r) = OutOfFuel).
  { intros k. unfold r, main.bootRouter, main.bootNodes, NewRouter.
    cbn [ring replicationFactor].
    rewrite getEnv_empty_default, Hnodes. cbn [length Nat.eqb].
    destruct (Z.ltb_spec (main.getEnvInt getenv atoi "REPLICATION_FACTOR" 3) 1); [lia|].
    apply single_node_spins; lia. }
  assert (HGet : Get env fuel r st w key = OutOfFuel).
  { unfold Get. now rewrite Hring. }
  split; [unfold Put; now rewrite Hring|]. split; [exact HGet|].
  split; [unfold Delete; now rewrite Hring|].
  split; [unfold api.HandleGetDistributed; now rewrite HGet|].
  intros [val Hval] Hctx. unfold RebalanceLocalKeys. cbn [Rebalance_loop].
  rewrite Hctx. unfold kv.Get. rewrite Hval. cbn [negb]. now rewrite Hring.
Qed.

End Boot.

Lemma single_node_boot_never_answers_witness :
  main.parseClusterNodes strings.asciiTrimSpace ((fun _ : string => "") "CLUSTER_NODES") = []
  /\ (2 <= main.getEnvInt (fun _ => "") (fun _ => None) "REPLICATION_FACTOR" 3)%Z
  /\ Put envDown 1000 (main.bootRouter strings.asciiTrimSpace (fun _ => "") (fun _ => None))
       storeA [] "a" "1" = OutOfFuel
  /\ Get envDown 1000 (main.bootRouter strings.asciiTrimSpace (fun _ => "") (fun _ => None))
       storeA [] "a" = OutOfFuel
  /\ Delete envDown 1000 (main.bootRouter strings.asciiTrimSpace (fun _ => "") (fun _ => None))
       storeA [] "a" = OutOfFuel
  /\ api.HandleGetDistributed envDown 1000
       (main.bootRouter strings.asciiTrimSpace (fun _ => "") (fun _ => None)) storeA [] "a"
     = OutOfFuel
  /\ (is_Some (storeA !! "a") -> ctxDone ctxBackground [] = false ->
      RebalanceLocalKeys envDown 1000
        (main.bootRouter strings.asciiTrimSpace (fun _ => "") (fun _ => None))
        ctxBackground ["a"] storeA [] = OutOfFuel).
Proof.
  assert (H1 : main.parseClusterNodes strings.asciiTrimSpace
                 ((fun _ : string => "") "CLUSTER_NODES") = []) by reflexivity.
  assert (H2 : (2 <= main.getEnvInt (fun _ => "") (fun _ => None) "REPLICATION_FACTOR" 3)%Z)
    by (apply Z.leb_le; reflexivity).
  split; [exact H1|]. split; [exact H2|].
  exact (single_node_boot_never_answers envDown strings.asciiTrimSpace
           (fun _ => "") (fun _ => None) 1000 storeA [] "a" "1" ctxBackground [] H1 H2).
Defined.

(** What [main] builds when the environment sets nothing. *)
Example bootRouter_default :
  main.bootRouter strings.asciiTrimSpace (fun _ => "") (fun _ => None)
  = NewRouter "node1" "localhost:8081" ringDefault 3.
Proof. reflexivity. Qed.

(** ** The nodes wired together *)

Section Wired.

Variable unmarshalPut : string -> option (string * string).
Variable unmarshalDelete : string -> option string.
Variable env : cluster.Env server.Cluster.

Lemma holds_insert (G : server.Cluster) (n : NodeInfo) (host key value : string)
    (store : gmap string string) :
  server.holds G n key value ->
  store !! key = Some value ->
  server.holds (<[host := store]> G) n key value.
Proof.
  intros (s & Hs & Hk) Hstore. unfold server.holds.
  destruct (decide (host = Host n)) as [->|Hne].
  - exists store. now rewrite lookup_insert_eq.
  - exists s. now rewrite lookup_insert_ne.
Qed.

(** What the loop of [Put] does to a cluster that delivers: a replica
    that held the pair still holds it, and when no error was added every
    remote replica of the list holds it. *)
Lemma Put_loop_wired (r : Router) (key value : string) (replicas : list NodeInfo) :
  (forall n, n ∈ replicas -> server.delivers unmarshalPut unmarshalDelete env (Host n) key) ->
  unmarshalPut (marshalPut env key value) = Some (key, value) ->
  forall st G errs st' G' errs',
    Put_loop env r key value replicas st G errs = (st', G', errs') ->
    (forall n0, server.holds G n0 key value -> server.holds G' n0 key value)
    /\ (exists extra, errs' = errs ++ extra)
    /\ (errs' = errs ->
        forall n, n ∈ replicas -> isLocal r n = false -> server.holds G' n key value).
Proof.
  intros Hwire Hjson.
  induction replicas as [|n rest IH]; intros st G errs st' G' errs' Hrun;
    cbn [Put_loop] in Hrun.
  - injection Hrun as <- <- <-. split; [auto|]. split; [exists []; now rewrite app_nil_r|].
    intros _ n Hn. now apply elem_of_nil in Hn.
  - assert (Hrest : forall m, m ∈ rest ->
              server.delivers unmarshalPut unmarshalDelete env (Host m) key).
    { intros m Hm. apply Hwire. now apply list_elem_of_further. }
    specialize (IH Hrest).
    destruct (isLocal r n) eqn:Hloc.
    { destruct (IH _ _ _ _ _ _ Hrun) as (Hmono & Hext & Hall).
      split; [exact Hmono|]. split; [exact Hext|].
      intros Heq m Hm Hml. apply elem_of_cons in Hm as [->|Hm]; [congruence|].
      now apply Hall. }
    destruct (Hwire n (list_elem_of_here _ _)) as (Hpost & _ & _).
    rewrite Hpost in Hrun. unfold server.postPut in Hrun.
    destruct (G !! Host n) as [s|] eqn:Hs.
    + unfold api.HandleReplicaPut in Hrun. rewrite Hjson in Hrun.
      cbn in Hrun.
      destruct (IH _ _ _ _ _ _ Hrun) as (Hmono & Hext & Hall).
      assert (Hn : server.holds (<[Host n := kv.Put s key value]> G) n key value).
      { exists (kv.Put s key value). rewrite lookup_insert_eq. split; [reflexivity|].
        unfold kv.Put. apply lookup_insert_eq. }
      split; [|split; [exact Hext|]].
      * intros n0 Hn0. apply Hmono. apply holds_insert; [exact Hn0|].
        unfold kv.Put. apply lookup_insert_eq.
      * intros Heq m Hm Hml. apply elem_of_cons in Hm as [->|Hm]; [|now apply Hall].
        now apply Hmono.
    + destruct (IH _ _ _ _ _ _ Hrun) as (Hmono & [extra Hext] & Hall).
      split; [exact Hmono|]. split.
      * eexists. rewrite Hext, <- app_assoc. reflexivity.
      * intros Heq. exfalso. rewrite Hext, <- app_assoc in Heq.
        apply (f_equal length) in Heq. rewrite !length_app in Heq. cbn in Heq. lia.
Qed.

(** A read finds the value at the first replica when that replica holds
    it, and asks nobody else. *)
Lemma Get_loop_wired (r : Router) (key value : string) (n : NodeInfo)
    (rest : list NodeInfo) (st : gmap string string) (G : server.Cluster) :
  key <> "" ->
  server.delivers unmarshalPut unmarshalDelete env (Host n) key ->
  (ID n = nodeID r <-> Host n = selfHost r) ->
  G !! selfHost r = Some st ->
  server.holds G n key value ->
  Get_loop env r key (n :: rest) st G = (G, (value, true, None)).
Proof.
  intros Hkey (_ & _ & Hget) Hself Hst (s & Hs & Hk). cbn [Get_loop].
  destruct (isLocal r n) eqn:Hloc.
  - apply isLocal_true, Hself in Hloc. rewrite Hloc, Hst in Hs.
    injection Hs as <-. unfold kv.Get. now rewrite Hk.
  - destruct (Hget G) as (u & Hu & Hreq). rewrite Hu, Hreq.
    unfold server.getGet. rewrite Hs. unfold api.HandleReplicaGet.
    rewrite decide_False by assumption. unfold kv.Get. rewrite Hk. reflexivity.
Qed.

(** X23. A write that was acknowledged can be read from every node.  On a
    network that takes the requests of the routers to the replica
    endpoints of the nodes, when [Put] at one node returned no error,
    every replica of the key holds the pair in its store, and a [Get] of
    the key at any node that computes the same replicas answers the value
    from the first of them, leaving every store as it is. *)
Theorem acknowledged_write_is_read (fuel : nat) (rA rB : Router)
    (G G' : server.Cluster) (stA stA' stB : gmap string string)
    (key value : string) (replicas : list NodeInfo) :
  (forall n, n ∈ replicas -> server.delivers unmarshalPut unmarshalDelete env (Host n) key) ->
  unmarshalPut (marshalPut env key value) = Some (key, value) ->
  key <> "" ->
  server.knowsItself rA replicas ->
  server.knowsItself rB replicas ->
  GetReplicasForKey fuel (ring rA) key (replicationFactor rA) = Done replicas ->
  GetReplicasForKey fuel (ring rB) key (replicationFactor rB) = Done replicas ->
  G !! selfHost rA = Some stA ->
  Put env fuel rA stA G key value = Done (stA', G', None) ->
  server.after rA stA' G' !! selfHost rB = Some stB ->
  (forall n, n ∈ replicas -> server.holds (server.after rA stA' G') n key value)
  /\ Get env fuel rB stB (server.after rA stA' G') key
     = Done (server.after rA stA' G', (value, true, None)).
Proof.
  intros Hwire Hjson Hkey HselfA HselfB HringA HringB HstA HPut HstB.
  unfold Put in HPut. rewrite HringA in HPut. cbn in HPut.
  destruct replicas as [|n1 rest]; [discriminate|]. cbn [length Nat.eqb] in HPut.
  pose proof (Put_loop_store env rA key value (n1 :: rest) stA G []) as Hstore.
  destruct (Put_loop env rA key value (n1 :: rest) stA G []) as [[st1 G1] errs] eqn:Hloop.
  cbn [fst] in Hstore.
  destruct errs as [|e errs]; cbn in HPut; [|discriminate].
  injection HPut as -> ->.
  destruct (Put_loop_wired rA key value (n1 :: rest) Hwire Hjson _ _ _ _ _ _ Hloop)
    as (_ & _ & Hall).
  assert (Hholds : forall n, n ∈ n1 :: rest ->
            server.holds (server.after rA stA' G') n key value).
  { intros n Hn. unfold server.after. destruct (isLocal rA n) eqn:Hloc.
    - exists stA'. apply isLocal_true in Hloc.
      rewrite (proj1 (HselfA n Hn) Hloc), lookup_insert_eq. split; [reflexivity|].
      assert (Hex : existsb (isLocal rA) (n1 :: rest) = true).
      { apply existsb_exists. exists n. split; [now apply list_elem_of_In|].
        now apply isLocal_true. }
      rewrite Hex in Hstore. rewrite Hstore. unfold kv.Put. apply lookup_insert_eq.
    - destruct (Hall eq_refl n Hn Hloc) as (s & Hs & Hk).
      exists s. split; [|exact Hk].
      rewrite lookup_insert_ne; [exact Hs|].
      intros Heq. apply isLocal_false in Hloc. apply Hloc.
      now apply (HselfA n Hn). }
  split; [exact Hholds|].
  unfold Get. rewrite HringB. cbn. f_equal.
  apply Get_loop_wired; auto.
  - apply Hwire, list_elem_of_here.
  - apply HselfB, list_elem_of_here.
  - apply Hholds, list_elem_of_here.
Qed.

Lemma lacks_insert (G : server.Cluster) (n : NodeInfo) (host key : string)
    (store : gmap string string) :
  server.lacks G n key ->
  store !! key = None ->
  server.lacks (<[host := store]> G) n key.
Proof.
  intros (s & Hs & Hk) Hstore. unfold server.lacks.
  destruct (decide (host = Host n)) as [->|Hne].
  - exists store. now rewrite lookup_insert_eq.
  - exists s. now rewrite lookup_insert_ne.
Qed.

Lemma Delete_loop_store (r : Router) (key : string) (replicas : list NodeInfo)
    (st : gmap string string) (G : server.Cluster) (errs : list string) :
  (Delete_loop env r key replicas st G errs).1.1
  = if existsb (isLocal r) replicas then kv.Delete st key else st.
Proof.
  revert st G errs. induction replicas as [|n rest IH]; intros st G errs;
    cbn [Delete_loop existsb].
  - reflexivity.
  - destruct (isLocal r n); cbn [orb].
    + rewrite IH. destruct (existsb (isLocal r) rest); [|reflexivity].
      unfold kv.Delete. apply delete_delete_eq.
    + destruct (httpPost env G _ _) as [G1 [msg|status body]]; [apply IH|].
      destruct (300 <=? status)%Z; apply IH.
Qed.

(** What the loop of [Delete] does to a cluster that delivers. *)
Lemma Delete_loop_wired (r : Router) (key : string) (replicas : list NodeInfo) :
  (forall n, n ∈ replicas -> server.delivers unmarshalPut unmarshalDelete env (Host n) key) ->
  unmarshalDelete (marshalDelete env key) = Some key ->
  forall st G errs st' G' errs',
    Delete_loop env r key replicas st G errs = (st', G', errs') ->
    (forall n0, server.lacks G n0 key -> server.lacks G' n0 key)
    /\ (exists extra, errs' = errs ++ extra)
    /\ (errs' = errs ->
        forall n, n ∈ replicas -> isLocal r n = false -> server.lacks G' n key).
Proof.
  intros Hwire Hjson.
  induction replicas as [|n rest IH]; intros st G errs st' G' errs' Hrun;
    cbn [Delete_loop] in Hrun.
  - injection Hrun as <- <- <-. split; [auto|]. split; [exists []; now rewrite app_nil_r|].
    intros _ n Hn. now apply elem_of_nil in Hn.
  - assert (Hrest : forall m, m ∈ rest ->
              server.delivers unmarshalPut unmarshalDelete env (Host m) key).
    { intros m Hm. apply Hwire. now apply list_elem_of_further. }
    specialize (IH Hrest).
    destruct (isLocal r n) eqn:Hloc.
    { destruct (IH _ _ _ _ _ _ Hrun) as (Hmono & Hext & Hall).
      split; [exact Hmono|]. split; [exact Hext|].
      intros Heq m Hm Hml. apply elem_of_cons in Hm as [->|Hm]; [congruence|].
      now apply Hall. }
    destruct (Hwire n (list_elem_of_here _ _)) as (_ & Hpost & _).
    rewrite Hpost in Hrun. unfold server.postDelete in Hrun.
    destruct (G !! Host n) as [s|] eqn:Hs.
    + unfold api.HandleReplicaDelete in Hrun. rewrite Hjson in Hrun.
      cbn in Hrun.
      destruct (IH _ _ _ _ _ _ Hrun) as (Hmono & Hext & Hall).
      assert (Hn : server.lacks (<[Host n := kv.Delete s key]> G) n key).
      { exists (kv.Delete s key). rewrite lookup_insert_eq. split; [reflexivity|].
        unfold kv.Delete. apply lookup_delete_eq. }
      split; [|split; [exact Hext|]].
      * intros n0 Hn0. apply Hmono. apply lacks_insert; [exact Hn0|].
        unfold kv.Delete. apply lookup_delete_eq.
      * intros Heq m Hm Hml. apply elem_of_cons in Hm as [->|Hm]; [|now apply Hall].
        now apply Hmono.
    + destruct (IH _ _ _ _ _ _ Hrun) as (Hmono & [extra Hext] & Hall).
      split; [exact Hmono|]. split.
      * eexists. rewrite Hext, <- app_assoc. reflexivity.
      * intros Heq. exfalso. rewrite Hext, <- app_assoc in Heq.
        apply (f_equal length) in Heq. rewrite !length_app in Heq. cbn in Heq. lia.
Qed.

(** A read that finds the key at no replica answers not found and changes
    nothing. *)
Lemma Get_loop_wired_absent (r : Router) (key : string) (replicas : list NodeInfo)
    (st : gmap string string) (G : server.Cluster) :
  (forall n, n ∈ replicas -> server.delivers unmarshalPut unmarshalDelete env (Host n) key) ->
  server.knowsItself r replicas ->
  G !! selfHost r = Some st ->
  (forall n, n ∈ replicas -> server.lacks G n key) ->
  Get_loop env r key replicas st G = (G, ("", false, None)).
Proof.
  intros Hwire Hself Hst.
  induction replicas as [|n rest IH]; intros Hlacks; cbn [Get_loop]; [reflexivity|].
  assert (IH' : Get_loop env r key rest st G = (G, ("", false, None))).
  { apply IH.
    - intros m Hm. apply Hwire. now apply list_elem_of_further.
    - intros m Hm. apply Hself. now apply list_elem_of_further.
    - intros m Hm. apply Hlacks. now apply list_elem_of_further. }
  destruct (Hlacks n (list_elem_of_here _ _)) as (s & Hs & Hk).
  destruct (isLocal r n) eqn:Hloc.
  - apply isLocal_true, (Hself n (list_elem_of_here _ _)) in Hloc.
    rewrite Hloc, Hst in Hs. injection Hs as <-.
    unfold kv.Get. rewrite Hk. exact IH'.
  - destruct (Hwire n (list_elem_of_here _ _)) as (_ & _ & Hget).
    destruct (Hget G) as (u & Hu & Hreq). rewrite Hu, Hreq.
    unfold server.getGet. rewrite Hs. unfold api.HandleReplicaGet.
    destruct (decide (key = "")); cbn; [exact IH'|].
    unfold kv.Get. rewrite Hk. cbn. exact IH'.
Qed.

(** X24. A delete that was acknowledged is seen from every node.  On a
    network that takes the requests of the routers to the replica
    endpoints of the nodes, when [Delete] at one node returned no error,
    no replica of the key has it in its store any more, and a [Get] of the
    key at any node that computes the same replicas answers not found,
    leaving every store as it is. *)
Theorem acknowledged_delete_is_read (fuel : nat) (rA rB : Router)
    (G G' : server.Cluster) (stA stA' stB : gmap string string)
    (key : string) (replicas : list NodeInfo) :
  (forall n, n ∈ replicas -> server.delivers unmarshalPut unmarshalDelete env (Host n) key) ->
  unmarshalDelete (marshalDelete env key) = Some key ->
  server.knowsItself rA replicas ->
  server.knowsItself rB replicas ->
  GetReplicasForKey fuel (ring rA) key (replicationFactor rA) = Done replicas ->
  GetReplicasForKey fuel (ring rB) key (replicationFactor rB) = Done replicas ->
  G !! selfHost rA = Some stA ->
  Delete env fuel rA stA G key = Done (stA', G', None) ->
  server.after rA stA' G' !! selfHost rB = Some stB ->
  (forall n, n ∈ replicas -> server.lacks (server.after rA stA' G') n key)
  /\ Get env fuel rB stB (server.after rA stA' G') key
     = Done (server.after rA stA' G', ("", false, None)).
Proof.
  intros Hwire Hjson HselfA HselfB HringA HringB HstA HDel HstB.
  unfold Delete in HDel. rewrite HringA in HDel. cbn in HDel.
  destruct replicas as [|n1 rest]; [discriminate|]. cbn [length Nat.eqb] in HDel.
  pose proof (Delete_loop_store rA key (n1 :: rest) stA G []) as Hstore.
  destruct (Delete_loop env rA key (n1 :: rest) stA G []) as [[st1 G1] errs] eqn:Hloop.
  cbn [fst] in Hstore.
  destruct errs as [|e errs]; cbn in HDel; [|discriminate].
  injection HDel as -> ->.
  destruct (Delete_loop_wired rA key (n1 :: rest) Hwire Hjson _ _ _ _ _ _ Hloop)
    as (_ & _ & Hall).
  assert (Hlacks : forall n, n ∈ n1 :: rest ->
            server.lacks (server.after rA stA' G') n key).
  { intros n Hn. unfold server.after. destruct (isLocal rA n) eqn:Hloc.
    - exists stA'. apply isLocal_true in Hloc.
      rewrite (proj1 (HselfA n Hn) Hloc), lookup_insert_eq. split; [reflexivity|].
      assert (Hex : existsb (isLocal rA) (n1 :: rest) = true).
      { apply existsb_exists. exists n. split; [now apply list_elem_of_In|].
        now apply isLocal_true. }
      rewrite Hex in Hstore. rewrite Hstore. unfold kv.Delete. apply lookup_delete_eq.
    - destruct (Hall eq_refl n Hn Hloc) as (s & Hs & Hk).
      exists s. split; [|exact Hk].
      rewrite lookup_insert_ne; [exact Hs|].
      intros Heq. apply isLocal_false in Hloc. apply Hloc.
      now apply (HselfA n Hn). }
  split; [exact Hlacks|].
  unfold Get. rewrite HringB.
  change (Done (Get_loop env rB key (n1 :: rest) stB (server.after rA stA' G'))
          = Done (server.after rA stA' G', ("", false, None))).
  f_equal. now apply Get_loop_wired_absent.
Qed.




End Wired.

(** The example network takes the requests about a key to the endpoints
    of the three nodes. *)
Lemma envCluster_delivers (n : NodeInfo) (key : string) :
  n ∈ [node2; node3; node1] ->
  key ∈ ["foo"; "a"] ->
  server.delivers jsonPut jsonDelete envCluster (Host n) key.
Proof.
  intros Hn Hkey.
  repeat (apply elem_of_cons in Hkey as [->|Hkey]);
    [| |now apply elem_of_nil in Hkey];
    repeat (apply elem_of_cons in Hn as [->|Hn]);
    try (now apply elem_of_nil in Hn);
    (split; [intros G body; reflexivity|];
     split; [intros G body; reflexivity|];
     intros G; eexists; split; reflexivity).
Qed.

Lemma knowsItself_examples (id host : string) :
  (id = "node1" /\ host = "localhost:8081") \/ (id = "node2" /\ host = "localhost:8082") ->
  server.knowsItself (NewRouter id host ringThreeNodes 3) [node2; node3; node1].
Proof.
  intros Hcase n Hn. cbn [nodeID selfHost NewRouter].
  repeat (apply elem_of_cons in Hn as [->|Hn]);
    [| | |now apply elem_of_nil in Hn];
    destruct Hcase as [[-> ->]|[-> ->]]; split; intros H;
      first [reflexivity | discriminate H].
Qed.

Lemma acknowledged_write_is_read_witness :
  let rA := NewRouter "node1" "localhost:8081" ringThreeNodes 3 in
  let rB := NewRouter "node2" "localhost:8082" ringThreeNodes 3 in
  let replicas := [node2; node3; node1] in
  let stA' := kv.Put kv.NewStore "foo" "v" in
  let G' := <[Host node3 := stA']> (<[Host node2 := stA']> clusterEmpty) in
  (forall n, n ∈ replicas -> server.delivers jsonPut jsonDelete envCluster (Host n) "foo")
  /\ jsonPut (marshalPut envCluster "foo" "v") = Some ("foo", "v")
  /\ "foo" <> ""
  /\ server.knowsItself rA replicas
  /\ server.knowsItself rB replicas
  /\ GetReplicasForKey 300 (ring rA) "foo" (replicationFactor rA) = Done replicas
  /\ GetReplicasForKey 300 (ring rB) "foo" (replicationFactor rB) = Done replicas
  /\ clusterEmpty !! selfHost rA = Some kv.NewStore
  /\ Put envCluster 300 rA kv.NewStore clusterEmpty "foo" "v" = Done (stA', G', None)
  /\ server.after rA stA' G' !! selfHost rB = Some stA'
  /\ (forall n, n ∈ replicas -> server.holds (server.after rA stA' G') n "foo" "v")
  /\ Get envCluster 300 rB stA' (server.after rA stA' G') "foo"
     = Done (server.after rA stA' G', ("v", true, None)).
Proof.
  intros rA rB replicas stA' G'.
  assert (H1 : forall n, n ∈ replicas ->
            server.delivers jsonPut jsonDelete envCluster (Host n) "foo")
    by (intros n Hn; apply envCluster_delivers; [exact Hn | apply list_elem_of_here]).
  assert (H2 : jsonPut (marshalPut envCluster "foo" "v") = Some ("foo", "v")) by reflexivity.
  assert (H3 : "foo" <> "") by discriminate.
  assert (H4 : server.knowsItself rA replicas) by (apply knowsItself_examples; auto).
  assert (H5 : server.knowsItself rB replicas) by (apply knowsItself_examples; auto).
  assert (H6 : GetReplicasForKey 300 (ring rA) "foo" (replicationFactor rA) = Done replicas)
    by (vm_compute; reflexivity).
  assert (H7 : GetReplicasForKey 300 (ring rB) "foo" (replicationFactor rB) = Done replicas)
    by (vm_compute; reflexivity).
  assert (H8 : clusterEmpty !! selfHost rA = Some kv.NewStore) by (vm_compute; reflexivity).
  assert (H9 : Put envCluster 300 rA kv.NewStore clusterEmpty "foo" "v"
               = Done (stA', G', None)) by (vm_compute; reflexivity).
  assert (H10 : server.after rA stA' G' !! selfHost rB = Some stA')
    by (vm_compute; reflexivity).
  repeat (split; [assumption|]).
  exact (acknowledged_write_is_read jsonPut jsonDelete envCluster 300 rA rB
           clusterEmpty G' kv.NewStore stA' stA' "foo" "v" replicas
           H1 H2 H3 H4 H5 H6 H7 H8 H9 H10).
Defined.

Lemma acknowledged_delete_is_read_witness :
  let rA := NewRouter "node1" "localhost:8081" ringThreeNodes 3 in
  let rB := NewRouter "node2" "localhost:8082" ringThreeNodes 3 in
  let replicas := [node2; node3; node1] in
  let full := kv.Put kv.NewStore "foo" "v" in
  let G := <[Host node3 := full]> (<[Host node2 := full]> (<[Host node1 := full]> ∅)) in
  let G' := <[Host node3 := kv.NewStore]> (<[Host node2 := kv.NewStore]> G) in
  (forall n, n ∈ replicas -> server.delivers jsonPut jsonDelete envCluster (Host n) "foo")
  /\ jsonDelete (marshalDelete envCluster "foo") = Some "foo"
  /\ server.knowsItself rA replicas
  /\ server.knowsItself rB replicas
  /\ GetReplicasForKey 300 (ring rA) "foo" (replicationFactor rA) = Done replicas
  /\ GetReplicasForKey 300 (ring rB) "foo" (replicationFactor rB) = Done replicas
  /\ G !! selfHost rA = Some full
  /\ Delete envCluster 300 rA full G "foo" = Done (kv.NewStore, G', None)
  /\ server.after rA kv.NewStore G' !! selfHost rB = Some kv.NewStore
  /\ (forall n, n ∈ replicas -> server.lacks (server.after rA kv.NewStore G') n "foo")
  /\ Get envCluster 300 rB kv.NewStore (server.after rA kv.NewStore G') "foo"
     = Done (server.after rA kv.NewStore G', ("", false, None)).
Proof.
  intros rA rB replicas full G G'.
  assert (H1 : forall n, n ∈ replicas ->
            server.delivers jsonPut jsonDelete envCluster (Host n) "foo")
    by (intros n Hn; apply envCluster_delivers; [exact Hn | apply list_elem_of_here]).
  assert (H2 : jsonDelete (marshalDelete envCluster "foo") = Some "foo") by reflexivity.
  assert (H4 : server.knowsItself rA replicas) by (apply knowsItself_examples; auto).
  assert (H5 : server.knowsItself rB replicas) by (apply knowsItself_examples; auto).
  assert (H6 : GetReplicasForKey 300 (ring rA) "foo" (replicationFactor rA) = Done replicas)
    by (vm_compute; reflexivity).
  assert (H7 : GetReplicasForKey 300 (ring rB) "foo" (replicationFactor rB) = Done replicas)
    by (vm_compute; reflexivity).
  assert (H8 : G !! selfHost rA = Some full) by (vm_compute; reflexivity).
  assert (H9 : Delete envCluster 300 rA full G "foo" = Done (kv.NewStore, G', None))
    by (vm_compute; reflexivity).
  assert (H10 : server.after rA kv.NewStore G' !! selfHost rB = Some kv.NewStore)
    by (vm_compute; reflexivity).
  repeat (split; [assumption|]).
  exact (acknowledged_delete_is_read jsonPut jsonDelete envCluster 300 rA rB
           G G' full kv.NewStore kv.NewStore "foo" replicas
           H1 H2 H4 H5 H6 H7 H8 H9 H10).
Defined.


(** ** A node alone on its ring *)

(** X26. A node alone on a ring, asked for two replicas or more.  With two
    slots or more the lookup never returns, whatever the id of the node
    and whatever the key: the one node is found at once, and the loop goes
    on waiting for a second one.  With a single slot the lookup returns
    the node. *)
Theorem GetReplicasForKey_single_node_spins (n : NodeInfo) (v rFactor : Z)
    (key : string) (fuel : nat) :
  (2 <= rFactor)%Z ->
  ((2 <= v)%Z -> GetReplicasForKey fuel (NewRing [n] v) key rFactor = OutOfFuel)
  /\ (v = 1%Z -> 1 <= fuel ->
      GetReplicasForKey fuel (NewRing [n] v) key rFactor = Done [n]).
Proof.
  intros Hfac. split; [intros Hv; now apply single_node_spins|].
  intros -> Hfuel.
  destruct (single_node_ring n 1 ltac:(lia)) as (Hlen & Hne & Howner & Hmap).
  set (r := NewRing [n] 1) in *.
  pose proof (slotIds_nonempty r Hne) as Hids.
  change (Z.to_nat 1) with 1 in Hlen.
  destruct (GetReplicasForKey_returns r key rFactor Hne ltac:(lia) Hmap ltac:(lia))
    as (l & Hrun & Hl & _ & Hown).
  rewrite (Hrun fuel ltac:(lia)). f_equal.
  destruct l as [|x [|y l]]; cbn [length] in Hl; try lia.
  inversion Hown as [|? ? (h & Hh & ->) _]; subst.
  unfold spec.owner. now rewrite (Howner h Hh).
Qed.

Lemma GetReplicasForKey_single_node_spins_witness :
  (2 <= 3)%Z
  /\ ((2 <= 100)%Z ->
      GetReplicasForKey 1000 (NewRing [node2] 100) "foo" 3 = OutOfFuel)
  /\ (100%Z = 1%Z -> 1 <= 1000 ->
      GetReplicasForKey 1000 (NewRing [node2] 100) "foo" 3 = Done [node2]).
Proof.
  assert (H1 : (2 <= 3)%Z) by lia.
  split; [exact H1|].
  exact (GetReplicasForKey_single_node_spins node2 100 3 "foo" 1000 H1).
Defined.

(** A start that the condition on the addresses rules out: with
    [LISTEN_ADDR=:8082] and [CLUSTER_NODES=node2=localhost:8082] the node
    keeps the id [node1] and finds itself at [localhost:8082], where the
    ring lists [node2]; the replica of every key is then this node under
    another id. *)
Example boot_listed_under_another_id :
  let getenv := fun name : string =>
    if String.eqb name "LISTEN_ADDR" then ":8082"
    else if String.eqb name "CLUSTER_NODES" then "node2=localhost:8082"
    else if String.eqb name "REPLICATION_FACTOR" then "1"
    else "" in
  let atoi := fun s : string => if String.eqb s "1" then Some 1%Z else None in
  let r := main.bootRouter strings.asciiTrimSpace getenv atoi in
  nodeID r = "node1"
  /\ selfHost r = "localhost:8082"
  /\ GetReplicasForKey 300 (ring r) "a" (replicationFactor r) = Done [node2]
  /\ ~ server.knowsItself r [node2].
Proof.
  intros getenv atoi r.
  split; [reflexivity|]. split; [reflexivity|]. split; [vm_compute; reflexivity|].
  intros Hself. destruct (Hself node2 (list_elem_of_here _ _)) as [_ Hid].
  discriminate (Hid eq_refl).
Qed.
